(** * GSX: assembler and emulator

    A shallow embedding of the GSX emulator ([Gsx.ts], [Registers.ts],
    [TypeCasting.ts], [InstructionSet.ts], [getFloatBytes.ts]) and the
    properties of its translation and execution pipeline.

    JavaScript numbers are IEEE-754 binary64 values; they are modelled by
    the Standard Library's [spec_float] at precision 53, with the
    arithmetic of [SpecFloat] ([SFadd], [SFsub], [SFmul], [SFdiv]).
    Single-precision values (the result of [Math.fround], the elements of a
    [Float32Array], what [DataView.setFloat32] stores) are [spec_float]
    values at precision 24. *)

From Stdlib Require Import ZArith Lia Bool List Ascii String.
From Stdlib Require Import Floats.SpecFloat.
From stdpp Require Import base option list gmap strings pretty.

Open Scope Z_scope.

(** ** JavaScript numbers *)

Module Number.

Definition number := spec_float.

Definition NaN : number := S754_nan.

(** An integer literal or integer-valued intermediate as a number
    (exact below 2^53). *)
Definition ofZ (z : Z) : number := binary_normalize 53 1024 z 0 false.

Definition add (x y : number) : number := SFadd 53 1024 x y.
Definition sub (x y : number) : number := SFsub 53 1024 x y.
Definition mul (x y : number) : number := SFmul 53 1024 x y.
Definition div (x y : number) : number := SFdiv 53 1024 x y.

(** [x < y], [x > y], [x >= y], [x <= y], [x === y]: every comparison
    with NaN is false, and the two zeros are equal. *)
Definition lt (x y : number) : bool := SFltb x y.
Definition gt (x y : number) : bool := SFltb y x.
Definition ge (x y : number) : bool := SFleb y x.
Definition le (x y : number) : bool := SFleb x y.
Definition strict_eq (x y : number) : bool := SFeqb x y.

(** The integer part of a number, toward zero; 0 for NaN, the zeros and
    the infinities (the common part of ToInt8, ToUint32 and
    ToIntegerOrInfinity). *)
Definition truncZ (x : number) : Z :=
  match x with
  | S754_finite s m e => cond_Zopp s (Z.shiftl (Zpos m) e)
  | _ => 0
  end.

(** [Math.trunc]: NaN, zeros and infinities are returned as they are; a
    negative fraction truncates to -0. *)
Definition trunc (x : number) : number :=
  match x with
  | S754_finite s m e =>
      if 0 <=? e then x
      else match Z.shiftr (Zpos m) (- e) with
           | Z0 => S754_zero s
           | q => binary_normalize 53 1024 (cond_Zopp s q) 0 s
           end
  | _ => x
  end.

(** Rounding a number to single precision (ties to even), and the exact
    embedding of a single-precision value into the numbers. *)
Definition round32 (x : number) : spec_float :=
  match x with
  | S754_finite s m e => binary_round 24 128 s m e
  | _ => x
  end.

Definition widen (f : spec_float) : number :=
  match f with
  | S754_finite s m e => binary_round 53 1024 s m e
  | _ => f
  end.

(** [Math.fround]. *)
Definition fround (x : number) : number := widen (round32 x).

(** ToUint32 and ToInt8 of the language standard, the latter given by
    its unsigned representative (the byte that is stored). *)
Definition ToUint32 (x : number) : Z := truncZ x mod 2 ^ 32.
Definition ToUint8 (x : number) : Z := truncZ x mod 2 ^ 8.

(** ToIndex: [None] stands for the RangeError. *)
Definition ToIndex (x : number) : option Z :=
  match x with
  | S754_infinity _ => None
  | _ => let n := truncZ x in
         if (n <? 0) || (2 ^ 53 - 1 <? n) then None else Some n
  end.

(** A number used as the index of a typed array: a valid integer index
    is a non-negative integral number (the key of -0 is "0"). *)
Definition integerIndex (x : number) : option Z :=
  match x with
  | S754_zero _ => Some 0
  | S754_finite false m e =>
      if 0 <=? e then Some (Z.shiftl (Zpos m) e)
      else if Z.land (Zpos m) (Z.ones (- e)) =? 0
           then Some (Z.shiftr (Zpos m) (- e))
           else None
  | _ => None
  end.

(** The 32 bits of a single-precision value, and back. A number has one
    NaN, while the bits that the host stores for a NaN are its own choice
    (the sign and the payload of the value, which a number does not
    show): here the quiet NaN 7FC00000 stands for them, and the
    statements about stored bytes leave NaN out. Every such pattern reads
    back as NaN. *)
Definition join_bits (s : bool) (E F : Z) : Z :=
  (if s then 2 ^ 31 else 0) + E * 2 ^ 23 + F.

Definition bits_of_b32 (f : spec_float) : Z :=
  match f with
  | S754_zero s => join_bits s 0 0
  | S754_infinity s => join_bits s 255 0
  | S754_nan => join_bits false 255 (2 ^ 22)
  | S754_finite s m e =>
      if 2 ^ 23 <=? Zpos m
      then join_bits s (e + 150) (Zpos m - 2 ^ 23)
      else join_bits s 0 (Zpos m)
  end.

Definition b32_of_bits (w : Z) : spec_float :=
  let s := Z.testbit w 31 in
  let E := (w / 2 ^ 23) mod 2 ^ 8 in
  let F := w mod 2 ^ 23 in
  if E =? 0 then
    if F =? 0 then S754_zero s else S754_finite s (Z.to_pos F) (-149)
  else if E =? 255 then
    if F =? 0 then S754_infinity s else S754_nan
  else S754_finite s (Z.to_pos (F + 2 ^ 23)) (E - 150).

End Number.

Import Number.

(** ** Exceptions and byte buffers *)

Inductive exn :=
| RangeError
| TypeError
| Error (message : string).

(** A [DataView] over an [ArrayBuffer]: its size and its bytes (each in
    0..255). A fresh buffer holds zeros. *)
Record DataView := { byteLength : Z; byteAt : Z -> Z }.

Module DataView.

Definition alloc (size : Z) : DataView :=
  {| byteLength := size; byteAt := fun _ => 0 |}.

(** [new DataView(new Uint8Array(bytes).buffer)]. *)
Definition ofBytes (bytes : list Z) : DataView :=
  {| byteLength := Z.of_nat (length bytes);
     byteAt := fun i => if i <? 0 then 0 else nth (Z.to_nat i) bytes 0 |}.

Definition store (v : DataView) (i b : Z) : DataView :=
  {| byteLength := byteLength v;
     byteAt := fun j => if j =? i then b else byteAt v j |}.

(** [new Uint8Array(view.buffer).fill(0)]. *)
Definition fill0 (v : DataView) : DataView :=
  {| byteLength := byteLength v; byteAt := fun _ => 0 |}.

(** GetViewValue and SetViewValue: ToIndex of the offset, then the
    bounds check against the view's size. *)
Definition viewIndex (v : DataView) (byteOffset : number) (size : Z)
  : exn + Z :=
  match ToIndex byteOffset with
  | None => inl RangeError
  | Some i => if byteLength v <? i + size then inl RangeError else inr i
  end.

Definition getUint8 (v : DataView) (byteOffset : number) : exn + number :=
  match viewIndex v byteOffset 1 with
  | inl e => inl e
  | inr i => inr (ofZ (byteAt v i))
  end.

Definition signed8 (b : Z) : Z := if b <? 128 then b else b - 256.

Definition getInt8 (v : DataView) (byteOffset : number) : exn + number :=
  match viewIndex v byteOffset 1 with
  | inl e => inl e
  | inr i => inr (ofZ (signed8 (byteAt v i)))
  end.

Definition setInt8 (v : DataView) (byteOffset value : number)
  : exn + DataView :=
  match viewIndex v byteOffset 1 with
  | inl e => inl e
  | inr i => inr (store v i (ToUint8 value))
  end.

(** Big-endian is the default byte order of a [DataView]. *)
Definition word32 (v : DataView) (i : Z) : Z :=
  byteAt v i * 2 ^ 24 + byteAt v (i + 1) * 2 ^ 16
  + byteAt v (i + 2) * 2 ^ 8 + byteAt v (i + 3).

Definition bytes32 (w : Z) : list Z :=
  [(w / 2 ^ 24) mod 256; (w / 2 ^ 16) mod 256; (w / 2 ^ 8) mod 256;
   w mod 256].

Definition getFloat32 (v : DataView) (byteOffset : number) : exn + number :=
  match viewIndex v byteOffset 4 with
  | inl e => inl e
  | inr i => inr (widen (b32_of_bits (word32 v i)))
  end.

Definition storeList (v : DataView) (i : Z) (bs : list Z) : DataView :=
  fst (fold_left (fun '(v, j) b => (store v j b, j + 1)) bs (v, i)).

Definition setFloat32 (v : DataView) (byteOffset value : number)
  : exn + DataView :=
  match viewIndex v byteOffset 4 with
  | inl e => inl e
  | inr i => inr (storeList v i (bytes32 (bits_of_b32 (round32 value))))
  end.

End DataView.

(** ** DataTypeConstants.ts

    The file of the width constants is not among the sources; the names
    are those the sources import, the values the bounds of the signed
    8-bit, unsigned 8-bit and unsigned 32-bit integers that the spec
    gives. *)

(** Modelled from the spec: DataTypeConstants.ts is missing; the least
    signed byte, -128. *)
Definition INT8_MIN : number := ofZ (-128).

(** Modelled from the spec: DataTypeConstants.ts is missing; the greatest
    signed byte, 127. *)
Definition INT8_MAX : number := ofZ 127.

(** Modelled from the spec: DataTypeConstants.ts is missing; the greatest
    unsigned byte, 255. *)
Definition UINT8_MAX : number := ofZ 255.

(** Modelled from the spec: DataTypeConstants.ts is missing; the greatest
    unsigned 32-bit integer, 2^32 - 1. *)
Definition UINT32_MAX : number := ofZ 4294967295.

(** ** TypeCasting.ts *)

Definition integerSaturate (value min max : number) : number :=
  if lt value min then min
  else if gt value max then max
  else trunc value.

Definition toUint8 (value : number) : number :=
  integerSaturate value (ofZ 0) UINT8_MAX.

Definition toUint32 (value : number) : number :=
  integerSaturate value (ofZ 0) UINT32_MAX.

Definition toFloat32 (value : number) : number := fround value.

(** ** Registers.ts *)

Inductive GeneralPurposeRegisterName := reg_t | reg_r | reg_y.

Inductive RegisterName :=
| gp (g : GeneralPurposeRegisterName)
| reg_pc
| reg_as
| reg_js.

Coercion gp : GeneralPurposeRegisterName >-> RegisterName.

Record Registers := {
  _programCounter : number;
  _argumentStackPointer : number;
  _jumpStackPointer : number;
  _t : number;
  _r : number;
  _y : number
}.

Module Registers.

Definition new : Registers :=
  {| _programCounter := ofZ 0; _argumentStackPointer := ofZ 0;
     _jumpStackPointer := ofZ 0;
     _t := ofZ 0; _r := ofZ 0; _y := ofZ 0 |}.

Definition programCounter (rs : Registers) : number := _programCounter rs.
Definition argumentStackPointer (rs : Registers) : number :=
  _argumentStackPointer rs.
Definition jumpStackPointer (rs : Registers) : number :=
  _jumpStackPointer rs.
Definition t (rs : Registers) : number := _t rs.
Definition r (rs : Registers) : number := _r rs.
Definition y (rs : Registers) : number := _y rs.

Definition set_programCounter (value : number) (rs : Registers) :=
  {| _programCounter := toUint32 value;
     _argumentStackPointer := _argumentStackPointer rs;
     _jumpStackPointer := _jumpStackPointer rs;
     _t := _t rs; _r := _r rs; _y := _y rs |}.

Definition set_argumentStackPointer (value : number) (rs : Registers) :=
  {| _programCounter := _programCounter rs;
     _argumentStackPointer := toUint8 value;
     _jumpStackPointer := _jumpStackPointer rs;
     _t := _t rs; _r := _r rs; _y := _y rs |}.

Definition set_jumpStackPointer (value : number) (rs : Registers) :=
  {| _programCounter := _programCounter rs;
     _argumentStackPointer := _argumentStackPointer rs;
     _jumpStackPointer := toUint8 value;
     _t := _t rs; _r := _r rs; _y := _y rs |}.

Definition set_t (value : number) (rs : Registers) :=
  {| _programCounter := _programCounter rs;
     _argumentStackPointer := _argumentStackPointer rs;
     _jumpStackPointer := _jumpStackPointer rs;
     _t := toFloat32 value; _r := _r rs; _y := _y rs |}.

Definition set_r (value : number) (rs : Registers) :=
  {| _programCounter := _programCounter rs;
     _argumentStackPointer := _argumentStackPointer rs;
     _jumpStackPointer := _jumpStackPointer rs;
     _t := _t rs; _r := toFloat32 value; _y := _y rs |}.

Definition set_y (value : number) (rs : Registers) :=
  {| _programCounter := _programCounter rs;
     _argumentStackPointer := _argumentStackPointer rs;
     _jumpStackPointer := _jumpStackPointer rs;
     _t := _t rs; _r := _r rs; _y := toFloat32 value |}.

Definition get (which : RegisterName) (rs : Registers) : number :=
  match which with
  | reg_pc => programCounter rs
  | reg_as => argumentStackPointer rs
  | reg_js => jumpStackPointer rs
  | gp reg_t => t rs
  | gp reg_r => r rs
  | gp reg_y => y rs
  end.

Definition set (which : RegisterName) (value : number) (rs : Registers)
  : Registers :=
  match which with
  | reg_pc => set_programCounter value rs
  | reg_as => set_argumentStackPointer value rs
  | reg_js => set_jumpStackPointer value rs
  | gp reg_t => set_t value rs
  | gp reg_r => set_r value rs
  | gp reg_y => set_y value rs
  end.

Definition reset (rs : Registers) : Registers :=
  set_y (ofZ 0)
    (set_r (ofZ 0)
       (set_t (ofZ 0)
          (set_jumpStackPointer (ofZ 0)
             (set_argumentStackPointer (ofZ 0)
                (set_programCounter (ofZ 0) rs))))).

End Registers.

(** ** Gsx.ts: the machine state *)

Definition BYTES_PER_MB : Z := 1048576.

Record Gsx := {
  registers : Registers;
  ram : DataView;
  argumentStack : list number;   (* Float32Array(256) *)
  jumpStack : list Z             (* Uint32Array(256) *)
}.

(** [new Gsx()]. *)
Definition Gsx_new : Gsx :=
  {| registers := Registers.new;
     ram := DataView.alloc (3 * BYTES_PER_MB);
     argumentStack := replicate 256 (ofZ 0);
     jumpStack := replicate 256 0 |}.

(** ** Computations on the machine

    The handlers mutate the machine in place and may throw; a computation
    takes the machine and ends with a value or with an exception, in both
    cases together with the machine as it is then. *)

Inductive outcome (A : Type) :=
| Val (a : A) (g : Gsx)
| Throw (e : exn) (g : Gsx).

Arguments Val {A} a g.
Arguments Throw {A} e g.

Definition M (A : Type) : Type := Gsx -> outcome A.

Definition ret {A} (a : A) : M A := fun g => Val a g.

Definition bind {A B} (m : M A) (k : A -> M B) : M B :=
  fun g => match m g with
           | Val a g' => k a g'
           | Throw e g' => Throw e g'
           end.

Definition throw {A} (e : exn) : M A := fun g => Throw e g.

Declare Scope gsx_scope.
Delimit Scope gsx_scope with gsx.
Notation "x <- m ;; k" := (bind m (fun x => k))
  (at level 100, m at next level, right associativity) : gsx_scope.
Notation "m ;;; k" := (bind m (fun _ => k))
  (at level 100, right associativity) : gsx_scope.
Open Scope gsx_scope.

Definition liftE {A} (x : exn + A) : M A :=
  match x with
  | inl e => throw e
  | inr a => ret a
  end.

(** Reading and writing the parts of the machine. *)
Definition getRegisters : M Registers := fun g => Val (registers g) g.

Definition modifyRegisters (f : Registers -> Registers) : M unit :=
  fun g => Val tt {| registers := f (registers g); ram := ram g;
                     argumentStack := argumentStack g;
                     jumpStack := jumpStack g |}.

Definition programCounter : M number :=
  rs <- getRegisters ;; ret (Registers.programCounter rs).
Definition set_programCounter (value : number) : M unit :=
  modifyRegisters (Registers.set_programCounter value).

Definition argumentStackPointer : M number :=
  rs <- getRegisters ;; ret (Registers.argumentStackPointer rs).
Definition set_argumentStackPointer (value : number) : M unit :=
  modifyRegisters (Registers.set_argumentStackPointer value).

Definition jumpStackPointer : M number :=
  rs <- getRegisters ;; ret (Registers.jumpStackPointer rs).
Definition set_jumpStackPointer (value : number) : M unit :=
  modifyRegisters (Registers.set_jumpStackPointer value).

Definition registers_get (which : RegisterName) : M number :=
  rs <- getRegisters ;; ret (Registers.get which rs).
Definition registers_set (which : RegisterName) (value : number) : M unit :=
  modifyRegisters (Registers.set which value).

(** Typed arrays. An index that is not a valid integer index, or is out
    of range, reads [undefined] and writes nothing; [undefined] is given
    as NaN, which is what both uses of such a read ([toUint32] and
    [toFloat32]) make of it. *)
Definition typedIndex (index : number) : option nat :=
  match integerIndex index with
  | Some i => Some (Z.to_nat i)
  | None => None
  end.

Definition jumpStack_get (index : number) : M number :=
  fun g => Val (match typedIndex index with
                | Some i => match jumpStack g !! i with
                            | Some a => ofZ a
                            | None => NaN
                            end
                | None => NaN
                end) g.

Definition jumpStack_set (index value : number) : M unit :=
  fun g => Val tt
    {| registers := registers g; ram := ram g;
       argumentStack := argumentStack g;
       jumpStack := match typedIndex index with
                    | Some i => <[i := ToUint32 value]> (jumpStack g)
                    | None => jumpStack g
                    end |}.

Definition argumentStack_get (index : number) : M number :=
  fun g => Val (match typedIndex index with
                | Some i => match argumentStack g !! i with
                            | Some a => a
                            | None => NaN
                            end
                | None => NaN
                end) g.

Definition argumentStack_set (index value : number) : M unit :=
  fun g => Val tt
    {| registers := registers g; ram := ram g;
       argumentStack := match typedIndex index with
                        | Some i => <[i := fround value]> (argumentStack g)
                        | None => argumentStack g
                        end;
       jumpStack := jumpStack g |}.

(** The RAM, through its [DataView]. *)
Definition ram_get (read : DataView -> number -> exn + number)
    (address : number) : M number :=
  fun g => match read (ram g) address with
           | inl e => Throw e g
           | inr v => Val v g
           end.

Definition ram_set (write : DataView -> number -> number -> exn + DataView)
    (address value : number) : M unit :=
  fun g => match write (ram g) address value with
           | inl e => Throw e g
           | inr ram' => Val tt {| registers := registers g; ram := ram';
                                   argumentStack := argumentStack g;
                                   jumpStack := jumpStack g |}
           end.

(** [Gsx.reset]. *)
Definition reset : M unit :=
  fun g => Val tt {| registers := Registers.reset (registers g);
                     ram := DataView.fill0 (ram g);
                     argumentStack := argumentStack g;
                     jumpStack := jumpStack g |}.

(** ** Program text

    A text is a [string] of 8-bit code units (Latin-1); the white space
    and the letter cases below are those of the language standard within
    that range. Texts with other characters are not given: for them the
    lower case of the standard depends on the context of a letter, and
    the characters U+2028 and U+2029 end a comment as well. *)

Module Text.

Definition code (c : ascii) : Z := Z.of_N (N_of_ascii c).

(** The class [\s]. *)
Definition isWhiteSpace (c : ascii) : bool :=
  let n := code c in
  ((9 <=? n) && (n <=? 13)) || (n =? 32) || (n =? 160).

(** What [.] does not match. *)
Definition isLineTerminator (c : ascii) : bool :=
  let n := code c in (n =? 10) || (n =? 13).

Definition toLowerCaseChar (c : ascii) : ascii :=
  let n := code c in
  if ((65 <=? n) && (n <=? 90))
     || ((192 <=? n) && (n <=? 222) && negb (n =? 215))
  then ascii_of_N (Z.to_N (n + 32))
  else c.

Fixpoint toLowerCase (s : string) : string :=
  match s with
  | EmptyString => EmptyString
  | String c s' => String (toLowerCaseChar c) (toLowerCase s')
  end.

(** [s.replace(/\s+|#.*/g, '')]: outside a comment, white space is
    dropped and [#] opens a comment; a comment runs up to the next line
    terminator, which is white space and is dropped as well. *)
Fixpoint stripSpaceAndComments (inComment : bool) (s : string) : string :=
  match s with
  | EmptyString => EmptyString
  | String c s' =>
      if inComment then
        stripSpaceAndComments (negb (isLineTerminator c)) s'
      else if isWhiteSpace c then stripSpaceAndComments false s'
      else if Ascii.eqb c "#" then stripSpaceAndComments true s'
      else String c (stripSpaceAndComments false s')
  end.

(** [s.split('\n')]. *)
Fixpoint splitLines (s : string) : list string :=
  match s with
  | EmptyString => [EmptyString]
  | String c s' =>
      if Ascii.eqb c "010" then EmptyString :: splitLines s'
      else match splitLines s' with
           | line :: rest => String c line :: rest
           | [] => [String c EmptyString]
           end
  end.

Definition digitValue (c : ascii) : option Z :=
  let n := code c in
  if (48 <=? n) && (n <=? 57) then Some (n - 48) else None.

(** The longest prefix of decimal digits and what follows it. *)
Fixpoint digitsPrefix (s : string) : list Z * string :=
  match s with
  | EmptyString => ([], EmptyString)
  | String c s' =>
      match digitValue c with
      | Some d => let '(ds, rest) := digitsPrefix s' in (d :: ds, rest)
      | None => ([], s)
      end
  end.

Definition decimalValue (ds : list Z) : Z :=
  fold_left (fun acc d => 10 * acc + d) ds 0.

Definition stripSign (s : string) : bool * string :=
  match s with
  | String "-" s' => (true, s')
  | _ => (false, s)
  end.

(** The number nearest to [n / 10^k], for a natural [n]. *)
Definition decimalToNumber (n : Z) (k : nat) : number :=
  match n with
  | Zpos p => SFdiv 53 1024 (S754_finite false p 0)
                (S754_finite false (Z.to_pos (10 ^ Z.of_nat k)) 0)
  | _ => S754_zero false
  end.

Definition withSign (negative : bool) (x : number) : number :=
  if negative then SFopp x else x.

(** [parseInt(s, 10)] and [parseFloat(s)] on a sign, digits and a
    fraction (the texts the constant pattern admits); a text that does
    not start so gives NaN. *)
Definition parseInt10 (s : string) : number :=
  let '(negative, s1) := stripSign s in
  match digitsPrefix s1 with
  | ([], _) => NaN
  | (ds, _) => withSign negative (decimalToNumber (decimalValue ds) 0)
  end.

Definition parseFloat (s : string) : number :=
  let '(negative, s1) := stripSign s in
  match digitsPrefix s1 with
  | ([], _) => NaN
  | (ds, rest) =>
      let fs := match rest with
                | String "." rest' => fst (digitsPrefix rest')
                | _ => []
                end in
      withSign negative
        (decimalToNumber (decimalValue (ds ++ fs)) (length fs))
  end.

End Text.

Import Text.

(** ** InstructionSet.ts: the instructions *)

Local Open Scope string_scope.

Definition assign (to from : string) : string :=
  "new " +:+ to +:+ " = " +:+ from.

Definition normalizeMnemonic (mnemonic : string) : string :=
  toLowerCase (stripSpaceAndComments false mnemonic).

Definition generalPurposeRegisters : list GeneralPurposeRegisterName :=
  [reg_t; reg_r; reg_y].

(** The text of a register name in a template literal. *)
Definition letter (register : GeneralPurposeRegisterName) : string :=
  match register with
  | reg_t => "t"
  | reg_r => "r"
  | reg_y => "y"
  end.

Definition otherTwo (register : GeneralPurposeRegisterName)
  : GeneralPurposeRegisterName * GeneralPurposeRegisterName :=
  match register with
  | reg_t => (reg_r, reg_y)
  | reg_r => (reg_t, reg_y)
  | reg_y => (reg_t, reg_r)
  end.

Definition both {A} (p : A * A) : list A := [fst p; snd p].

(** [(gsx, programBytecode) => void]. *)
Definition Instruction : Type := DataView -> M unit.

Module Handlers.

(** [programCounter += n] *)
Definition advance (n : Z) : M unit :=
  pc <- programCounter ;; set_programCounter (add pc (ofZ n)).

Definition loadByte (register : GeneralPurposeRegisterName) : Instruction :=
  fun programBytecode =>
    pc <- programCounter ;;
    byte <- liftE (DataView.getInt8 programBytecode pc) ;;
    registers_set register byte ;;;
    advance 1.

Definition loadFloat (register : GeneralPurposeRegisterName) : Instruction :=
  fun programBytecode =>
    pc <- programCounter ;;
    float <- liftE (DataView.getFloat32 programBytecode pc) ;;
    registers_set register float ;;;
    advance 4.

Definition exit : Instruction :=
  fun _ =>
    js <- jumpStackPointer ;;
    if strict_eq js (ofZ 0) then set_programCounter UINT32_MAX
    else
      (js <- jumpStackPointer ;;
       set_jumpStackPointer (sub js (ofZ 1)) ;;;
       js <- jumpStackPointer ;;
       address <- jumpStack_get js ;;
       set_programCounter address).

Definition run (register : GeneralPurposeRegisterName) : Instruction :=
  fun _ =>
    js <- jumpStackPointer ;;
    pc <- programCounter ;;
    jumpStack_set js (add (ofZ 1) pc) ;;;
    js <- jumpStackPointer ;;
    set_jumpStackPointer (add js (ofZ 1)) ;;;
    target <- registers_get register ;;
    set_programCounter target.

Definition push (register : GeneralPurposeRegisterName) : Instruction :=
  fun _ =>
    sp <- argumentStackPointer ;;
    value <- registers_get register ;;
    argumentStack_set sp value ;;;
    sp <- argumentStackPointer ;;
    set_argumentStackPointer (add sp (ofZ 1)).

Definition pop (register : GeneralPurposeRegisterName) : Instruction :=
  fun _ =>
    sp <- argumentStackPointer ;;
    set_argumentStackPointer (sub sp (ofZ 1)) ;;;
    sp <- argumentStackPointer ;;
    value <- argumentStack_get sp ;;
    registers_set register value.

Definition readByte (valueRegister addressRegister : GeneralPurposeRegisterName)
  : Instruction :=
  fun _ =>
    address <- registers_get addressRegister ;;
    byteFromRam <- ram_get DataView.getInt8 address ;;
    registers_set valueRegister byteFromRam.

Definition readFloat (valueRegister addressRegister : GeneralPurposeRegisterName)
  : Instruction :=
  fun _ =>
    address <- registers_get addressRegister ;;
    floatFromRam <- ram_get DataView.getFloat32 address ;;
    registers_set valueRegister floatFromRam.

Definition writeByte (addressRegister valueRegister : GeneralPurposeRegisterName)
  : Instruction :=
  fun _ =>
    byte <- registers_get valueRegister ;;
    address <- registers_get addressRegister ;;
    ram_set DataView.setInt8 address byte.

Definition writeFloat (addressRegister valueRegister : GeneralPurposeRegisterName)
  : Instruction :=
  fun _ =>
    float <- registers_get valueRegister ;;
    address <- registers_get addressRegister ;;
    ram_set DataView.setFloat32 address float.

(** [registers.set(register, registers.get(a) op registers.get(b))] *)
Definition arith (op : number -> number -> number)
    (register a b : GeneralPurposeRegisterName) : Instruction :=
  fun _ =>
    x <- registers_get a ;;
    y <- registers_get b ;;
    registers_set register (op x y).

End Handlers.

(** ** InstructionSet.ts: the table and the dictionary

    The module body runs once, top to bottom; each statement transforms
    the pair of the dictionary and the table. *)

Record Tables := {
  bytecodeByKeyableMnemonic : gmap string Z;
  instructionByBytecode : list Instruction
}.

Definition Init : Type := Tables -> Tables.

Definition forOf {A} (xs : list A) (body : A -> Init) : Init :=
  fun tb => fold_left (fun tb x => body x tb) xs tb.

Definition statements (body : list Init) : Init :=
  fun tb => fold_left (fun tb statement => statement tb) body tb.

Definition pushInstruction (instruction : Instruction) : Init :=
  fun tb =>
    {| bytecodeByKeyableMnemonic := bytecodeByKeyableMnemonic tb;
       instructionByBytecode := instructionByBytecode tb ++ [instruction] |}.

Definition define (mnemonics : list string) (instruction : Instruction) : Init :=
  fun tb =>
    let normalizedMnemonics := map normalizeMnemonic mnemonics in
    let bytecode := Z.of_nat (length (instructionByBytecode tb)) in
    pushInstruction instruction
      {| bytecodeByKeyableMnemonic :=
           fold_left (fun dict mnemonic => <[mnemonic := bytecode]> dict)
             normalizedMnemonics (bytecodeByKeyableMnemonic tb);
         instructionByBytecode := instructionByBytecode tb |}.

Import Handlers.

Definition threeOperand (op : number -> number -> number) (sign : string) : Init :=
  forOf generalPurposeRegisters (fun register =>
    let '(other1, other2) := otherTwo register in
    statements [
      define [assign (letter register)
                (letter other1 +:+ " " +:+ sign +:+ " " +:+ letter other2)]
        (arith op register other1 other2);
      define [assign (letter register)
                (letter other2 +:+ " " +:+ sign +:+ " " +:+ letter other1)]
        (arith op register other2 other1)
    ]).

Definition targetInOperand (op : number -> number -> number) (sign : string)
  : Init :=
  forOf generalPurposeRegisters (fun register =>
    let '(other1, other2) := otherTwo register in
    statements [
      define [assign (letter register)
                (letter register +:+ " " +:+ sign +:+ " " +:+ letter other1)]
        (arith op register register other1);
      define [assign (letter register)
                (letter register +:+ " " +:+ sign +:+ " " +:+ letter other2)]
        (arith op register register other2);
      define [assign (letter register)
                (letter other1 +:+ " " +:+ sign +:+ " " +:+ letter register)]
        (arith op register other1 register);
      define [assign (letter register)
                (letter other2 +:+ " " +:+ sign +:+ " " +:+ letter register)]
        (arith op register other2 register)
    ]).

(** The statements of the module, in the order of the file. The loop that
    defines "itself times another register" is closed only at the end of
    the file: the subtraction and division loops are part of its body, and
    run once for each of its three registers. *)
Definition moduleBody : Init :=
  statements [
    forOf generalPurposeRegisters (fun register =>
      pushInstruction (loadByte register));
    forOf generalPurposeRegisters (fun register =>
      pushInstruction (loadFloat register));
    define ["exit"] exit;
    forOf generalPurposeRegisters (fun register =>
      define ["run " +:+ letter register] (run register));
    forOf generalPurposeRegisters (fun register =>
      define ["push " +:+ letter register] (push register));
    forOf generalPurposeRegisters (fun register =>
      define [assign (letter register) "pop"] (pop register));
    (* Memory access *)
    forOf generalPurposeRegisters (fun addressRegister =>
      forOf generalPurposeRegisters (fun valueRegister =>
        define [assign (letter valueRegister)
                  ("ram[" +:+ letter addressRegister +:+ "] byte")]
          (readByte valueRegister addressRegister)));
    forOf generalPurposeRegisters (fun addressRegister =>
      forOf generalPurposeRegisters (fun valueRegister =>
        define [assign (letter valueRegister)
                  ("ram[" +:+ letter addressRegister +:+ "] float")]
          (readFloat valueRegister addressRegister)));
    forOf generalPurposeRegisters (fun addressRegister =>
      forOf (both (otherTwo addressRegister)) (fun valueRegister =>
        define [assign ("ram[" +:+ letter addressRegister +:+ "] byte")
                  (letter valueRegister)]
          (writeByte addressRegister valueRegister)));
    forOf generalPurposeRegisters (fun addressRegister =>
      forOf (both (otherTwo addressRegister)) (fun valueRegister =>
        define [assign ("ram[" +:+ letter addressRegister +:+ "] float")
                  (letter valueRegister)]
          (writeFloat addressRegister valueRegister)));
    (* Addition *)
    forOf generalPurposeRegisters (fun register =>
      let '(other1, other2) := otherTwo register in
      define [assign (letter register) (letter other1 +:+ " + " +:+ letter other2);
              assign (letter register) (letter other2 +:+ " + " +:+ letter other1)]
        (arith add register other1 other2));
    forOf generalPurposeRegisters (fun register =>
      define [assign (letter register) (letter register +:+ " + " +:+ letter register);
              assign (letter register) ("2 * " +:+ letter register);
              assign (letter register) (letter register +:+ " * 2")]
        (arith add register register register));
    forOf generalPurposeRegisters (fun register =>
      forOf (both (otherTwo register)) (fun otherRegister =>
        define [assign (letter register)
                  (letter register +:+ " + " +:+ letter otherRegister);
                assign (letter register)
                  (letter otherRegister +:+ " + " +:+ letter register)]
          (arith add register register otherRegister)));
    (* Multiplication *)
    forOf generalPurposeRegisters (fun register =>
      let '(other1, other2) := otherTwo register in
      define [assign (letter register) (letter other1 +:+ " * " +:+ letter other2);
              assign (letter register) (letter other2 +:+ " * " +:+ letter other1)]
        (arith mul register other1 other2));
    forOf generalPurposeRegisters (fun register =>
      define [assign (letter register) (letter register +:+ " * " +:+ letter register);
              assign (letter register) (letter register +:+ "^2")]
        (arith mul register register register));
    forOf generalPurposeRegisters (fun register =>
      statements [
        forOf (both (otherTwo register)) (fun otherRegister =>
          define [assign (letter register)
                    (letter register +:+ " * " +:+ letter otherRegister);
                  assign (letter register)
                    (letter otherRegister +:+ " * " +:+ letter register)]
            (arith mul register register otherRegister));
        (* Subtraction *)
        threeOperand sub "-";
        targetInOperand sub "-";
        (* Division *)
        threeOperand div "/";
        targetInOperand div "/"
      ])
  ].

Definition tables : Tables :=
  moduleBody {| bytecodeByKeyableMnemonic := ∅; instructionByBytecode := [] |}.

(** ** getFloatBytes.ts *)

Definition getFloatBytes (value : number) : list number :=
  match DataView.setFloat32 (DataView.alloc 4) (ofZ 0) value with
  | inr dataView =>
      map (fun i => match DataView.getInt8 dataView (ofZ i) with
                    | inr byte => byte
                    | inl _ => NaN
                    end) [0; 1; 2; 3]
  | inl _ => []
  end.

(** ** InstructionSet.ts: the assembler *)

Inductive BytecodeForConstantAssignment :=
| ByteToRegisterT
| ByteToRegisterR
| ByteToRegisterY
| FloatToRegisterT
| FloatToRegisterR
| FloatToRegisterY.

Definition enumValue (b : BytecodeForConstantAssignment) : number :=
  ofZ match b with
      | ByteToRegisterT => 0
      | ByteToRegisterR => 1
      | ByteToRegisterY => 2
      | FloatToRegisterT => 3
      | FloatToRegisterR => 4
      | FloatToRegisterY => 5
      end.

Definition registerOfLetter (c : ascii) : option GeneralPurposeRegisterName :=
  if Ascii.eqb c "t" then Some reg_t
  else if Ascii.eqb c "r" then Some reg_r
  else if Ascii.eqb c "y" then Some reg_y
  else None.

(** [-?\d+(?:\.\d+)?] up to the end of the text. *)
Definition isSignedDecimal (s : string) : bool :=
  match digitsPrefix (snd (stripSign s)) with
  | ([], _) => false
  | (_, EmptyString) => true
  | (_, String "." rest) =>
      match digitsPrefix rest with
      | (_ :: _, EmptyString) => true
      | _ => false
      end
  | _ => false
  end.

(** [stripPrefix p s] is what follows [p] in [s], when [s] starts with [p]. *)
Fixpoint stripPrefix (p s : string) : option string :=
  match p with
  | EmptyString => Some s
  | String a p' =>
      match s with
      | String b s' => if Ascii.eqb a b then stripPrefix p' s' else None
      | EmptyString => None
      end
  end.

(** The captures of [/^new([try])=(-?\d+(?:\.\d+)?)$/]. *)
Definition matchConstantAssignment (s : string)
  : option (GeneralPurposeRegisterName * string) :=
  match stripPrefix "new" s with
  | Some (String c rest) =>
      match registerOfLetter c, stripPrefix "=" rest with
      | Some register, Some constant =>
          if isSignedDecimal constant then Some (register, constant) else None
      | _, _ => None
      end
  | _ => None
  end.

Definition tryToGetBytecodeForConstantAssignment (normalizedMnemonic : string)
  : option (list number) :=
  match matchConstantAssignment normalizedMnemonic with
  | None => None
  | Some (register, constantAsString) =>
      let constant := parseFloat constantAsString in
      let isConstantAByte :=
        ge constant INT8_MIN && le constant INT8_MAX
        && strict_eq constant (parseInt10 constantAsString) in
      if isConstantAByte then
        match register with
        | reg_t => Some [enumValue ByteToRegisterT; constant]
        | reg_r => Some [enumValue ByteToRegisterR; constant]
        | reg_y => Some [enumValue ByteToRegisterY; constant]
        end
      else
        match register with
        | reg_t => Some (enumValue FloatToRegisterT :: getFloatBytes constant)
        | reg_r => Some (enumValue FloatToRegisterR :: getFloatBytes constant)
        | reg_y => Some (enumValue FloatToRegisterY :: getFloatBytes constant)
        end
  end.

(** The dictionary is a plain object: besides its own keys, a lookup
    finds the properties of [Object.prototype]. Of those, the names a
    normalized (lower-case) mnemonic can spell are [constructor] and
    [__proto__]; their values are objects, which are not [undefined] and
    which the final [Uint8Array] conversion turns into NaN. *)
Definition inheritedKey (key : string) : bool :=
  String.eqb key "constructor" || String.eqb key "__proto__".

Definition lookupKeyable (key : string) : option number :=
  match bytecodeByKeyableMnemonic tables !! key with
  | Some bytecode => Some (ofZ bytecode)
  | None => if inheritedKey key then Some NaN else None
  end.

Section Locale.

(** [Number.prototype.toLocaleString] on the integers, which depends on
    the host's locale. *)
Variable toLocaleString : Z -> string.

Definition unknownInstruction (line : string) (lineIndex : Z) : string :=
  "Unknown instruction (" +:+ line +:+ ") on line "
    +:+ toLocaleString (lineIndex + 1) +:+ ".".

(** The body of the loop over [programLines.entries()]. *)
Definition translateLine (lineIndex : Z) (line : string)
    (state : list number * list string) : list number * list string :=
  let '(programBytes, syntaxErrors) := state in
  let normalizedMnemonic := normalizeMnemonic line in
  if (String.length normalizedMnemonic =? 0)%nat then state
  else
    match lookupKeyable normalizedMnemonic with
    | Some possibleBytecode =>
        if (length syntaxErrors =? 0)%nat
        then ((programBytes ++ [possibleBytecode])%list, syntaxErrors)
        else state
    | None =>
        match tryToGetBytecodeForConstantAssignment normalizedMnemonic with
        | None =>
            (programBytes,
             (syntaxErrors ++ [unknownInstruction line lineIndex])%list)
        | Some bytecodeForConstantAssignment =>
            ((programBytes ++ bytecodeForConstantAssignment)%list, syntaxErrors)
        end
    end.

Fixpoint translateLines (programLines : list string) (lineIndex : Z)
    (state : list number * list string) : list number * list string :=
  match programLines with
  | [] => state
  | line :: rest =>
      translateLines rest (lineIndex + 1) (translateLine lineIndex line state)
  end.

(** The bytes of the returned [DataView] and the syntax errors. *)
Definition translateToBytes (program : string) : list Z * list string :=
  let '(programBytes, syntaxErrors) :=
    translateLines (splitLines program) 0 ([], []) in
  (map ToUint8 (if (0 <? length syntaxErrors)%nat then [] else programBytes),
   syntaxErrors).

Definition translateToBytecode (program : string) : DataView * list string :=
  let '(bytes, syntaxErrors) := translateToBytes program in
  (DataView.ofBytes bytes, syntaxErrors).

(** ** The interpreter *)

Definition runInstruction (instructionBytecode : number)
    (programBytecode : DataView) : M unit :=
  match typedIndex instructionBytecode with
  | Some i =>
      match instructionByBytecode tables !! i with
      | Some instruction => instruction programBytecode
      | None => throw TypeError
      end
  | None => throw TypeError
  end.

Definition MAX_PROGRAM_SIZE : Z := 3 * BYTES_PER_MB.

(** One turn of the [while] loop of [runProgram]. *)
Definition fetchAndRun (program : DataView) : M unit :=
  pc <- programCounter ;;
  instructionBytecode <- liftE (DataView.getUint8 program pc) ;;
  pc <- programCounter ;;
  set_programCounter (add pc (ofZ 1)) ;;;
  runInstruction instructionBytecode program.

(** The loop, with a bound on the number of turns: [None] when the
    bound is reached before the loop ends. *)
Fixpoint whileLoop (turns : nat) (program : DataView) (g : Gsx)
  : option (outcome unit) :=
  if lt (Registers.programCounter (registers g)) (ofZ (byteLength program))
  then
    match turns with
    | O => None
    | S turns' =>
        match fetchAndRun program g with
        | Val _ g' => whileLoop turns' program g'
        | Throw e g' => Some (Throw e g')
        end
    end
  else Some (Val tt g).

Definition programTooLarge : exn :=
  Error ("Program exceeds " +:+ toLocaleString MAX_PROGRAM_SIZE +:+ " bytes.").

Definition runProgram (turns : nat) (program : DataView) (g : Gsx)
  : option (outcome unit) :=
  if ge (ofZ (byteLength program)) (ofZ MAX_PROGRAM_SIZE)
  then Some (Throw programTooLarge g)
  else whileLoop turns program g.

End Locale.

(** ** renderDataViewAsHex.ts *)

(** [buffer.slice(0, end)] on a buffer of [len] bytes: the number of bytes
    of the copy. A negative [end] counts from the end of the buffer. *)
Definition sliceLength (len : Z) (final : number) : Z :=
  match final with
  | S754_infinity false => len
  | S754_infinity true => 0
  | _ => let relativeEnd := truncZ final in
         if (relativeEnd <? 0)%Z then Z.max (len + relativeEnd) 0
         else Z.min relativeEnd len
  end.

Definition hexDigit (d : Z) : ascii :=
  nth (Z.to_nat d)
    ["0"; "1"; "2"; "3"; "4"; "5"; "6"; "7"; "8"; "9";
     "a"; "b"; "c"; "d"; "e"; "f"]%char "0"%char.

(** [byte.toString(16)] for an element of a [Uint8Array]. *)
Definition toString16 (byte : Z) : string :=
  if (byte <? 16)%Z then String (hexDigit byte) ""
  else String (hexDigit (byte / 16)) (String (hexDigit (byte mod 16)) "").

(** [s.padStart(2, '0')]. *)
Definition padStart2 (s : string) : string :=
  match String.length s with
  | O => "00"
  | S O => "0" +:+ s
  | _ => s
  end.

(** The indices [0 .. n - 1]. *)
Definition indices (n : Z) : list Z := map Z.of_nat (seq 0 (Z.to_nat n)).

(** [maxLengthToRender] is [None] when the argument is omitted; its
    default is 1000. *)
Definition renderDataViewAsHex (dataView : DataView)
    (maxLengthToRender : option number) : string :=
  let final := default (ofZ 1000) maxLengthToRender in
  let bytesToRender :=
    map (byteAt dataView) (indices (sliceLength (byteLength dataView) final)) in
  String.concat " "
    (map (fun byte => padStart2 (toString16 byte)) bytesToRender).

(** A locale to run examples in: en-US, which groups the digits of an
    integer in threes with commas. *)
Fixpoint groupThousands (fuel : nat) (n : Z) : string :=
  match fuel with
  | O => pretty n
  | S fuel' =>
      if (n <? 1000)%Z then pretty n
      else
        let low := n mod 1000 in
        groupThousands fuel' (n / 1000) +:+ ","
          +:+ (if (low <? 10)%Z then "00" else if (low <? 100)%Z then "0" else "")
          +:+ pretty low
  end.

Definition enUS (n : Z) : string := groupThousands 8 n.

(** ** Notions used in the statements *)

(** The position of a general purpose register in [generalPurposeRegisters]. *)
Definition index (register : GeneralPurposeRegisterName) : Z :=
  match register with
  | reg_t => 0
  | reg_r => 1
  | reg_y => 2
  end.

(** The machine after the fetch of the opcode at offset [a]. *)
Definition fetched (a : Z) (g : Gsx) : Gsx :=
  {| registers := Registers.set_programCounter (ofZ (a + 1)) (registers g);
     ram := ram g; argumentStack := argumentStack g; jumpStack := jumpStack g |}.

(** The exceptions a computation can end with. *)
Definition raises {A} (P : exn -> Prop) (m : M A) : Prop :=
  forall g e g', m g = Throw e g' -> P e.

Definition rangeErrorOnly (instruction : Instruction) : Prop :=
  forall program, raises (fun e => e = RangeError) (instruction program).

Definition notAnError (e : exn) : Prop := e = RangeError \/ e = TypeError.

(** A statement of the module keeps a property of the instructions
    defined so far. *)
Definition preserves (P : Instruction -> Prop) (init : Init) : Prop :=
  forall tb, Forall P (instructionByBytecode tb) ->
             Forall P (instructionByBytecode (init tb)).

(** The lines that the assembler reports, and its list of errors. *)
Definition isUnknown (line : string) : bool :=
  let normalizedMnemonic := normalizeMnemonic line in
  negb (String.length normalizedMnemonic =? 0)%nat
  && match lookupKeyable normalizedMnemonic,
           tryToGetBytecodeForConstantAssignment normalizedMnemonic with
     | None, None => true
     | _, _ => false
     end.

Fixpoint errorsOf (toLocaleString : Z -> string) (lineIndex : Z)
    (programLines : list string) : list string :=
  match programLines with
  | [] => []
  | line :: rest =>
      (if isUnknown line then [unknownInstruction toLocaleString line lineIndex]
       else [])
      ++ errorsOf toLocaleString (lineIndex + 1) rest
  end.

(** The binary64 mantissa of a positive integer below 2^53, normalized to
    53 bits. *)
Definition mant53 (n : Z) : positive := Z.to_pos (n * 2 ^ (53 - Zdigits2 n)).

Definition clamp (lo hi n : Z) : Z := Z.max lo (Z.min hi n).

(** A mantissa that is canonical for its exponent, or zero at the least
    exponent: the state of a rounding after its first shift. *)
Definition aligned (prec emax m e : Z) : Prop :=
  0 <= m
  /\ (0 < m -> fexp prec emax (Zdigits2 m + e) = e)
  /\ (m = 0 -> e = emin prec emax).

(** What a register holds after [value] is written to it: each setter
    converts to the register's type. *)
Definition stored (which : RegisterName) (value : number) : number :=
  match which with
  | reg_pc => toUint32 value
  | reg_as | reg_js => toUint8 value
  | gp _ => toFloat32 value
  end.

#[global] Instance GeneralPurposeRegisterName_eq_dec :
  EqDecision GeneralPurposeRegisterName.
Proof. solve_decision. Defined.

#[global] Instance RegisterName_eq_dec : EqDecision RegisterName.
Proof. solve_decision. Defined.

(** The machine with one register written, and with another RAM. *)
Definition withRegister (which : RegisterName) (value : number) (g : Gsx) : Gsx :=
  {| registers := Registers.set which value (registers g);
     ram := ram g; argumentStack := argumentStack g; jumpStack := jumpStack g |}.

Definition withRam (v : DataView) (g : Gsx) : Gsx :=
  {| registers := registers g; ram := v;
     argumentStack := argumentStack g; jumpStack := jumpStack g |}.

(** The machine after a constant load at offset [a] whose immediate has
    [size] bytes. *)
Definition loaded (register : GeneralPurposeRegisterName) (value : number)
    (a size : Z) (g : Gsx) : Gsx :=
  withRegister reg_pc (ofZ (a + 1 + size)) (withRegister register value g).

(** The machine an outcome ends with. *)
Definition machine {A} (o : outcome A) : Gsx :=
  match o with
  | Val _ g => g
  | Throw _ g => g
  end.

(** A computation keeps a property of the machine, however it ends. *)
Definition keeps {A} (I : Gsx -> Prop) (m : M A) : Prop :=
  forall g, I g -> I (machine (m g)).

(** The two stacks are typed arrays of 256 elements; the elements of the
    jump stack are unsigned 32-bit integers. *)
Definition stacksWellFormed (g : Gsx) : Prop :=
  length (argumentStack g) = 256%nat
  /\ length (jumpStack g) = 256%nat
  /\ Forall (fun address => (0 <= address < 2 ^ 32)%Z) (jumpStack g).

Definition keepsStacks (instruction : Instruction) : Prop :=
  forall program, keeps stacksWellFormed (instruction program).

(** The byte at offset [a] is an opcode of the table. *)
Definition hasHandler (program : DataView) (a : Z) : Prop :=
  (0 <= byteAt program a < 178)%Z.

(** An instruction that, when it returns, has moved the counter forward by
    at most four bytes. *)
Definition advances (instruction : Instruction) : Prop :=
  forall program g p,
    Registers.programCounter (registers g) = ofZ p ->
    (0 <= p < 2 ^ 32 - 4)%Z ->
    match instruction program g with
    | Val _ g' =>
        exists k, (0 <= k <= 4)%Z
                  /\ Registers.programCounter (registers g') = ofZ (p + k)
    | Throw _ _ => True
    end.

(** The opcodes other than [exit] (6) and [run] (7, 8, 9). *)
Definition isStraightLine (byte : Z) : Prop :=
  (0 <= byte <= 5 \/ 10 <= byte < 178)%Z.

(** A text of ASCII characters. *)
Fixpoint isAscii (s : string) : bool :=
  match s with
  | EmptyString => true
  | String c s' => (code c <? 128)%Z && isAscii s'
  end.

(** A text without line terminators. *)
Fixpoint noLineTerminator (s : string) : bool :=
  match s with
  | EmptyString => true
  | String c s' => negb (isLineTerminator c) && noLineTerminator s'
  end.

(** The arithmetic mnemonics [new X = A op B]. *)
Inductive Operator := Plus | Times | Minus | Over.

Definition sign (operator : Operator) : string :=
  match operator with
  | Plus => "+"
  | Times => "*"
  | Minus => "-"
  | Over => "/"
  end.

Definition operation (operator : Operator) : number -> number -> number :=
  match operator with
  | Plus => add
  | Times => mul
  | Minus => sub
  | Over => div
  end.

Definition isCommutative (operator : Operator) : bool :=
  match operator with
  | Plus | Times => true
  | Minus | Over => false
  end.

Definition arithmeticLine (operator : Operator)
    (register a b : GeneralPurposeRegisterName) : string :=
  assign (letter register)
    (letter a +:+ " " +:+ sign operator +:+ " " +:+ letter b).

(** The dictionary maps the line to an opcode, and the table maps that
    opcode to the instruction. *)
Definition assemblesTo (line : string) (instruction : Instruction) : Prop :=
  exists opcode,
    bytecodeByKeyableMnemonic tables !! normalizeMnemonic line = Some opcode
    /\ instructionByBytecode tables !! Z.to_nat opcode = Some instruction.

(** Reading a rendering in hexadecimal back: two digits, then a
    separator. *)
Definition hexValue (c : ascii) : Z :=
  let n := code c in
  if ((48 <=? n) && (n <=? 57))%Z then n - 48
  else if ((97 <=? n) && (n <=? 102))%Z then n - 87
  else 0.

Fixpoint parseHex (s : string) : list Z :=
  match s with
  | String high (String low rest) =>
      (16 * hexValue high + hexValue low)%Z
      :: match rest with
         | String _ rest' => parseHex rest'
         | EmptyString => []
         end
  | _ => []
  end.

(** ** Machines and programs of the examples *)

Definition exitProgram : DataView := DataView.ofBytes [6].

Definition afterExit : Gsx :=
  {| registers := Registers.set_programCounter UINT32_MAX
                    (registers (fetched 0 Gsx_new));
     ram := ram Gsx_new; argumentStack := argumentStack Gsx_new;
     jumpStack := jumpStack Gsx_new |}.

Definition withStackPointer (n : Z) (g : Gsx) : Gsx :=
  {| registers := Registers.set_argumentStackPointer (ofZ n) (registers g);
     ram := ram g; argumentStack := argumentStack g; jumpStack := jumpStack g |}.

Definition withT (value : number) (g : Gsx) : Gsx :=
  {| registers := Registers.set_t value (registers g);
     ram := ram g; argumentStack := argumentStack g; jumpStack := jumpStack g |}.

(** * Properties *)

Local Close Scope string_scope.
Local Open Scope Z_scope.

(** ** Binary rounding

    Facts about [SpecFloat]'s rounding that the claims rest on: the result
    of [binary_round] is always a valid float of the format, and a value
    that the format represents is rounded to itself. *)

Module Rounding.

Local Open Scope Z_scope.

Lemma digits2_pos_size (p : positive) : digits2_pos p = Pos.size p.
Proof. induction p; simpl; congruence. Qed.

Lemma Zdigits2_log2 (m : Z) : 0 < m -> Zdigits2 m = Z.log2 m + 1.
Proof.
destruct m as [|p|p]; try lia. intros _. simpl.
rewrite digits2_pos_size. destruct p; simpl; lia.
Qed.

Lemma Zdigits2_bounds (m : Z) :
0 < m -> 2 ^ (Zdigits2 m - 1) <= m < 2 ^ Zdigits2 m.
Proof.
intros H. rewrite Zdigits2_log2 by assumption.
replace (Z.log2 m + 1 - 1) with (Z.log2 m) by lia.
replace (Z.log2 m + 1) with (Z.succ (Z.log2 m)) by lia.
apply Z.log2_spec. assumption.
Qed.

Lemma Zdigits2_pos (m : Z) : 0 < m -> 0 < Zdigits2 m.
Proof. intros H. rewrite Zdigits2_log2 by assumption. pose proof (Z.log2_nonneg m). lia. Qed.

Lemma Zdigits2_shiftr (m n : Z) :
0 < m -> 0 <= n < Zdigits2 m ->
0 < Z.shiftr m n /\ Zdigits2 (Z.shiftr m n) = Zdigits2 m - n.
Proof.
intros Hm Hn. rewrite (Zdigits2_log2 m) in * by assumption.
assert (Hpos : 0 < Z.shiftr m n).
{ rewrite Z.shiftr_div_pow2 by lia.
  apply Z.div_str_pos. split; [apply Z.pow_pos_nonneg; lia|].
  transitivity (2 ^ Z.log2 m).
  - apply Z.pow_le_mono_r; lia.
  - apply Z.log2_spec; assumption. }
split; [assumption|].
rewrite Zdigits2_log2 by assumption.
rewrite Z.log2_shiftr by assumption. lia.
Qed.

Lemma Zdigits2_shiftr_zero (m n : Z) :
0 <= m -> Zdigits2 m <= n -> Z.shiftr m n = 0.
Proof.
intros Hm Hn.
destruct (Z.eq_dec m 0) as [->|Hne]; [apply Z.shiftr_0_l|].
assert (0 < m) by lia.
pose proof (Zdigits2_pos m H).
rewrite Z.shiftr_div_pow2 by lia.
apply Z.div_small. split; [lia|].
apply Z.lt_le_trans with (2 ^ Zdigits2 m).
- apply Zdigits2_bounds; assumption.
- apply Z.pow_le_mono_r; lia.
Qed.

Lemma Zdigits2_shiftl (m n : Z) :
0 < m -> 0 <= n -> Zdigits2 (Z.shiftl m n) = Zdigits2 m + n.
Proof.
intros Hm Hn.
assert (0 < Z.shiftl m n).
{ rewrite Z.shiftl_mul_pow2 by assumption.
  apply Z.mul_pos_pos; [assumption|apply Z.pow_pos_nonneg; lia]. }
rewrite !Zdigits2_log2 by assumption.
rewrite Z.log2_shiftl by assumption. lia.
Qed.

Lemma Zdigits2_succ (m : Z) :
0 < m -> Zdigits2 m <= Zdigits2 (m + 1) <= Zdigits2 m + 1.
Proof.
intros Hm. rewrite !Zdigits2_log2 by lia.
replace (m + 1) with (Z.succ m) by lia.
destruct (Z.log2_succ_or m) as [->| ->]; lia.
Qed.

(** Iterations *)
Lemma iter_pos_nat {A} (f : A -> A) (p : positive) (x : A) :
SpecFloat.iter_pos f p x = Nat.iter (Pos.to_nat p) f x.
Proof.
revert x. induction p as [p IH|p IH|]; intros x; cbn [SpecFloat.iter_pos].
- rewrite !IH. rewrite Pos2Nat.inj_xI.
  replace (S (2 * Pos.to_nat p))%nat
    with (Pos.to_nat p + (Pos.to_nat p + 1))%nat by lia.
  rewrite !Nat.iter_add. reflexivity.
- rewrite !IH. rewrite Pos2Nat.inj_xO.
  replace (2 * Pos.to_nat p)%nat with (Pos.to_nat p + Pos.to_nat p)%nat by lia.
  rewrite Nat.iter_add. reflexivity.
- reflexivity.
Qed.

Lemma shr_1_m (mrs : shr_record) :
0 <= shr_m mrs -> shr_m (shr_1 mrs) = Z.div2 (shr_m mrs).
Proof.
destruct mrs as [m r s]. simpl. intros H.
destruct m as [|p|p]; [reflexivity| |lia].
destruct p; reflexivity.
Qed.

Lemma shr_iter_m (n : nat) (mrs : shr_record) :
0 <= shr_m mrs ->
shr_m (Nat.iter n shr_1 mrs) = Z.shiftr (shr_m mrs) (Z.of_nat n).
Proof.
intros H. induction n as [|n IH].
- simpl. rewrite Z.shiftr_0_r. reflexivity.
- rewrite Nat2Z.inj_succ. simpl.
  assert (0 <= shr_m (Nat.iter n shr_1 mrs)).
  { rewrite IH. apply Z.shiftr_nonneg. assumption. }
  rewrite shr_1_m by assumption. rewrite IH.
  rewrite Z.div2_spec. rewrite Z.shiftr_shiftr by lia. f_equal; lia.
Qed.

Lemma shr_spec (mrs : shr_record) (e n : Z) :
0 <= shr_m mrs -> 0 <= n ->
shr_m (fst (shr mrs e n)) = Z.shiftr (shr_m mrs) n /\ snd (shr mrs e n) = e + n.
Proof.
intros Hm Hn. unfold shr. destruct n as [|p|p]; simpl.
- split; [reflexivity|lia].
- rewrite iter_pos_nat. rewrite shr_iter_m by assumption.
  rewrite positive_nat_Z. split; reflexivity.
- lia.
Qed.

Lemma shr_record_of_loc_m (m : Z) (l : location) : shr_m (shr_record_of_loc m l) = m.
Proof. destruct l as [|[]]; reflexivity. Qed.

Lemma round_nearest_even_bounds (m : Z) (l : location) :
m <= round_nearest_even m l <= m + 1.
Proof.
unfold round_nearest_even. destruct l as [|[]]; try lia.
destruct (Z.even m); lia.
Qed.

Section Validity.
Variables prec emax : Z.
Hypothesis Hprec : 0 < prec.

Local Abbreviation fexp := (fexp prec emax).
Local Abbreviation emin := (emin prec emax).

Lemma shr_fexp_spec (m e : Z) (l : location) :
  0 <= m -> e <= fexp (Zdigits2 m + e) ->
  shr_m (fst (shr_fexp prec emax m e l))
    = Z.shiftr m (fexp (Zdigits2 m + e) - e)
  /\ snd (shr_fexp prec emax m e l) = fexp (Zdigits2 m + e).
Proof.
  intros Hm He. unfold shr_fexp.
  destruct (shr_spec (shr_record_of_loc m l) e (fexp (Zdigits2 m + e) - e))
    as [H1 H2]; [rewrite shr_record_of_loc_m; assumption|lia|].
  rewrite H1, H2, shr_record_of_loc_m. split; [reflexivity|lia].
Qed.

Lemma shr_fexp_aligned (m e : Z) (l : location) :
  0 < m -> e <= fexp (Zdigits2 m + e) ->
  aligned prec emax (shr_m (fst (shr_fexp prec emax m e l)))
          (snd (shr_fexp prec emax m e l)).
Proof.
  intros Hm He.
  destruct (shr_fexp_spec m e l) as [H1 H2]; [lia|assumption|].
  rewrite H1, H2. clear H1 H2.
  pose proof (Zdigits2_pos m Hm) as Hd.
  set (n := fexp (Zdigits2 m + e) - e).
  assert (Hn : 0 <= n) by (unfold n; lia).
  destruct (Z_lt_le_dec n (Zdigits2 m)) as [Hlt|Hge].
  - destruct (Zdigits2_shiftr m n Hm) as [Hpos Hdig]; [lia|].
    repeat split; [lia| |lia].
    intros _. rewrite Hdig. f_equal. unfold n.
    unfold SpecFloat.fexp in *. lia.
  - rewrite (Zdigits2_shiftr_zero m n) by lia.
    repeat split; [lia|lia|].
    intros _. unfold n, SpecFloat.fexp in *. lia.
Qed.

Lemma shr_fexp_canonical (m1 m2 e1 : Z) :
  aligned prec emax m1 e1 -> m1 <= m2 <= m1 + 1 ->
  match shr_m (fst (shr_fexp prec emax m2 e1 loc_Exact)) with
  | Z0 => True
  | Zpos m => canonical_mantissa prec emax m
                (snd (shr_fexp prec emax m2 e1 loc_Exact)) = true
  | Zneg _ => False
  end.
Proof.
  intros (Hm1 & Hpos & Hzero) Hm2.
  destruct (Z.eq_dec m2 0) as [->|Hne].
  - assert (m1 = 0) by lia. subst m1. specialize (Hzero eq_refl).
    destruct (shr_fexp_spec 0 e1 loc_Exact) as [H1 _]; [lia| |].
    + change (Zdigits2 0) with 0.
      unfold SpecFloat.fexp, SpecFloat.emin in *. lia.
    + rewrite H1, Z.shiftr_0_l. exact I.
  - assert (Hm2pos : 0 < m2) by lia.
    pose proof (Zdigits2_pos m2 Hm2pos) as Hd2.
    assert (Hn : e1 <= fexp (Zdigits2 m2 + e1) <= e1 + 1
                 /\ (fexp (Zdigits2 m2 + e1) = e1 + 1 -> 2 <= Zdigits2 m2)).
    { destruct (Z.eq_dec m1 0) as [->|Hne1].
      - assert (m2 = 1) by lia. subst m2. specialize (Hzero eq_refl).
        change (Zdigits2 1) with 1 in *.
        unfold SpecFloat.fexp, SpecFloat.emin in *. lia.
      - assert (H1 : 0 < m1) by lia. specialize (Hpos H1).
        pose proof (Zdigits2_pos m1 H1).
        assert (Zdigits2 m1 <= Zdigits2 m2 <= Zdigits2 m1 + 1).
        { destruct (Z.eq_dec m2 m1) as [->|]; [lia|].
          replace m2 with (m1 + 1) by lia. apply Zdigits2_succ. assumption. }
        unfold SpecFloat.fexp in *. lia. }
    destruct (shr_fexp_spec m2 e1 loc_Exact) as [H1 H2]; [lia|lia|].
    rewrite H1, H2.
    destruct (Zdigits2_shiftr m2 (fexp (Zdigits2 m2 + e1) - e1) Hm2pos)
      as [Hpos' Hdig]; [lia|].
    destruct (Z.shiftr m2 (fexp (Zdigits2 m2 + e1) - e1)) as [|m|m] eqn:E;
      try lia.
    unfold canonical_mantissa. apply Z.eqb_eq.
    change (Z.pos (digits2_pos m)) with (Zdigits2 (Z.pos m)).
    rewrite Hdig. f_equal. lia.
Qed.

Theorem binary_round_aux_valid (s : bool) (mx ex : Z) (lx : location) :
  0 < mx -> ex <= fexp (Zdigits2 mx + ex) ->
  valid_binary prec emax (binary_round_aux prec emax s mx ex lx) = true.
Proof.
  intros Hm He. unfold binary_round_aux.
  pose proof (shr_fexp_aligned mx ex lx Hm He) as Hal.
  destruct (shr_fexp prec emax mx ex lx) as [mrs' e'].
  cbn [fst snd] in Hal.
  pose proof (shr_fexp_canonical (shr_m mrs') 
    (round_nearest_even (shr_m mrs') (loc_of_shr_record mrs')) e' Hal
    (round_nearest_even_bounds _ _)) as Hcan.
  destruct (shr_fexp prec emax _ e' loc_Exact) as [mrs'' e''].
  cbn [fst snd] in Hcan.
  destruct (shr_m mrs'') as [|m|m]; try reflexivity.
  destruct (e'' <=? emax - prec) eqn:Hle; [|reflexivity].
  simpl. unfold bounded. rewrite Hcan, Hle. reflexivity.
Qed.

Lemma shl_align_spec (mx : positive) (ex ex' : Z) :
  let '(mz, ez) := shl_align mx ex ex' in
  Z.pos mz = Z.shiftl (Z.pos mx) (ex - ez) /\ ez = Z.min ex ex'.
Proof.
  unfold shl_align. destruct (ex' - ex) as [|d|d] eqn:E.
  - rewrite Z.sub_diag. split; [reflexivity|lia].
  - rewrite Z.sub_diag. split; [reflexivity|lia].
  - split; [|lia].
    replace (ex - ex') with (Z.pos d) by lia.
    rewrite Z.shiftl_mul_pow2 by lia.
    rewrite Pos.iter_swap_gen with (f := Z.pos) (h := Z.mul 2)
      by reflexivity.
    change (Pos.iter (Z.mul 2) (Z.pos mx) d) with (Z.shiftl (Z.pos mx) (Z.pos d)).
    rewrite Z.shiftl_mul_pow2 by lia. reflexivity.
Qed.

Theorem binary_round_valid (s : bool) (m : positive) (e : Z) :
  valid_binary prec emax (binary_round prec emax s m e) = true.
Proof.
  unfold binary_round.
  pose proof (shl_align_spec m e (fexp (Z.pos (digits2_pos m) + e))) as Hs.
  destruct (shl_align m e _) as [mz ez]. destruct Hs as [Hmz Hez].
  apply binary_round_aux_valid; [lia|].
  rewrite Hmz. rewrite Zdigits2_shiftl by lia.
  change (Zdigits2 (Z.pos m)) with (Z.pos (digits2_pos m)).
  replace (Z.pos (digits2_pos m) + (e - ez) + ez)
    with (Z.pos (digits2_pos m) + e) by lia.
  lia.
Qed.

End Validity.

Lemma shr_1_even (k : Z) :
0 <= k ->
shr_1 {| shr_m := 2 * k; shr_r := false; shr_s := false |}
= {| shr_m := k; shr_r := false; shr_s := false |}.
Proof. destruct k as [|p|p]; [reflexivity|reflexivity|lia]. Qed.

Lemma shr_iter_exact (n : nat) (m : Z) :
0 <= m ->
Nat.iter n shr_1 {| shr_m := m * 2 ^ Z.of_nat n; shr_r := false; shr_s := false |}
= {| shr_m := m; shr_r := false; shr_s := false |}.
Proof.
revert m. induction n as [|n IH]; intros m Hm.
- simpl. rewrite Z.mul_1_r. reflexivity.
- rewrite Nat2Z.inj_succ, Z.pow_succ_r by lia.
  rewrite Nat.iter_succ.
  replace (m * (2 * 2 ^ Z.of_nat n)) with ((2 * m) * 2 ^ Z.of_nat n) by lia.
  rewrite IH by lia. apply shr_1_even. assumption.
Qed.

Lemma shr_exact (m e n : Z) :
0 <= m -> 0 <= n ->
shr {| shr_m := Z.shiftl m n; shr_r := false; shr_s := false |} e n
= ({| shr_m := m; shr_r := false; shr_s := false |}, e + n).
Proof.
intros Hm Hn. unfold shr. destruct n as [|p|p]; [| |lia].
- rewrite Z.shiftl_0_r, Z.add_0_r. reflexivity.
- rewrite iter_pos_nat, Z.shiftl_mul_pow2 by lia.
  rewrite <- (positive_nat_Z p) at 1.
  rewrite shr_iter_exact by assumption. reflexivity.
Qed.

Section Exact.
Variables prec emax : Z.

Local Abbreviation fexp := (fexp prec emax).

Lemma binary_round_aux_trailing (s : bool) (m : positive) (e n : Z) :
  0 <= n ->
  bounded prec emax m (e + n) = true ->
  binary_round_aux prec emax s (Z.shiftl (Z.pos m) n) e loc_Exact
  = S754_finite s m (e + n).
Proof.
  intros Hn Hb. unfold bounded, canonical_mantissa in Hb.
  apply andb_prop in Hb. destruct Hb as [Hc Hle].
  apply Z.eqb_eq in Hc.
  change (Z.pos (digits2_pos m)) with (Zdigits2 (Z.pos m)) in Hc.
  unfold binary_round_aux, shr_fexp.
  rewrite Zdigits2_shiftl by lia.
  replace (Zdigits2 (Z.pos m) + n + e) with (Zdigits2 (Z.pos m) + (e + n)) by lia.
  rewrite Hc. replace (e + n - e) with n by lia.
  cbn [shr_record_of_loc].
  rewrite shr_exact by lia.
  cbn [shr_m loc_of_shr_record round_nearest_even shr_record_of_loc].
  rewrite Hc, Z.sub_diag. cbn [shr shr_m].
  rewrite Hle. reflexivity.
Qed.

(** Rounding a value that has a bounded canonical form gives that form. *)
Theorem binary_round_exact (s : bool) (M m : positive) (E e : Z) :
  bounded prec emax m e = true ->
  (E <= e /\ Z.pos M = Z.pos m * 2 ^ (e - E))
  \/ (e <= E /\ Z.pos m = Z.pos M * 2 ^ (E - e)) ->
  binary_round prec emax s M E = S754_finite s m e.
Proof.
  intros Hb Hval.
  assert (Hc : fexp (Zdigits2 (Z.pos m) + e) = e).
  { unfold bounded, canonical_mantissa in Hb.
    apply andb_prop in Hb. destruct Hb as [Hc _].
    apply Z.eqb_eq in Hc. exact Hc. }
  assert (Hd : Zdigits2 (Z.pos M) + E = Zdigits2 (Z.pos m) + e).
  { destruct Hval as [[Hle HM]|[Hle Hm]].
    - rewrite HM, <- Z.shiftl_mul_pow2 by lia.
      rewrite Zdigits2_shiftl by lia. lia.
    - rewrite Hm, <- Z.shiftl_mul_pow2 by lia.
      rewrite Zdigits2_shiftl by lia. lia. }
  unfold binary_round.
  change (Z.pos (digits2_pos M)) with (Zdigits2 (Z.pos M)).
  rewrite Hd, Hc.
  pose proof (shl_align_spec M E e) as Hs.
  destruct (shl_align M E e) as [mz ez]. destruct Hs as [Hmz Hez].
  destruct Hval as [[Hle HM]|[Hle Hm]].
  - subst ez. rewrite Hmz. rewrite Z.min_l by lia.
    rewrite Z.sub_diag, Z.shiftl_0_r, HM.
    rewrite <- Z.shiftl_mul_pow2 by lia.
    rewrite binary_round_aux_trailing.
    + f_equal. lia.
    + lia.
    + replace (E + (e - E)) with e by lia. assumption.
  - subst ez. rewrite Hmz. rewrite Z.min_r by lia.
    rewrite Z.shiftl_mul_pow2, <- Hm by lia.
    rewrite <- (Z.shiftl_0_r (Z.pos m)).
    rewrite binary_round_aux_trailing.
    + f_equal. lia.
    + lia.
    + rewrite Z.add_0_r. assumption.
Qed.

End Exact.

End Rounding.

Import Rounding.

(** ** The integers among the numbers *)

Module Integers.

Local Open Scope Z_scope.

Lemma Zdigits2_le (m k : Z) : 0 < m -> m < 2 ^ k -> 0 <= k -> Zdigits2 m <= k.
Proof.
intros Hm Hk Hk0. pose proof (Zdigits2_bounds m Hm) as [Hlo _].
destruct (Z_le_gt_dec (Zdigits2 m) k) as [|Hgt]; [assumption|exfalso].
assert (2 ^ k <= 2 ^ (Zdigits2 m - 1)) by (apply Z.pow_le_mono_r; lia).
lia.
Qed.

(** The canonical binary64 form of a positive integer below 2^53. *)
Lemma bounded53_int (n : Z) :
0 < n < 2 ^ 53 ->
0 < n * 2 ^ (53 - Zdigits2 n)
/\ bounded 53 1024 (Z.to_pos (n * 2 ^ (53 - Zdigits2 n))) (Zdigits2 n - 53) = true.
Proof.
intros [Hpos Hlt].
pose proof (Zdigits2_pos n Hpos) as Hd.
pose proof (Zdigits2_le n 53 Hpos Hlt) as Hd53.
assert (Hp : 0 < n * 2 ^ (53 - Zdigits2 n)).
{ apply Z.mul_pos_pos; [assumption|apply Z.pow_pos_nonneg; lia]. }
split; [assumption|].
unfold bounded, canonical_mantissa. apply andb_true_intro. split.
- apply Z.eqb_eq.
  change (Z.pos (digits2_pos ?p)) with (Zdigits2 (Z.pos p)).
  rewrite Z2Pos.id by assumption.
  rewrite <- Z.shiftl_mul_pow2 by lia.
  rewrite Zdigits2_shiftl by lia.
  unfold fexp, emin. lia.
- apply Z.leb_le. lia.
Qed.

Lemma ofZ_pos (n : Z) :
0 < n < 2 ^ 53 ->
ofZ n = S754_finite false (Z.to_pos (n * 2 ^ (53 - Zdigits2 n))) (Zdigits2 n - 53).
Proof.
intros Hn. destruct (bounded53_int n Hn) as [Hp Hb].
pose proof (Zdigits2_pos n ltac:(lia)) as Hd.
pose proof (Zdigits2_le n 53 ltac:(lia) ltac:(lia)) as Hd53.
destruct n as [|p|p]; try lia.
unfold ofZ, binary_normalize.
apply binary_round_exact; [assumption|].
right. split; [lia|].
rewrite Z2Pos.id by assumption. f_equal. f_equal. lia.
Qed.


Lemma ofZ_neg (n : Z) :
0 < n < 2 ^ 53 ->
ofZ (- n) = S754_finite true (Z.to_pos (n * 2 ^ (53 - Zdigits2 n))) (Zdigits2 n - 53).
Proof.
intros Hn. destruct (bounded53_int n Hn) as [Hp Hb].
pose proof (Zdigits2_pos n ltac:(lia)) as Hd.
pose proof (Zdigits2_le n 53 ltac:(lia) ltac:(lia)) as Hd53.
destruct n as [|p|p]; try lia.
unfold ofZ, binary_normalize. cbn [Z.opp].
apply binary_round_exact; [assumption|].
right. split; [lia|].
rewrite Z2Pos.id by assumption. f_equal. f_equal. lia.
Qed.

(** The integer a number stands for, when it is one of the integers below
  2^53 in magnitude. *)
Lemma truncZ_ofZ (n : Z) : - 2 ^ 53 < n < 2 ^ 53 -> truncZ (ofZ n) = n.
Proof.
intros Hn.
assert (Hcase : forall k, 0 < k < 2 ^ 53 ->
          Z.shiftl (Z.pos (Z.to_pos (k * 2 ^ (53 - Zdigits2 k)))) (Zdigits2 k - 53) = k).
{ intros k Hk. destruct (bounded53_int k Hk) as [Hp _].
  pose proof (Zdigits2_le k 53 ltac:(lia) ltac:(lia)) as Hd53.
  rewrite Z2Pos.id by assumption.
  rewrite <- Z.shiftl_mul_pow2 by lia.
  rewrite Z.shiftl_shiftl by lia.
  replace (53 - Zdigits2 k + (Zdigits2 k - 53)) with 0 by lia.
  apply Z.shiftl_0_r. }
destruct (Z.lt_trichotomy n 0) as [Hneg|[->|Hpos]].
- replace n with (- (- n)) by lia. rewrite ofZ_neg by lia.
  unfold truncZ, cond_Zopp. rewrite Hcase by lia. lia.
- reflexivity.
- rewrite ofZ_pos by lia. unfold truncZ, cond_Zopp. apply Hcase. lia.
Qed.

Lemma ToIndex_ofZ (n : Z) : 0 <= n < 2 ^ 53 -> ToIndex (ofZ n) = Some n.
Proof.
intros Hn. unfold ToIndex.
assert (Hne : forall s, ofZ n <> S754_infinity s).
{ intros s. destruct (Z.eq_dec n 0) as [->|]; [discriminate|].
  rewrite ofZ_pos by lia. discriminate. }
rewrite truncZ_ofZ by lia.
destruct (ofZ n) eqn:E; try (exfalso; eapply Hne; reflexivity).
all: replace ((n <? 0) || (2 ^ 53 - 1 <? n)) with false; [reflexivity|].
all: symmetry; apply orb_false_iff; split; apply Z.ltb_ge; lia.
Qed.

Lemma integerIndex_ofZ (n : Z) : 0 <= n < 2 ^ 53 -> integerIndex (ofZ n) = Some n.
Proof.
intros Hn. destruct (Z.eq_dec n 0) as [->|Hne]; [reflexivity|].
rewrite ofZ_pos by lia. unfold integerIndex.
destruct (bounded53_int n ltac:(lia)) as [Hp _].
pose proof (Zdigits2_le n 53 ltac:(lia) ltac:(lia)) as Hd53.
rewrite Z2Pos.id by assumption.
destruct (0 <=? Zdigits2 n - 53) eqn:E.
- apply Z.leb_le in E. assert (Zdigits2 n = 53) as -> by lia.
  rewrite !Z.sub_diag, Z.pow_0_r, Z.mul_1_r, Z.shiftl_0_r. reflexivity.
- apply Z.leb_gt in E.
  replace (- (Zdigits2 n - 53)) with (53 - Zdigits2 n) by lia.
  rewrite Z.land_ones by lia.
  rewrite Z.mod_mul by (apply Z.pow_nonzero; lia).
  simpl. f_equal.
  rewrite Z.shiftr_div_pow2 by lia.
  apply Z.div_mul. apply Z.pow_nonzero; lia.
Qed.

Lemma compare_canonical_pos (a b : Z) :
0 < a < 2 ^ 53 -> 0 < b < 2 ^ 53 ->
match Zdigits2 a - 53 ?= Zdigits2 b - 53 with
| Lt => Lt
| Gt => Gt
| Eq => Pos.compare_cont Eq (mant53 a) (mant53 b)
end = (a ?= b).
Proof.
intros Ha Hb. unfold mant53.
destruct (bounded53_int a Ha) as [Hpa _].
destruct (bounded53_int b Hb) as [Hpb _].
pose proof (Zdigits2_bounds a ltac:(lia)) as Hba.
pose proof (Zdigits2_bounds b ltac:(lia)) as Hbb.
pose proof (Zdigits2_le a 53 ltac:(lia) ltac:(lia)) as Hda.
pose proof (Zdigits2_le b 53 ltac:(lia) ltac:(lia)) as Hdb.
destruct (Z.compare_spec (Zdigits2 a - 53) (Zdigits2 b - 53)) as [He|He|He].
- change (Pos.compare_cont Eq ?p ?q) with (Z.pos p ?= Z.pos q).
  rewrite !Z2Pos.id by assumption.
  replace (Zdigits2 a) with (Zdigits2 b) by lia.
  symmetry. apply Zmult_compare_compat_r.
  apply Z.lt_gt. apply Z.pow_pos_nonneg; lia.
- symmetry. apply Z.compare_lt_iff.
  assert (2 ^ Zdigits2 a <= 2 ^ (Zdigits2 b - 1)) by (apply Z.pow_le_mono_r; lia).
  lia.
- symmetry. apply Z.compare_gt_iff.
  assert (2 ^ Zdigits2 b <= 2 ^ (Zdigits2 a - 1)) by (apply Z.pow_le_mono_r; lia).
  lia.
Qed.

Lemma SFcompare_ofZ (a b : Z) :
- 2 ^ 53 < a < 2 ^ 53 -> - 2 ^ 53 < b < 2 ^ 53 ->
SFcompare (ofZ a) (ofZ b) = Some (a ?= b).
Proof.
intros Ha Hb.
destruct (Z.lt_trichotomy a 0) as [Ha0|[->|Ha0]];
  destruct (Z.lt_trichotomy b 0) as [Hb0|[->|Hb0]].
- replace a with (- (- a)) at 1 by lia. replace b with (- (- b)) at 1 by lia.
  rewrite !ofZ_neg by lia. cbn [SFcompare]. f_equal.
  pose proof (compare_canonical_pos (- a) (- b) ltac:(lia) ltac:(lia)) as H.
  unfold mant53 in H.
  replace (a ?= b) with (CompOpp (- a ?= - b)).
  + rewrite <- H. destruct (Zdigits2 (- a) - 53 ?= Zdigits2 (- b) - 53); reflexivity.
  + rewrite Z.compare_opp. symmetry. apply Z.compare_antisym.
- replace a with (- (- a)) at 1 by lia. rewrite ofZ_neg by lia.
  change (ofZ 0) with (S754_zero false).
  cbn [SFcompare]. f_equal. symmetry. apply Z.compare_lt_iff. assumption.
- replace a with (- (- a)) at 1 by lia.
  rewrite (ofZ_neg (- a)), (ofZ_pos b) by lia.
  cbn [SFcompare]. f_equal. symmetry. apply Z.compare_lt_iff. lia.
- replace b with (- (- b)) at 1 by lia. rewrite ofZ_neg by lia.
  change (ofZ 0) with (S754_zero false).
  cbn [SFcompare]. f_equal. symmetry. apply Z.compare_gt_iff. assumption.
- reflexivity.
- rewrite (ofZ_pos b) by lia. change (ofZ 0) with (S754_zero false).
  cbn [SFcompare]. f_equal. symmetry.
  apply Z.compare_lt_iff. assumption.
- replace b with (- (- b)) at 1 by lia.
  rewrite (ofZ_neg (- b)), (ofZ_pos a) by lia.
  cbn [SFcompare]. f_equal. symmetry. apply Z.compare_gt_iff. lia.
- rewrite (ofZ_pos a) by lia. change (ofZ 0) with (S754_zero false).
  cbn [SFcompare]. f_equal. symmetry.
  apply Z.compare_gt_iff. assumption.
- rewrite !ofZ_pos by lia. cbn [SFcompare]. f_equal.
  apply compare_canonical_pos; lia.
Qed.

Lemma lt_ofZ (a b : Z) :
- 2 ^ 53 < a < 2 ^ 53 -> - 2 ^ 53 < b < 2 ^ 53 -> lt (ofZ a) (ofZ b) = (a <? b).
Proof.
intros Ha Hb. unfold lt, SFltb, Z.ltb. rewrite SFcompare_ofZ by assumption.
reflexivity.
Qed.

Lemma gt_ofZ (a b : Z) :
- 2 ^ 53 < a < 2 ^ 53 -> - 2 ^ 53 < b < 2 ^ 53 -> gt (ofZ a) (ofZ b) = (b <? a).
Proof. intros Ha Hb. unfold gt. apply (lt_ofZ b a); assumption. Qed.

Lemma le_ofZ (a b : Z) :
- 2 ^ 53 < a < 2 ^ 53 -> - 2 ^ 53 < b < 2 ^ 53 -> le (ofZ a) (ofZ b) = (a <=? b).
Proof.
intros Ha Hb. unfold le, SFleb, Z.leb. rewrite SFcompare_ofZ by assumption.
destruct (a ?= b); reflexivity.
Qed.

Lemma ge_ofZ (a b : Z) :
- 2 ^ 53 < a < 2 ^ 53 -> - 2 ^ 53 < b < 2 ^ 53 -> ge (ofZ a) (ofZ b) = (b <=? a).
Proof. intros Ha Hb. unfold ge. apply (le_ofZ b a); assumption. Qed.


Lemma strict_eq_ofZ (a b : Z) :
- 2 ^ 53 < a < 2 ^ 53 -> - 2 ^ 53 < b < 2 ^ 53 ->
strict_eq (ofZ a) (ofZ b) = (a =? b).
Proof.
intros Ha Hb. unfold strict_eq, SFeqb. rewrite SFcompare_ofZ by assumption.
destruct (Z.compare_spec a b) as [->| |]; symmetry.
- apply Z.eqb_refl.
- apply Z.eqb_neq. lia.
- apply Z.eqb_neq. lia.
Qed.

(** Scaling an integer by a power of two before normalizing changes
  nothing. *)
Lemma binary_normalize_scaled (n k : Z) :
0 <= k -> - 2 ^ 53 < n < 2 ^ 53 ->
binary_normalize 53 1024 (n * 2 ^ k) (- k) false = ofZ n.
Proof.
intros Hk Hn.
assert (Hpow : 0 < 2 ^ k) by (apply Z.pow_pos_nonneg; lia).
assert (Hcase : forall s m p, 0 < m < 2 ^ 53 -> Z.pos p = m * 2 ^ k ->
          binary_round 53 1024 s p (- k)
          = S754_finite s (mant53 m) (Zdigits2 m - 53)).
{ intros s m p Hm Hp. destruct (bounded53_int m Hm) as [Hpm Hb].
  pose proof (Zdigits2_le m 53 ltac:(lia) ltac:(lia)) as Hd53.
  apply binary_round_exact; [exact Hb|].
  unfold mant53. rewrite Z2Pos.id by assumption. rewrite Hp.
  destruct (Z_le_gt_dec (- k) (Zdigits2 m - 53)) as [Hle|Hgt].
  - left. split; [assumption|].
    rewrite <- Z.mul_assoc, <- Z.pow_add_r by lia. f_equal. f_equal. lia.
  - right. split; [lia|].
    rewrite <- Z.mul_assoc, <- Z.pow_add_r by lia. f_equal. f_equal. lia. }
destruct (Z.lt_trichotomy n 0) as [Hneg|[->|Hpos]].
- destruct (n * 2 ^ k) as [|p|p] eqn:E; try nia.
  replace n with (- (- n)) by lia. rewrite ofZ_neg by lia.
  cbn [binary_normalize]. apply Hcase; lia.
- reflexivity.
- destruct (n * 2 ^ k) as [|p|p] eqn:E; try nia.
  rewrite ofZ_pos by lia. cbn [binary_normalize]. apply Hcase; lia.
Qed.

Lemma ofZ_nonzero (n : Z) :
n <> 0 -> - 2 ^ 53 < n < 2 ^ 53 ->
exists m e, ofZ n = S754_finite (n <? 0) m e
            /\ e <= 0 /\ Z.pos m = Z.abs n * 2 ^ (- e).
Proof.
intros Hne Hn.
assert (Hcase : forall k, 0 < k < 2 ^ 53 ->
          Zdigits2 k - 53 <= 0
          /\ Z.pos (Z.to_pos (k * 2 ^ (53 - Zdigits2 k)))
             = k * 2 ^ (- (Zdigits2 k - 53))).
{ intros k Hk. destruct (bounded53_int k Hk) as [Hp _].
  pose proof (Zdigits2_le k 53 ltac:(lia) ltac:(lia)).
  split; [lia|]. rewrite Z2Pos.id by assumption. f_equal. f_equal. lia. }
destruct (Z.ltb_spec n 0) as [Hneg|Hpos].
- exists (Z.to_pos (- n * 2 ^ (53 - Zdigits2 (- n)))), (Zdigits2 (- n) - 53).
  split; [|replace (Z.abs n) with (- n) by lia; apply Hcase; lia].
  replace n with (- (- n)) at 1 by lia. apply ofZ_neg. lia.
- exists (Z.to_pos (n * 2 ^ (53 - Zdigits2 n))), (Zdigits2 n - 53).
  split; [|replace (Z.abs n) with n by lia; apply Hcase; lia].
  apply ofZ_pos. lia.
Qed.

Lemma shl_align_fst (m : positive) (e e' : Z) :
e' <= e -> Z.pos (fst (shl_align m e e')) = Z.pos m * 2 ^ (e - e').
Proof.
intros Hle. pose proof (shl_align_spec m e e') as Hs.
destruct (shl_align m e e') as [mz ez]. destruct Hs as [Hmz Hez].
cbn [fst]. rewrite Hmz, Hez, Z.min_r by assumption.
apply Z.shiftl_mul_pow2. lia.
Qed.

Lemma aligned_mantissa (n : Z) (m : positive) (e ez : Z) :
Z.pos m = Z.abs n * 2 ^ (- e) -> e <= 0 -> ez <= e ->
cond_Zopp (n <? 0) (Z.pos (fst (shl_align m e ez))) = n * 2 ^ (- ez).
Proof.
intros Hm He Hez. rewrite shl_align_fst by assumption. rewrite Hm.
rewrite <- Z.mul_assoc, <- Z.pow_add_r by lia.
replace (- e + (e - ez)) with (- ez) by lia.
unfold cond_Zopp. destruct (Z.ltb_spec n 0); lia.
Qed.

Lemma add_ofZ (a b : Z) :
- 2 ^ 53 < a < 2 ^ 53 -> - 2 ^ 53 < b < 2 ^ 53 ->
- 2 ^ 53 < a + b < 2 ^ 53 ->
add (ofZ a) (ofZ b) = ofZ (a + b).
Proof.
intros Ha Hb Hab.
destruct (Z.eq_dec a 0) as [->|Hane].
{ rewrite Z.add_0_l. destruct (Z.eq_dec b 0) as [->|Hbne]; [reflexivity|].
  destruct (ofZ_nonzero b Hbne Hb) as (m & e & -> & _). reflexivity. }
destruct (Z.eq_dec b 0) as [->|Hbne].
{ rewrite Z.add_0_r.
  destruct (ofZ_nonzero a Hane Ha) as (m & e & -> & _). reflexivity. }
destruct (ofZ_nonzero a Hane Ha) as (ma & ea & -> & Hea & Hma).
destruct (ofZ_nonzero b Hbne Hb) as (mb & eb & -> & Heb & Hmb).
unfold add, SFadd.
rewrite (aligned_mantissa a ma ea) by (assumption || lia).
rewrite (aligned_mantissa b mb eb) by (assumption || lia).
rewrite <- Z.mul_add_distr_r.
rewrite <- (Z.opp_involutive (Z.min ea eb)) at 2.
apply binary_normalize_scaled; lia.
Qed.

Lemma sub_ofZ (a b : Z) :
- 2 ^ 53 < a < 2 ^ 53 -> - 2 ^ 53 < b < 2 ^ 53 ->
- 2 ^ 53 < a - b < 2 ^ 53 ->
sub (ofZ a) (ofZ b) = ofZ (a - b).
Proof.
intros Ha Hb Hab.
destruct (Z.eq_dec b 0) as [->|Hbne].
{ rewrite Z.sub_0_r. destruct (Z.eq_dec a 0) as [->|Hane]; [reflexivity|].
  destruct (ofZ_nonzero a Hane Ha) as (m & e & -> & _). reflexivity. }
destruct (Z.eq_dec a 0) as [->|Hane].
{ rewrite Z.sub_0_l.
  destruct (Z.ltb_spec b 0) as [Hneg|Hpos].
  - replace b with (- (- b)) at 1 by lia.
    rewrite (ofZ_neg (- b)), (ofZ_pos (- b)) by lia. reflexivity.
  - rewrite (ofZ_pos b), (ofZ_neg b) by lia. reflexivity. }
destruct (ofZ_nonzero a Hane Ha) as (ma & ea & -> & Hea & Hma).
destruct (ofZ_nonzero b Hbne Hb) as (mb & eb & -> & Heb & Hmb).
unfold sub, SFsub.
rewrite (aligned_mantissa a ma ea) by (assumption || lia).
rewrite (aligned_mantissa b mb eb) by (assumption || lia).
rewrite <- Z.mul_sub_distr_r.
rewrite <- (Z.opp_involutive (Z.min ea eb)) at 2.
apply binary_normalize_scaled; lia.
Qed.

Lemma trunc_ofZ (n : Z) : - 2 ^ 53 < n < 2 ^ 53 -> trunc (ofZ n) = ofZ n.
Proof.
intros Hn. destruct (Z.eq_dec n 0) as [->|Hne]; [reflexivity|].
destruct (ofZ_nonzero n Hne Hn) as (m & e & E & He & Hm).
rewrite E. unfold trunc.
destruct (Z.leb_spec 0 e) as [|Hlt]; [reflexivity|].
rewrite Z.shiftr_div_pow2, Hm by lia.
rewrite Z.div_mul by (apply Z.pow_nonzero; lia).
destruct (Z.abs n) as [|p|p] eqn:Habs; try lia.
rewrite <- E.
replace (cond_Zopp (n <? 0) (Z.pos p)) with n
  by (unfold cond_Zopp; destruct (Z.ltb_spec n 0); lia).
destruct n; reflexivity.
Qed.

Lemma integerSaturate_ofZ (n lo hi : Z) :
- 2 ^ 53 < n < 2 ^ 53 -> - 2 ^ 53 < lo <= hi -> hi < 2 ^ 53 ->
integerSaturate (ofZ n) (ofZ lo) (ofZ hi) = ofZ (clamp lo hi n).
Proof.
intros Hn Hlo Hhi. unfold integerSaturate, clamp.
rewrite lt_ofZ, gt_ofZ by lia.
destruct (Z.ltb_spec n lo); [f_equal; lia|].
destruct (Z.ltb_spec hi n); [f_equal; lia|].
rewrite trunc_ofZ by lia. f_equal. lia.
Qed.

Lemma toUint8_ofZ (n : Z) :
- 2 ^ 53 < n < 2 ^ 53 -> toUint8 (ofZ n) = ofZ (clamp 0 255 n).
Proof. intros Hn. apply integerSaturate_ofZ; lia. Qed.

Lemma toUint32_ofZ (n : Z) :
- 2 ^ 53 < n < 2 ^ 53 -> toUint32 (ofZ n) = ofZ (clamp 0 4294967295 n).
Proof. intros Hn. apply integerSaturate_ofZ; lia. Qed.

End Integers.

Import Integers.

(** ** Single precision *)

Module Single.

Local Open Scope Z_scope.

Lemma round32_valid (x : number) : valid_binary 24 128 (round32 x) = true.
Proof.
destruct x as [s|s| |s m e]; try reflexivity.
apply binary_round_valid. lia.
Qed.

(** What it is to be a single-precision mantissa and exponent. *)
Lemma bounded32_inv (m : positive) (e : Z) :
bounded 24 128 m e = true ->
-149 <= e <= 104 /\ Z.pos m < 2 ^ 24 /\ (2 ^ 23 <= Z.pos m \/ e = -149).
Proof.
unfold bounded, canonical_mantissa. intros H.
apply andb_prop in H. destruct H as [Hc Hle].
apply Z.eqb_eq in Hc. apply Z.leb_le in Hle.
change (Z.pos (digits2_pos m)) with (Zdigits2 (Z.pos m)) in Hc.
pose proof (Zdigits2_bounds (Z.pos m) ltac:(lia)) as [Hlo Hhi].
pose proof (Zdigits2_pos (Z.pos m) ltac:(lia)) as Hd.
unfold fexp, emin in Hc.
assert (Hd24 : Zdigits2 (Z.pos m) <= 24) by lia.
assert (2 ^ Zdigits2 (Z.pos m) <= 2 ^ 24) by (apply Z.pow_le_mono_r; lia).
split; [lia|]. split; [lia|].
destruct (Z.eq_dec (Zdigits2 (Z.pos m)) 24) as [E|E].
- left. rewrite E in Hlo. exact Hlo.
- right. lia.
Qed.

Lemma widen_finite (s : bool) (m : positive) (e : Z) :
bounded 24 128 m e = true ->
let k := 53 - Zdigits2 (Z.pos m) in
widen (S754_finite s m e) = S754_finite s (Z.to_pos (Z.pos m * 2 ^ k)) (e - k).
Proof.
intros Hb k. unfold widen.
destruct (bounded32_inv m e Hb) as (He & Hm & _).
pose proof (Zdigits2_pos (Z.pos m) ltac:(lia)) as Hd.
pose proof (Zdigits2_le (Z.pos m) 24 ltac:(lia) Hm ltac:(lia)) as Hd24.
assert (Hp : 0 < Z.pos m * 2 ^ k).
{ apply Z.mul_pos_pos; [lia|apply Z.pow_pos_nonneg; lia]. }
apply binary_round_exact.
- unfold bounded, canonical_mantissa. apply andb_true_intro. split.
  + apply Z.eqb_eq.
    change (Z.pos (digits2_pos ?p)) with (Zdigits2 (Z.pos p)).
    rewrite Z2Pos.id by assumption.
    rewrite <- Z.shiftl_mul_pow2 by lia.
    rewrite Zdigits2_shiftl by lia.
    unfold fexp, emin. lia.
  + apply Z.leb_le. lia.
- right. split; [lia|].
  rewrite Z2Pos.id by assumption. f_equal. f_equal. lia.
Qed.

Lemma round32_widen (f : spec_float) :
valid_binary 24 128 f = true -> round32 (widen f) = f.
Proof.
destruct f as [s|s| |s m e]; try reflexivity.
intros Hb. cbn [valid_binary] in Hb.
rewrite widen_finite by assumption.
destruct (bounded32_inv m e Hb) as (He & Hm & _).
pose proof (Zdigits2_pos (Z.pos m) ltac:(lia)) as Hd.
pose proof (Zdigits2_le (Z.pos m) 24 ltac:(lia) Hm ltac:(lia)) as Hd24.
unfold round32. apply binary_round_exact; [assumption|].
left. split; [lia|].
rewrite Z2Pos.id
  by (apply Z.mul_pos_pos; [lia|apply Z.pow_pos_nonneg; lia]).
f_equal. f_equal. lia.
Qed.

Lemma fround_idempotent (x : number) : fround (fround x) = fround x.
Proof.
unfold fround. rewrite round32_widen by apply round32_valid. reflexivity.
Qed.

(** The 32 bits *)
Lemma join_bits_split (s : bool) (E F : Z) :
0 <= E < 2 ^ 8 -> 0 <= F < 2 ^ 23 ->
let w := join_bits s E F in
0 <= w < 2 ^ 32 /\ Z.testbit w 31 = s
/\ (w / 2 ^ 23) mod 2 ^ 8 = E /\ w mod 2 ^ 23 = F.
Proof.
intros HE HF w. unfold w, join_bits.
change (2 ^ 8) with 256 in *. change (2 ^ 23) with 8388608 in *.
change (2 ^ 31) with 2147483648. change (2 ^ 32) with 4294967296.
assert (Hlow : (E * 8388608 + F) / 2147483648 = 0)
  by (apply Z.div_small; lia).
repeat split.
- destruct s; lia.
- destruct s; lia.
- destruct s.
  + apply Z.testbit_true; [lia|].
    change (2 ^ 31) with 2147483648.
    replace (2147483648 + E * 8388608 + F)
      with (1 * 2147483648 + (E * 8388608 + F)) by lia.
    rewrite Z.div_add_l, Hlow by lia. reflexivity.
  + apply Z.testbit_false; [lia|].
    change (2 ^ 31) with 2147483648.
    replace (0 + E * 8388608 + F) with (E * 8388608 + F) by lia.
    rewrite Hlow. reflexivity.
- replace ((if s then 2147483648 else 0) + E * 8388608 + F)
    with (((if s then 256 else 0) + E) * 8388608 + F) by (destruct s; lia).
  rewrite Z.div_add_l, (Z.div_small F) by lia.
  rewrite Z.add_0_r. destruct s.
  + replace (256 + E) with (E + 1 * 256) by lia.
    rewrite Z.mod_add by lia. apply Z.mod_small. lia.
  + apply Z.mod_small. lia.
- replace ((if s then 2147483648 else 0) + E * 8388608 + F)
    with (F + ((if s then 256 else 0) + E) * 8388608) by (destruct s; lia).
  rewrite Z.mod_add by lia. apply Z.mod_small. lia.
Qed.

Lemma bits_of_b32_fields (f : spec_float) :
valid_binary 24 128 f = true ->
exists s E F, bits_of_b32 f = join_bits s E F
              /\ 0 <= E < 2 ^ 8 /\ 0 <= F < 2 ^ 23
              /\ f = (if E =? 0 then
                        if F =? 0 then S754_zero s
                        else S754_finite s (Z.to_pos F) (-149)
                      else if E =? 255 then
                        if F =? 0 then S754_infinity s else S754_nan
                      else S754_finite s (Z.to_pos (F + 2 ^ 23)) (E - 150)).
Proof.
destruct f as [s|s| |s m e]; intros Hv.
- exists s, 0, 0. repeat split; try lia; reflexivity.
- exists s, 255, 0. repeat split; try lia; reflexivity.
- exists false, 255, (2 ^ 22). repeat split; try lia; reflexivity.
- cbn [valid_binary] in Hv.
  destruct (bounded32_inv m e Hv) as (He & Hm & Hnorm).
  unfold bits_of_b32.
  destruct (Z.leb_spec (2 ^ 23) (Z.pos m)) as [Hge|Hlt].
  + exists s, (e + 150), (Z.pos m - 2 ^ 23).
    change (2 ^ 8) with 256. change (2 ^ 24) with 16777216 in *.
    change (2 ^ 23) with 8388608 in *.
    repeat split; try lia.
    destruct (Z.eqb_spec (e + 150) 0); [lia|].
    destruct (Z.eqb_spec (e + 150) 255); [lia|].
    f_equal; [|lia].
    replace (Z.pos m - 8388608 + 8388608) with (Z.pos m) by lia. reflexivity.
  + exists s, 0, (Z.pos m).
    change (2 ^ 8) with 256. change (2 ^ 23) with 8388608 in *.
    repeat split; try lia.
    cbn [Z.eqb]. destruct Hnorm as [Hc| ->]; [lia|]. reflexivity.
Qed.

Lemma b32_of_bits_of_b32 (f : spec_float) :
valid_binary 24 128 f = true -> b32_of_bits (bits_of_b32 f) = f.
Proof.
intros Hv. destruct (bits_of_b32_fields f Hv) as (s & E & F & -> & HE & HF & Hf).
destruct (join_bits_split s E F HE HF) as (_ & Hs & HE' & HF').
unfold b32_of_bits. rewrite Hs, HE', HF'. symmetry. exact Hf.
Qed.

Lemma bits_of_b32_range (f : spec_float) :
valid_binary 24 128 f = true -> 0 <= bits_of_b32 f < 2 ^ 32.
Proof.
intros Hv. destruct (bits_of_b32_fields f Hv) as (s & E & F & -> & HE & HF & _).
apply (join_bits_split s E F HE HF).
Qed.

End Single.

Import Single.

(** ** Byte buffers *)

Module DataViewFacts.

Import DataView.

Lemma byteAt_storeList4 (v : DataView) (i j b0 b1 b2 b3 : Z) :
  byteAt (storeList v i [b0; b1; b2; b3]) j
  = if j =? i + 3 then b3
    else if j =? i + 2 then b2
    else if j =? i + 1 then b1
    else if j =? i then b0
    else byteAt v j.
Proof.
  unfold storeList. cbn.
  replace (i + 1 + 1 + 1) with (i + 3) by lia.
  replace (i + 1 + 1) with (i + 2) by lia. reflexivity.
Qed.

Lemma byteLength_storeList (v : DataView) (i : Z) (bs : list Z) :
  byteLength (storeList v i bs) = byteLength v.
Proof.
  unfold storeList. revert v i.
  induction bs as [|b bs IH]; intros v i; [reflexivity|].
  cbn [fold_left]. rewrite IH. reflexivity.
Qed.

Lemma bytes32_word (w : Z) :
  0 <= w < 2 ^ 32 ->
  (w / 2 ^ 24) mod 256 * 2 ^ 24 + (w / 2 ^ 16) mod 256 * 2 ^ 16
  + (w / 2 ^ 8) mod 256 * 2 ^ 8 + w mod 256 = w.
Proof.
  intros Hw.
  change (2 ^ 32) with 4294967296 in Hw. change (2 ^ 24) with 16777216.
  change (2 ^ 16) with 65536. change (2 ^ 8) with 256.
  Z.div_mod_to_equations. lia.
Qed.

Lemma word32_storeList (v : DataView) (i w : Z) :
  0 <= w < 2 ^ 32 -> word32 (storeList v i (bytes32 w)) i = w.
Proof.
  intros Hw. unfold word32, bytes32. rewrite !byteAt_storeList4.
  repeat match goal with
         | |- context [?a =? ?b] => destruct (Z.eqb_spec a b); try lia
         end.
  apply bytes32_word. assumption.
Qed.

Lemma viewIndex_in_range (v : DataView) (address : number) (a size : Z) :
  ToIndex address = Some a -> a + size <= byteLength v ->
  viewIndex v address size = inr a.
Proof.
  intros Hi Hle. unfold viewIndex. rewrite Hi.
  destruct (Z.ltb_spec (byteLength v) (a + size)); [lia|reflexivity].
Qed.

(** Storing a number as a float and loading it back. *)
Lemma setFloat32_getFloat32 (v : DataView) (address x : number) (a : Z) :
  ToIndex address = Some a -> a + 4 <= byteLength v ->
  exists v',
    setFloat32 v address x = inr v'
    /\ getFloat32 v' address = inr (fround x)
    /\ map (byteAt v') [a; a + 1; a + 2; a + 3]
       = bytes32 (bits_of_b32 (round32 x))
    /\ byteLength v' = byteLength v
    /\ (forall j, j < a \/ a + 4 <= j -> byteAt v' j = byteAt v j).
Proof.
  intros Hi Hle.
  exists (storeList v a (bytes32 (bits_of_b32 (round32 x)))).
  pose proof (bits_of_b32_range _ (round32_valid x)) as Hw.
  split; [|split; [|split; [|split]]].
  - unfold setFloat32. rewrite (viewIndex_in_range v address a 4) by assumption.
    reflexivity.
  - unfold getFloat32. rewrite (viewIndex_in_range _ address a 4);
      [|assumption|rewrite byteLength_storeList; assumption].
    rewrite word32_storeList by assumption.
    rewrite b32_of_bits_of_b32 by apply round32_valid. reflexivity.
  - unfold bytes32. cbn [map]. rewrite !byteAt_storeList4.
    repeat match goal with
           | |- context [?a =? ?b] => destruct (Z.eqb_spec a b); try lia
           end; reflexivity.
  - apply byteLength_storeList.
  - intros j Hj. unfold bytes32. rewrite byteAt_storeList4.
    repeat match goal with
           | |- context [?a =? ?b] => destruct (Z.eqb_spec a b); try lia
           end; reflexivity.
Qed.

End DataViewFacts.

Import DataViewFacts.

Lemma ToUint8_signed8 (b : Z) :
  0 <= b < 256 -> ToUint8 (ofZ (DataView.signed8 b)) = b.
Proof.
  intros Hb. unfold ToUint8, DataView.signed8.
  change (2 ^ 8) with 256.
  destruct (Z.ltb_spec b 128).
  - rewrite truncZ_ofZ by lia. apply Z.mod_small. lia.
  - rewrite truncZ_ofZ by lia.
    replace (b - 256) with (b + (-1) * 256) by lia.
    rewrite Z.mod_add by lia. apply Z.mod_small. lia.
Qed.

Lemma getInt8_in_range (v : DataView) (i : Z) :
  0 <= i < byteLength v -> byteLength v < 2 ^ 53 ->
  DataView.getInt8 v (ofZ i) = inr (ofZ (DataView.signed8 (byteAt v i))).
Proof.
  intros Hi Hlen. unfold DataView.getInt8.
  rewrite (viewIndex_in_range v (ofZ i) i 1); [reflexivity| |lia].
  apply ToIndex_ofZ. lia.
Qed.

Lemma getFloatBytes_bytes (x : number) :
  map ToUint8 (getFloatBytes x) = DataView.bytes32 (bits_of_b32 (round32 x)).
Proof.
  unfold getFloatBytes.
  destruct (setFloat32_getFloat32 (DataView.alloc 4) (ofZ 0) x 0)
    as (v' & -> & _ & Hbytes & Hlen & _); [reflexivity|reflexivity|].
  change (byteLength (DataView.alloc 4)) with 4 in Hlen.
  cbn [map]. rewrite !getInt8_in_range by (rewrite Hlen; lia).
  cbn [map] in Hbytes. change (0 + 1) with 1 in Hbytes.
  change (0 + 2) with 2 in Hbytes. change (0 + 3) with 3 in Hbytes.
  unfold DataView.bytes32 in *.
  injection Hbytes as H0 H1 H2 H3. rewrite H0, H1, H2, H3.
  rewrite !ToUint8_signed8; [reflexivity| | | |];
    apply Z.mod_pos_bound; lia.
Qed.

(** Claim C7. On a machine whose RAM has 3 * 2^20 bytes, with the
    address register holding a number whose ToIndex is [a] in
    [0, 3 * 2^20 - 4] (as the integer [a] itself is) and the value
    register holding [x], whatever number [x] is: the float-write
    instruction followed by the float-read instruction at the same
    address loads [toFloat32 x], the rounding of [x] to single precision,
    into the target register; the four bytes at [a], [a+1], [a+2], [a+3],
    read most significant byte first, are an IEEE-754 single-precision
    encoding of that rounding; when [x] is not NaN they are its one
    encoding (sign, exponent, fraction), and the bytes that
    [getFloatBytes] gives the assembler for a float constant are the same
    four (the bits of a NaN are the host's choice); the write changes no
    other byte, no register and no stack. *)
Theorem ram_float32_roundtrip (g : Gsx) (program : DataView)
    (addressRegister valueRegister target : GeneralPurposeRegisterName)
    (address x : number) (a : Z) :
  byteLength (ram g) = 3 * BYTES_PER_MB ->
  Registers.get addressRegister (registers g) = address ->
  Registers.get valueRegister (registers g) = x ->
  ToIndex address = Some a ->
  0 <= a <= 3 * BYTES_PER_MB - 4 ->
  ToIndex (ofZ a) = Some a
  /\ exists g',
    writeFloat addressRegister valueRegister program g = Val tt g'
    /\ readFloat target addressRegister program g'
       = Val tt (withRegister target (toFloat32 x) g')
    /\ Registers.get target (registers (withRegister target (toFloat32 x) g'))
       = toFloat32 x
    /\ b32_of_bits (DataView.word32 (ram g') a) = round32 x
    /\ (x <> NaN ->
        map (byteAt (ram g')) [a; a + 1; a + 2; a + 3]
        = DataView.bytes32 (bits_of_b32 (round32 x))
        /\ map ToUint8 (getFloatBytes x)
           = DataView.bytes32 (bits_of_b32 (round32 x)))
    /\ byteLength (ram g') = 3 * BYTES_PER_MB
    /\ (forall j, j < a \/ a + 4 <= j -> byteAt (ram g') j = byteAt (ram g) j)
    /\ registers g' = registers g
    /\ argumentStack g' = argumentStack g
    /\ jumpStack g' = jumpStack g.
Proof.
  intros Hlen Haddress Hx Hi Ha.
  split; [apply ToIndex_ofZ; unfold BYTES_PER_MB in Ha; lia|].
  destruct (setFloat32_getFloat32 (ram g) address x a Hi ltac:(lia))
    as (v' & Hset & Hget & Hbytes & Hlen' & Hframe).
  exists {| registers := registers g; ram := v';
            argumentStack := argumentStack g; jumpStack := jumpStack g |}.
  pose proof (round32_valid x) as Hvalid.
  pose proof (bits_of_b32_range _ Hvalid) as Hw.
  split.
  { cbv [writeFloat bind registers_get getRegisters ret ram_set].
    rewrite Haddress, Hx, Hset. reflexivity. }
  split.
  { cbv [readFloat bind registers_get getRegisters ret ram_get registers_set
         modifyRegisters].
    cbn [registers ram argumentStack jumpStack].
    rewrite Haddress, Hget. reflexivity. }
  split.
  { unfold withRegister. cbn [registers].
    assert (Hsame : forall value rs,
              Registers.get target (Registers.set target value rs)
              = toFloat32 value)
      by (intros value rs; destruct target; reflexivity).
    rewrite Hsame. unfold toFloat32. apply fround_idempotent. }
  cbn [ram registers argumentStack jumpStack].
  split.
  { rewrite <- (b32_of_bits_of_b32 (round32 x) Hvalid). f_equal.
    unfold DataView.word32. cbn [map] in Hbytes.
    unfold DataView.bytes32 in Hbytes.
    injection Hbytes as -> -> -> ->.
    apply bytes32_word. assumption. }
  split.
  { intros _. split; [exact Hbytes|apply getFloatBytes_bytes]. }
  repeat split; try assumption. lia.
Qed.

(** The float -8.58 in R written at the address 2 held by T, on a fresh
    machine, and read into Y: the bytes are C1 09 47 AE. *)
Lemma ram_float32_roundtrip_witness :
  exists g',
    writeFloat reg_t reg_r exitProgram
      (withRegister reg_r (div (ofZ (-858)) (ofZ 100))
         (withRegister reg_t (ofZ 2) Gsx_new))
    = Val tt g'
    /\ readFloat reg_y reg_t exitProgram g'
       = Val tt (withRegister reg_y
                   (toFloat32 (toFloat32 (div (ofZ (-858)) (ofZ 100)))) g')
    /\ map (byteAt (ram g')) [2; 3; 4; 5] = [193; 9; 71; 174].
Proof.
  destruct (ram_float32_roundtrip
              (withRegister reg_r (div (ofZ (-858)) (ofZ 100))
                 (withRegister reg_t (ofZ 2) Gsx_new))
              exitProgram reg_t reg_r reg_y (ofZ 2)
              (toFloat32 (div (ofZ (-858)) (ofZ 100))) 2)
    as (_ & g' & Hwrite & Hread & _ & _ & Hbytes & _);
    [reflexivity|reflexivity|reflexivity|reflexivity|unfold BYTES_PER_MB; lia|].
  exists g'. split; [exact Hwrite|]. split; [exact Hread|].
  destruct Hbytes as [Hbytes _]; [vm_compute; discriminate|].
  exact Hbytes.
Defined.

(** ** The instructions *)

Lemma typedIndex_ofZ (n : Z) :
  0 <= n < 2 ^ 53 -> typedIndex (ofZ n) = Some (Z.to_nat n).
Proof. intros Hn. unfold typedIndex. rewrite integerIndex_ofZ by assumption. reflexivity. Qed.

Lemma clamp_min (hi n : Z) : 0 <= n -> 0 <= hi -> clamp 0 hi n = Z.min hi n.
Proof. unfold clamp. lia. Qed.

Lemma clamp_max (hi n : Z) : n <= hi -> 0 <= hi -> clamp 0 hi n = Z.max 0 n.
Proof. unfold clamp. lia. Qed.

Ltac run_monad :=
  cbv [bind ret throw liftE programCounter set_programCounter
       argumentStackPointer set_argumentStackPointer
       jumpStackPointer set_jumpStackPointer registers_get registers_set
       getRegisters modifyRegisters jumpStack_get jumpStack_set
       argumentStack_get argumentStack_set ram_get ram_set advance];
  cbn [registers ram argumentStack jumpStack
       Registers.programCounter Registers.argumentStackPointer
       Registers.jumpStackPointer
       Registers.set_programCounter Registers.set_argumentStackPointer
       Registers.set_jumpStackPointer
       _programCounter _argumentStackPointer _jumpStackPointer _t _r _y].

(** Claim C9. For every machine whose argument stack pointer AS is an
    integer [n] in 0..255: [push] writes the register's value (through the
    single-precision conversion of the [Float32Array], which leaves a
    value written by the register's setter as it is) at
    [argumentStack[n]] and then sets AS to the saturation of [n + 1],
    which is [min 255 (n + 1)]; [pop] sets AS to the saturation of
    [n - 1], which is [max 0 (n - 1)], and then reads [argumentStack] at
    the new AS into the register. Neither raises: push at AS = 255 leaves
    AS = 255, and pop at AS = 0 leaves AS = 0. *)
Theorem push_pop_saturate (g : Gsx) (register : GeneralPurposeRegisterName)
    (program : DataView) (n : Z) :
  Registers.argumentStackPointer (registers g) = ofZ n ->
  0 <= n <= 255 ->
  (exists g',
      push register program g = Val tt g'
      /\ argumentStack g'
         = <[Z.to_nat n := toFloat32 (Registers.get register (registers g))]>
             (argumentStack g)
      /\ registers g' = Registers.set_argumentStackPointer (ofZ (n + 1)) (registers g)
      /\ Registers.argumentStackPointer (registers g') = ofZ (Z.min 255 (n + 1))
      /\ (n = 255 -> Registers.argumentStackPointer (registers g') = ofZ 255)
      /\ (forall x, Registers.get register (registers g) = toFloat32 x ->
          toFloat32 (Registers.get register (registers g))
          = Registers.get register (registers g))
      /\ ram g' = ram g /\ jumpStack g' = jumpStack g)
  /\ (exists g',
      pop register program g = Val tt g'
      /\ Registers.argumentStackPointer (registers g') = ofZ (Z.max 0 (n - 1))
      /\ (n = 0 -> Registers.argumentStackPointer (registers g') = ofZ 0)
      /\ Registers.get register (registers g')
         = toFloat32 (match argumentStack g !! Z.to_nat (Z.max 0 (n - 1)) with
                      | Some value => value
                      | None => NaN
                      end)
      /\ argumentStack g' = argumentStack g
      /\ ram g' = ram g /\ jumpStack g' = jumpStack g).
Proof.
  intros Hsp Hn.
  assert (Hup : toUint8 (add (ofZ n) (ofZ 1)) = ofZ (Z.min 255 (n + 1))).
  { rewrite add_ofZ, toUint8_ofZ, clamp_min by lia. reflexivity. }
  assert (Hdown : toUint8 (sub (ofZ n) (ofZ 1)) = ofZ (Z.max 0 (n - 1))).
  { rewrite sub_ofZ, toUint8_ofZ, clamp_max by lia. reflexivity. }
  split.
  - eexists. split; [reflexivity|].
    unfold push. run_monad. rewrite Hsp, typedIndex_ofZ by lia.
    rewrite add_ofZ by lia. rewrite toUint8_ofZ, clamp_min by lia.
    repeat split; try reflexivity.
    + intros ->. reflexivity.
    + intros x ->. apply fround_idempotent.
  - eexists. split; [reflexivity|].
    unfold pop. run_monad. rewrite Hsp, Hdown, typedIndex_ofZ by lia.
    destruct register;
      cbn [Registers.set Registers.get Registers.set_t Registers.set_r
           Registers.set_y Registers.t Registers.r Registers.y
           Registers.argumentStackPointer Registers.set_argumentStackPointer
           _argumentStackPointer _t _r _y];
      rewrite ?Hdown; repeat split; try reflexivity; intros ->; reflexivity.
Qed.

(** ** Exceptions of the instructions *)

Section Raises.
Context {A B : Type} (P : exn -> Prop).

Lemma raises_bind (m : M A) (k : A -> M B) :
  raises P m -> (forall a, raises P (k a)) -> raises P (bind m k).
Proof.
  intros Hm Hk g e g' H. unfold bind in H.
  destruct (m g) as [a g1|e1 g1] eqn:E.
  - eapply Hk. exact H.
  - injection H as -> ->. eapply Hm. exact E.
Qed.

Lemma raises_total (m : M A) :
  (forall g, exists a g', m g = Val a g') -> raises P m.
Proof.
  intros Hm g e g' H. destruct (Hm g) as (a & g1 & E). congruence.
Qed.

Lemma raises_liftE (x : exn + A) :
  (forall e, x = inl e -> P e) -> raises P (liftE x).
Proof.
  intros Hx g e g' H. destruct x as [e1|a]; cbn in H; [|discriminate].
  injection H as -> ->. apply Hx. reflexivity.
Qed.
End Raises.

Lemma viewIndex_RangeError (v : DataView) (a : number) (size : Z) (e : exn) :
  DataView.viewIndex v a size = inl e -> e = RangeError.
Proof.
  unfold DataView.viewIndex. destruct (ToIndex a); [|congruence].
  destruct (_ <? _); congruence.
Qed.

Lemma getUint8_RangeError v a e : DataView.getUint8 v a = inl e -> e = RangeError.
Proof.
  unfold DataView.getUint8. destruct (DataView.viewIndex v a 1) eqn:E; [|discriminate].
  intros [= <-]. eapply viewIndex_RangeError, E.
Qed.

Lemma getInt8_RangeError v a e : DataView.getInt8 v a = inl e -> e = RangeError.
Proof.
  unfold DataView.getInt8. destruct (DataView.viewIndex v a 1) eqn:E; [|discriminate].
  intros [= <-]. eapply viewIndex_RangeError, E.
Qed.

Lemma getFloat32_RangeError v a e : DataView.getFloat32 v a = inl e -> e = RangeError.
Proof.
  unfold DataView.getFloat32. destruct (DataView.viewIndex v a 4) eqn:E; [|discriminate].
  intros [= <-]. eapply viewIndex_RangeError, E.
Qed.

Lemma setInt8_RangeError v a x e : DataView.setInt8 v a x = inl e -> e = RangeError.
Proof.
  unfold DataView.setInt8. destruct (DataView.viewIndex v a 1) eqn:E; [|discriminate].
  intros [= <-]. eapply viewIndex_RangeError, E.
Qed.

Lemma setFloat32_RangeError v a x e : DataView.setFloat32 v a x = inl e -> e = RangeError.
Proof.
  unfold DataView.setFloat32. destruct (DataView.viewIndex v a 4) eqn:E; [|discriminate].
  intros [= <-]. eapply viewIndex_RangeError, E.
Qed.

Lemma raises_ram_get read address :
  (forall v a e, read v a = inl e -> e = RangeError) ->
  raises (fun e => e = RangeError) (ram_get read address).
Proof.
  intros Hr g e g' H. unfold ram_get in H.
  destruct (read (ram g) address) eqn:E; [|discriminate].
  injection H as <- _. eapply Hr, E.
Qed.

Lemma raises_ram_set write address value :
  (forall v a x e, write v a x = inl e -> e = RangeError) ->
  raises (fun e => e = RangeError) (ram_set write address value).
Proof.
  intros Hr g e g' H. unfold ram_set in H.
  destruct (write (ram g) address value) eqn:E; [|discriminate].
  injection H as <- _. eapply Hr, E.
Qed.

Ltac never_throws :=
  apply raises_total; intros ?; eexists; eexists; reflexivity.

Ltac raises_step :=
  first
    [ apply raises_bind; [|intros ?]
    | apply raises_liftE; first [apply getUint8_RangeError | apply getInt8_RangeError | apply getFloat32_RangeError]
    | apply raises_ram_get; first [apply getInt8_RangeError | apply getFloat32_RangeError]
    | apply raises_ram_set; first [apply setInt8_RangeError | apply setFloat32_RangeError]
    | never_throws ].

Lemma rangeErrorOnly_loadByte r : rangeErrorOnly (loadByte r).
Proof. intros program. unfold loadByte. repeat raises_step. Qed.

Lemma rangeErrorOnly_loadFloat r : rangeErrorOnly (loadFloat r).
Proof. intros program. unfold loadFloat. repeat raises_step. Qed.

Lemma rangeErrorOnly_exit : rangeErrorOnly exit.
Proof.
  intros program. unfold exit. apply raises_bind; [never_throws|intros js].
  destruct (strict_eq js (ofZ 0)); repeat raises_step.
Qed.

Lemma rangeErrorOnly_run r : rangeErrorOnly (run r).
Proof. intros program. unfold run. repeat raises_step. Qed.

Lemma rangeErrorOnly_push r : rangeErrorOnly (push r).
Proof. intros program. unfold push. repeat raises_step. Qed.

Lemma rangeErrorOnly_pop r : rangeErrorOnly (pop r).
Proof. intros program. unfold pop. repeat raises_step. Qed.

Lemma rangeErrorOnly_readByte v a : rangeErrorOnly (readByte v a).
Proof. intros program. unfold readByte. repeat raises_step. Qed.

Lemma rangeErrorOnly_readFloat v a : rangeErrorOnly (readFloat v a).
Proof. intros program. unfold readFloat. repeat raises_step. Qed.

Lemma rangeErrorOnly_writeByte a v : rangeErrorOnly (writeByte a v).
Proof. intros program. unfold writeByte. repeat raises_step. Qed.

Lemma rangeErrorOnly_writeFloat a v : rangeErrorOnly (writeFloat a v).
Proof. intros program. unfold writeFloat. repeat raises_step. Qed.

Lemma rangeErrorOnly_arith op r a b : rangeErrorOnly (arith op r a b).
Proof. intros program. unfold arith. repeat raises_step. Qed.

Section Preserves.
Variable P : Instruction -> Prop.

Lemma preserves_pushInstruction i : P i -> preserves P (pushInstruction i).
Proof.
  intros Hi tb Htb. cbn. apply Forall_app. split; [assumption|].
  constructor; [assumption|constructor].
Qed.

Lemma preserves_define ms i : P i -> preserves P (define ms i).
Proof.
  intros Hi tb Htb. unfold define.
  apply (preserves_pushInstruction i Hi). exact Htb.
Qed.

Lemma preserves_forOf {A} (xs : list A) (body : A -> Init) :
  (forall x, preserves P (body x)) -> preserves P (forOf xs body).
Proof.
  intros Hb. unfold forOf.
  induction xs as [|x xs IH]; intros tb Htb; [exact Htb|].
  cbn [fold_left]. apply IH. apply Hb. exact Htb.
Qed.

Lemma preserves_statements (body : list Init) :
  Forall (preserves P) body -> preserves P (statements body).
Proof.
  unfold statements. induction 1 as [|s body Hs _ IH]; intros tb Htb; [exact Htb|].
  cbn [fold_left]. apply IH. apply Hs. exact Htb.
Qed.
End Preserves.

Ltac each_statement :=
  lazymatch goal with
  | |- Forall _ (_ :: _) => constructor; [|each_statement]
  | |- Forall _ [] => constructor
  end.

Ltac preserves_step :=
  lazymatch goal with
  | |- preserves _ (statements _) => apply preserves_statements; each_statement
  | |- preserves _ (forOf _ _) => apply preserves_forOf; intros ?
  | |- preserves _ (define _ _) => apply preserves_define
  | |- preserves _ (pushInstruction _) => apply preserves_pushInstruction
  | |- preserves _ (let '(_, _) := otherTwo ?r in _) => destruct (otherTwo r)
  end.

Lemma table_rangeErrorOnly : Forall rangeErrorOnly (instructionByBytecode tables).
Proof.
  unfold tables.
  assert (H : preserves rangeErrorOnly moduleBody).
  { unfold moduleBody, threeOperand, targetInOperand.
    repeat preserves_step.
    all: auto using rangeErrorOnly_loadByte, rangeErrorOnly_loadFloat,
        rangeErrorOnly_exit, rangeErrorOnly_run, rangeErrorOnly_push,
        rangeErrorOnly_pop, rangeErrorOnly_readByte, rangeErrorOnly_readFloat,
        rangeErrorOnly_writeByte, rangeErrorOnly_writeFloat,
        rangeErrorOnly_arith. }
  apply H. constructor.
Qed.

(** ** The interpreter loop *)

Lemma raises_weaken {A} (P Q : exn -> Prop) (m : M A) :
  (forall e, P e -> Q e) -> raises P m -> raises Q m.
Proof. intros HPQ Hm g e g' H. apply HPQ. eapply Hm, H. Qed.

Lemma raises_runInstruction (instructionBytecode : number) (program : DataView) :
  raises notAnError (runInstruction instructionBytecode program).
Proof.
  unfold runInstruction.
  destruct (typedIndex instructionBytecode) as [i|].
  - destruct (instructionByBytecode tables !! i) as [instruction|] eqn:E.
    + apply (raises_weaken (fun e => e = RangeError)); [left; assumption|].
      pose proof table_rangeErrorOnly as H.
      rewrite Forall_lookup in H. apply (H i instruction E).
    + intros g e g' [= <- _]. right. reflexivity.
  - intros g e g' [= <- _]. right. reflexivity.
Qed.

Lemma raises_fetchAndRun (program : DataView) :
  raises notAnError (fetchAndRun program).
Proof.
  unfold fetchAndRun.
  apply raises_bind; [never_throws|intros pc].
  apply raises_bind.
  { apply raises_liftE. intros e He. left. eapply getUint8_RangeError, He. }
  intros b. apply raises_bind; [never_throws|intros pc'].
  apply raises_bind; [never_throws|intros _].
  apply raises_runInstruction.
Qed.

Lemma whileLoop_throws (turns : nat) (program : DataView) (g g' : Gsx) (e : exn) :
  whileLoop turns program g = Some (Throw e g') -> notAnError e.
Proof.
  revert g. induction turns as [|turns IH]; intros g H; cbn [whileLoop] in H.
  - destruct (lt _ _); discriminate.
  - destruct (lt _ _); [|discriminate].
    destruct (fetchAndRun program g) as [[] g1|e1 g1] eqn:E.
    + eapply IH, H.
    + injection H as -> ->. eapply raises_fetchAndRun, E.
Qed.

Lemma whileLoop_returns (turns : nat) (program : DataView) (g g' : Gsx) :
  whileLoop turns program g = Some (Val tt g') ->
  lt (Registers.programCounter (registers g')) (ofZ (byteLength program)) = false.
Proof.
  revert g. induction turns as [|turns IH]; intros g H; cbn [whileLoop] in H.
  - destruct (lt (Registers.programCounter (registers g)) _) eqn:E;
      [discriminate|].
    injection H as <-. exact E.
  - destruct (lt (Registers.programCounter (registers g)) _) eqn:E.
    + destruct (fetchAndRun program g) as [[] g1|e1 g1]; [|discriminate].
      eapply IH, H.
    + injection H as <-. exact E.
Qed.

Section Run.
Variable toLocaleString : Z -> string.

Lemma runProgram_size (turns : nat) (program : DataView) (g : Gsx) :
  0 <= byteLength program < 2 ^ 53 ->
  runProgram toLocaleString turns program g
  = if MAX_PROGRAM_SIZE <=? byteLength program
    then Some (Throw (programTooLarge toLocaleString) g)
    else whileLoop turns program g.
Proof.
  intros Hlen. unfold runProgram.
  rewrite ge_ofZ by (unfold MAX_PROGRAM_SIZE, BYTES_PER_MB; lia).
  reflexivity.
Qed.

(** Claim C5. [runProgram] raises the program-too-large error exactly
    when the bytecode has 3 * 2^20 bytes or more; it then raises at once,
    with the machine as it was (no instruction has run, no register, RAM
    byte or stack entry has changed); a shorter bytecode, one of
    3 * 2^20 - 1 bytes included, is accepted: the run is the interpreter
    loop. *)
Theorem runProgram_too_large (turns : nat) (program : DataView) (g : Gsx) :
  0 <= byteLength program < 2 ^ 53 ->
  (3 * 2 ^ 20 <= byteLength program
   <-> exists g', runProgram toLocaleString turns program g
                  = Some (Throw (programTooLarge toLocaleString) g'))
  /\ (3 * 2 ^ 20 <= byteLength program ->
      runProgram toLocaleString turns program g
      = Some (Throw (programTooLarge toLocaleString) g))
  /\ (byteLength program < 3 * 2 ^ 20 ->
      runProgram toLocaleString turns program g = whileLoop turns program g).
Proof.
  intros Hlen. rewrite runProgram_size by assumption.
  change MAX_PROGRAM_SIZE with (3 * 2 ^ 20).
  destruct (Z.leb_spec (3 * 2 ^ 20) (byteLength program)) as [Hge|Hlt].
  - split; [|split].
    + split; [eauto|intros _; assumption].
    + reflexivity.
    + lia.
  - split; [|split].
    + split; [lia|]. intros [g' H]. exfalso.
      apply whileLoop_throws in H. destruct H; discriminate.
    + lia.
    + reflexivity.
Qed.

Lemma runProgram_returns_past_end (turns : nat) (program : DataView) (g g' : Gsx) :
  0 <= byteLength program < 3 * 2 ^ 20 ->
  runProgram toLocaleString turns program g = Some (Val tt g') ->
  lt (Registers.programCounter (registers g')) (ofZ (byteLength program)) = false.
Proof.
  intros Hlen. rewrite runProgram_size by lia.
  change MAX_PROGRAM_SIZE with (3 * 2 ^ 20).
  destruct (Z.leb_spec (3 * 2 ^ 20) (byteLength program)); [lia|].
  apply whileLoop_returns.
Qed.
End Run.

Lemma getUint8_in_range (v : DataView) (i : Z) :
  0 <= i < byteLength v -> byteLength v < 2 ^ 53 ->
  DataView.getUint8 v (ofZ i) = inr (ofZ (byteAt v i)).
Proof.
  intros Hi Hlen. unfold DataView.getUint8.
  rewrite (viewIndex_in_range v (ofZ i) i 1); [reflexivity| |lia].
  apply ToIndex_ofZ. lia.
Qed.

Lemma fetchAndRun_at (program : DataView) (g : Gsx) (a : Z) :
  Registers.programCounter (registers g) = ofZ a ->
  0 <= a < byteLength program -> byteLength program < 2 ^ 53 ->
  fetchAndRun program g
  = runInstruction (ofZ (byteAt program a)) program (fetched a g).
Proof.
  intros Hpc Ha Hlen. unfold fetchAndRun. run_monad.
  rewrite Hpc, getUint8_in_range by lia. cbv beta iota.
  rewrite Hpc, add_ofZ by lia. reflexivity.
Qed.

Lemma runInstruction_exit (program : DataView) :
  runInstruction (ofZ 6) program = exit program.
Proof. reflexivity. Qed.

Lemma runInstruction_run (register : GeneralPurposeRegisterName) (program : DataView) :
  runInstruction (ofZ (7 + index register)) program = run register program.
Proof. destruct register; reflexivity. Qed.

Lemma exit_outside_function (program : DataView) (g : Gsx) :
  Registers.jumpStackPointer (registers g) = ofZ 0 ->
  exit program g
  = Val tt {| registers := Registers.set_programCounter UINT32_MAX (registers g);
              ram := ram g; argumentStack := argumentStack g;
              jumpStack := jumpStack g |}.
Proof. intros Hjs. unfold exit. run_monad. rewrite Hjs. reflexivity. Qed.

Section Exit.
Variable toLocaleString : Z -> string.

(** [exit] outside a function ends the run with the counter at
    2^32 - 1. *)
Lemma exit_ends_run (turns : nat) (program : DataView) (g : Gsx) (a : Z) :
  0 <= a < byteLength program -> byteLength program < 3 * 2 ^ 20 ->
  Registers.programCounter (registers g) = ofZ a ->
  byteAt program a = 6 ->
  Registers.jumpStackPointer (registers g) = ofZ 0 ->
  exists g',
    runProgram toLocaleString (S turns) program g = Some (Val tt g')
    /\ registers g' = Registers.set_programCounter UINT32_MAX (registers g)
    /\ Registers.programCounter (registers g') = ofZ (2 ^ 32 - 1)
    /\ ram g' = ram g /\ argumentStack g' = argumentStack g
    /\ jumpStack g' = jumpStack g.
Proof.
  intros Ha Hlen Hpc Hop Hjs. eexists. split.
  - rewrite runProgram_size by lia.
    change MAX_PROGRAM_SIZE with (3 * 2 ^ 20).
    destruct (Z.leb_spec (3 * 2 ^ 20) (byteLength program)); [lia|].
    cbn [whileLoop]. rewrite Hpc at 1. rewrite lt_ofZ by lia.
    destruct (Z.ltb_spec a (byteLength program)); [|lia].
    rewrite (fetchAndRun_at program g a) by (assumption || lia).
    rewrite Hop, runInstruction_exit, exit_outside_function by exact Hjs.
    destruct turns; cbn [whileLoop registers fetched Registers.programCounter
                          Registers.set_programCounter _programCounter];
      change (toUint32 UINT32_MAX) with (ofZ 4294967295);
      rewrite lt_ofZ by lia;
      (destruct (Z.ltb_spec 4294967295 (byteLength program)); [lia|]);
      reflexivity.
  - cbn. repeat split; reflexivity.
Qed.

(** A run that starts past the end returns at once. *)
Lemma run_past_end_returns (turns : nat) (program : DataView) (g : Gsx) :
  0 <= byteLength program < 3 * 2 ^ 20 ->
  lt (Registers.programCounter (registers g)) (ofZ (byteLength program)) = false ->
  runProgram toLocaleString turns program g = Some (Val tt g).
Proof.
  intros Hlen Hpc. rewrite runProgram_size by lia.
  change MAX_PROGRAM_SIZE with (3 * 2 ^ 20).
  destruct (Z.leb_spec (3 * 2 ^ 20) (byteLength program)); [lia|].
  destruct turns; cbn [whileLoop]; rewrite Hpc; reflexivity.
Qed.
End Exit.

(** The call opcode at offset [a]: the address pushed is [a + 2], since
    the loop has advanced the counter to [a + 1] before the handler adds
    one. *)
Lemma run_register_at (program : DataView) (g : Gsx)
    (register : GeneralPurposeRegisterName) (a j : Z) :
  Registers.programCounter (registers g) = ofZ a ->
  0 <= a < byteLength program -> byteLength program < 2 ^ 32 - 2 ->
  byteAt program a = 7 + index register ->
  Registers.jumpStackPointer (registers g) = ofZ j -> 0 <= j <= 255 ->
  exists g',
    fetchAndRun program g = Val tt g'
    /\ jumpStack g' = <[Z.to_nat j := a + 2]> (jumpStack g)
    /\ Registers.jumpStackPointer (registers g') = ofZ (Z.min 255 (j + 1))
    /\ Registers.programCounter (registers g')
       = toUint32 (Registers.get register (registers g))
    /\ ram g' = ram g /\ argumentStack g' = argumentStack g.
Proof.
  intros Hpc Ha Hlen Hop Hjs Hj. eexists. split.
  - rewrite (fetchAndRun_at program g a) by (assumption || lia).
    rewrite Hop, runInstruction_run. reflexivity.
  - unfold run, fetched. run_monad.
    unfold Registers.jumpStackPointer in Hjs. rewrite Hjs.
    rewrite toUint32_ofZ by lia.
    replace (clamp 0 4294967295 (a + 1)) with (a + 1) by (unfold clamp; lia).
    rewrite !add_ofZ by lia. rewrite typedIndex_ofZ by lia.
    rewrite toUint8_ofZ, clamp_min by lia.
    assert (Hret : ToUint32 (ofZ (1 + (a + 1))) = a + 2).
    { unfold ToUint32. rewrite truncZ_ofZ by lia. rewrite Z.mod_small by lia. lia. }
    rewrite Hret.
    repeat split; reflexivity.
Qed.

(** ** Reset and the saturation gates *)

(** Claim C8. For every machine, after [reset] the six registers PC, AS,
    JS, T, R and Y are 0 and every byte of the RAM (whose size is kept) is
    0, while the argument stack and the jump stack are as before. *)
Theorem reset_zeroes_registers_and_ram (g : Gsx) :
  exists g',
    reset g = Val tt g'
    /\ Registers.programCounter (registers g') = ofZ 0
    /\ Registers.argumentStackPointer (registers g') = ofZ 0
    /\ Registers.jumpStackPointer (registers g') = ofZ 0
    /\ Registers.t (registers g') = ofZ 0
    /\ Registers.r (registers g') = ofZ 0
    /\ Registers.y (registers g') = ofZ 0
    /\ byteLength (ram g') = byteLength (ram g)
    /\ (forall a, 0 <= a < byteLength (ram g') -> byteAt (ram g') a = 0)
    /\ argumentStack g' = argumentStack g
    /\ jumpStack g' = jumpStack g.
Proof.
  eexists. split; [reflexivity|]. cbn. repeat split; reflexivity.
Qed.

(** Claim C10. The saturation gates do not map NaN into the register's
    range: [toUint8 NaN] and [toUint32 NaN] are NaN, so the setters of PC,
    AS and JS store NaN when given NaN; executing [run t] with T = NaN
    leaves PC = NaN. *)
Theorem saturation_passes_NaN (g : Gsx) (program : DataView) :
  toUint8 NaN = NaN
  /\ toUint32 NaN = NaN
  /\ Registers.programCounter (Registers.set_programCounter NaN (registers g)) = NaN
  /\ Registers.argumentStackPointer
       (Registers.set_argumentStackPointer NaN (registers g)) = NaN
  /\ Registers.jumpStackPointer
       (Registers.set_jumpStackPointer NaN (registers g)) = NaN
  /\ (Registers.t (registers g) = NaN ->
      exists g', run reg_t program g = Val tt g'
                 /\ Registers.programCounter (registers g') = NaN).
Proof.
  repeat split; try reflexivity.
  intros Ht. eexists. split; [reflexivity|].
  cbn. unfold Registers.t in Ht. rewrite Ht. reflexivity.
Qed.

(** ** The table and the dictionary *)

Local Open Scope list_scope.

Lemma reachable_opcodes :
  map_Forall (fun _ opcode =>
                6 <= opcode <= 65 \/ 102 <= opcode <= 103 \/ 140 <= opcode <= 177)
    (bytecodeByKeyableMnemonic tables).
Proof.
  apply (bool_decide_unpack _). vm_compute. exact I.
Qed.

(** Claim C1, evaluated. When the module body has run, the dispatch
    table has 178 entries (not 256) and the dictionary 127 keys (not
    250). The opcodes that a key reaches are 6..65, 102, 103 and
    140..177: opcode 66, for one, is reached by no key, although it is
    the same instruction ([new t = r - y]) as opcode 142, which the key
    does reach; and there is no instruction for the opcodes from 178
    on: running the one-byte bytecode [178] ends with a TypeError. *)
Theorem tables_after_initialization :
  length (instructionByBytecode tables) = 178%nat
  /\ size (bytecodeByKeyableMnemonic tables) = 127%nat
  /\ (forall key, bytecodeByKeyableMnemonic tables !! key <> Some 66)
  /\ (forall key opcode, bytecodeByKeyableMnemonic tables !! key = Some opcode ->
        6 <= opcode <= 65 \/ 102 <= opcode <= 103 \/ 140 <= opcode <= 177)
  /\ bytecodeByKeyableMnemonic tables !! "newt=r-y"%string = Some 142
  /\ instructionByBytecode tables !! 66%nat = Some (arith sub reg_t reg_r reg_y)
  /\ instructionByBytecode tables !! 142%nat = Some (arith sub reg_t reg_r reg_y)
  /\ instructionByBytecode tables !! 178%nat = None
  /\ runProgram enUS 1 (DataView.ofBytes [178]) Gsx_new
     = Some (Throw TypeError (fetched 0 Gsx_new)).
Proof.
  split; [vm_compute; reflexivity|].
  split; [vm_compute; reflexivity|].
  split.
  { intros key H. apply reachable_opcodes in H. lia. }
  split; [exact reachable_opcodes|].
  split; [vm_compute; reflexivity|].
  repeat split; reflexivity.
Qed.

(** The assembler *)
Lemma stripPrefix_Some (p s r : string) :
  stripPrefix p s = Some r -> s = (p +:+ r)%string.
Proof.
  revert s. induction p as [|a p IH]; intros s H; cbn in H.
  - injection H as ->. reflexivity.
  - destruct s as [|b s]; [discriminate|].
    destruct (Ascii.eqb_spec a b) as [->|]; [|discriminate].
    change (String b p +:+ r)%string with (String b (p +:+ r)%string).
    f_equal. apply IH. exact H.
Qed.

Lemma matchConstantAssignment_inv (s constant : string)
    (register : GeneralPurposeRegisterName) :
  matchConstantAssignment s = Some (register, constant) ->
  exists c, s = ("new" +:+ String c ("=" +:+ constant))%string
            /\ registerOfLetter c = Some register
            /\ isSignedDecimal constant = true.
Proof.
  unfold matchConstantAssignment. intros H.
  destruct (stripPrefix "new" s) as [[|c rest]|] eqn:E1; try discriminate.
  destruct (registerOfLetter c) as [reg|] eqn:E2; [|discriminate].
  destruct (stripPrefix "=" rest) as [constant'|] eqn:E3; [|discriminate].
  destruct (isSignedDecimal constant') eqn:E4; [|discriminate].
  injection H as -> ->.
  apply stripPrefix_Some in E1, E3. subst. eauto.
Qed.

Lemma keys_are_not_constants :
  map_Forall (fun key _ =>
                match matchConstantAssignment key with
                | Some _ => false
                | None => true
                end = true)
    (bytecodeByKeyableMnemonic tables).
Proof. apply (bool_decide_unpack _). vm_compute. exact I. Qed.

Lemma lookupKeyable_constant (s : string)
    (capture : GeneralPurposeRegisterName * string) :
  matchConstantAssignment s = Some capture -> lookupKeyable s = None.
Proof.
  intros H. unfold lookupKeyable.
  destruct (bytecodeByKeyableMnemonic tables !! s) as [b|] eqn:E.
  - apply keys_are_not_constants in E. rewrite H in E. discriminate.
  - destruct capture as [register constant].
    apply matchConstantAssignment_inv in H. destruct H as (c & -> & _).
    reflexivity.
Qed.

Section Assembler.
Variable toLocaleString : Z -> string.

(** Claim C3, amended. For every line whose normalized form matches the
    constant-assignment pattern, the assembler appends to the program
    bytes the byte-constant opcode (0, 1 or 2 for t, r, y) and the
    constant as one byte (two's complement) exactly when the parsed value
    of the constant lies in [-128, 127] and equals the value of its
    integer part, whether or not the text has a dot; otherwise it appends
    the float-constant opcode (3, 4 or 5) and the four big-endian bytes of
    the constant rounded to single precision. No error is recorded. *)
Theorem constant_assignment_bytes (line : string) (lineIndex : Z)
    (programBytes : list number) (syntaxErrors : list string)
    (register : GeneralPurposeRegisterName) (constant : string) :
  matchConstantAssignment (normalizeMnemonic line) = Some (register, constant) ->
  let value := parseFloat constant in
  let isConstantAByte :=
    ge value INT8_MIN && le value INT8_MAX
    && strict_eq value (parseInt10 constant) in
  exists emitted,
    translateLine toLocaleString lineIndex line (programBytes, syntaxErrors)
    = (programBytes ++ emitted, syntaxErrors)
    /\ map ToUint8 emitted
       = if isConstantAByte
         then [index register; ToUint8 value]
         else (3 + index register)
                :: DataView.bytes32 (bits_of_b32 (round32 value)).
Proof.
  intros Hm value isConstantAByte.
  unfold translateLine.
  rewrite (lookupKeyable_constant _ _ Hm).
  unfold tryToGetBytecodeForConstantAssignment. rewrite Hm.
  fold value. fold isConstantAByte.
  destruct (matchConstantAssignment_inv _ _ _ Hm) as (c & Hs & _).
  rewrite Hs. cbn [String.length append Nat.eqb].
  destruct isConstantAByte.
  - destruct register; eexists; (split; [reflexivity|reflexivity]).
  - destruct register; eexists; (split; [reflexivity|]);
      cbn [map]; rewrite getFloatBytes_bytes; reflexivity.
Qed.
End Assembler.

(** ** The errors of the assembler *)

Section Errors.
Variable toLocaleString : Z -> string.

Lemma translateLine_spec (lineIndex : Z) (line : string)
    (programBytes : list number) (syntaxErrors : list string) :
  let state' := translateLine toLocaleString lineIndex line
                  (programBytes, syntaxErrors) in
  snd state'
  = syntaxErrors
    ++ (if isUnknown line
        then [unknownInstruction toLocaleString line lineIndex] else [])
  /\ (isUnknown line = false \/ fst state' = programBytes).
Proof.
  unfold translateLine, isUnknown. cbn zeta.
  destruct (String.length (normalizeMnemonic line) =? 0)%nat; cbn [negb andb].
  { split; [symmetry; apply app_nil_r|left; reflexivity]. }
  destruct (lookupKeyable (normalizeMnemonic line)) as [b|].
  { destruct (length syntaxErrors =? 0)%nat; cbn [snd];
      (split; [symmetry; apply app_nil_r|left; reflexivity]). }
  destruct (tryToGetBytecodeForConstantAssignment (normalizeMnemonic line)).
  - cbn [snd]. split; [symmetry; apply app_nil_r|left; reflexivity].
  - cbn [snd fst]. split; [reflexivity|right; reflexivity].
Qed.

Lemma translateLines_errors (programLines : list string) (lineIndex : Z)
    (state : list number * list string) :
  snd (translateLines toLocaleString programLines lineIndex state)
  = snd state ++ errorsOf toLocaleString lineIndex programLines.
Proof.
  revert lineIndex state.
  induction programLines as [|line rest IH]; intros lineIndex state.
  - cbn. symmetry. apply app_nil_r.
  - cbn [translateLines errorsOf]. rewrite IH.
    destruct state as [programBytes syntaxErrors].
    destruct (translateLine_spec lineIndex line programBytes syntaxErrors)
      as [-> _].
    cbn [snd]. rewrite <- app_assoc. reflexivity.
Qed.

(** Property X23. The errors of a translation are the messages of the
    unknown lines (the lines that are not blank, that the dictionary
    lookup does not find and that are not constant assignments), each
    with its line number counted from 1, in the order of the lines; and
    no bytes are returned when a line was reported. *)
Theorem translate_reports_unknown_lines (program : string) :
  snd (translateToBytes toLocaleString program)
  = errorsOf toLocaleString 0 (splitLines program)
  /\ (snd (translateToBytes toLocaleString program) <> [] ->
      fst (translateToBytes toLocaleString program) = []).
Proof.
  unfold translateToBytes.
  pose proof (translateLines_errors (splitLines program) 0 ([], [])) as H.
  destruct (translateLines toLocaleString (splitLines program) 0 ([], []))
    as [programBytes syntaxErrors].
  cbn [snd fst] in *. split; [exact H|].
  intros Hne. destruct syntaxErrors; [contradiction|reflexivity].
Qed.
End Errors.

(** Claim C6, evaluated. The line [constructor] is not blank, is not a
    key of the dictionary and is not a constant assignment, yet it is not
    reported: the lookup finds the inherited property, the program
    translates to the single byte 0 with no error, and among other lines
    only those are reported. *)
Theorem constructor_line_is_not_reported :
  normalizeMnemonic "constructor" = "constructor"%string
  /\ bytecodeByKeyableMnemonic tables !! "constructor"%string = None
  /\ tryToGetBytecodeForConstantAssignment "constructor" = None
  /\ translateToBytes enUS "constructor" = ([0], [])
  /\ translateToBytes enUS "exit
constructor
bad" = ([], ["Unknown instruction (bad) on line 3."%string]).
Proof. repeat split; vm_compute; reflexivity. Qed.

(** [new t = 127.0] has a dot in its constant and takes the byte path:
    opcode 0 and the byte 127, not opcode 3 and four bytes (as
    [new t = 127.5] does). *)
Lemma constant_with_dot_counterexample :
  matchConstantAssignment (normalizeMnemonic "new t = 127.0")
  = Some (reg_t, "127.0"%string)
  /\ translateToBytes enUS "new t = 127.0" = ([0; 127], [])
  /\ translateToBytes enUS "new t = 127.5" = ([3; 66; 255; 0; 0], []).
Proof. repeat split; vm_compute; reflexivity. Qed.

(** The same line through the theorem. *)
Lemma constant_assignment_bytes_witness :
  exists emitted,
    translateLine enUS 0 "new t = 127.0" ([], []) = ([] ++ emitted, [])
    /\ map ToUint8 emitted = [0; 127].
Proof.
  destruct (constant_assignment_bytes enUS "new t = 127.0" 0 [] [] reg_t "127.0")
    as (emitted & H1 & H2); [reflexivity|].
  exists emitted. split; [exact H1|exact H2].
Defined.

(** ** Termination and calls *)

Section Termination.
Variable toLocaleString : Z -> string.

(** Claim C2, amended. For every bytecode of fewer than 3 * 2^20 bytes:
    when [runProgram] returns, the program counter is not below the
    bytecode length (the loop test [PC < length] is false); a run that
    starts with the counter not below the length returns at once with the
    machine unchanged; and a run that executes [exit] with an empty jump
    stack (JS = 0) returns with PC = 2^32 - 1. *)
Theorem run_returns_with_counter_past_end (turns : nat) (program : DataView)
    (g : Gsx) :
  0 <= byteLength program < 3 * 2 ^ 20 ->
  (forall g', runProgram toLocaleString turns program g = Some (Val tt g') ->
     lt (Registers.programCounter (registers g')) (ofZ (byteLength program))
     = false)
  /\ (lt (Registers.programCounter (registers g)) (ofZ (byteLength program))
      = false ->
      runProgram toLocaleString turns program g = Some (Val tt g))
  /\ (forall a,
        0 <= a < byteLength program ->
        Registers.programCounter (registers g) = ofZ a ->
        byteAt program a = 6 ->
        Registers.jumpStackPointer (registers g) = ofZ 0 ->
        exists g',
          runProgram toLocaleString (S turns) program g = Some (Val tt g')
          /\ Registers.programCounter (registers g') = ofZ (2 ^ 32 - 1)).
Proof.
  intros Hlen. split; [|split].
  - intros g'. apply runProgram_returns_past_end. assumption.
  - apply run_past_end_returns. assumption.
  - intros a Ha Hpc Hop Hjs.
    destruct (exit_ends_run toLocaleString turns program g a Ha
                ltac:(lia) Hpc Hop Hjs) as (g' & Hrun & _ & Hpc' & _).
    exists g'. split; assumption.
Qed.
End Termination.

(** The program [exit] on a fresh machine. *)
Lemma run_returns_with_counter_past_end_witness :
  (0 <= byteLength exitProgram < 3 * 2 ^ 20)
  /\ runProgram enUS 1 exitProgram Gsx_new = Some (Val tt afterExit)
  /\ lt (Registers.programCounter (registers afterExit))
        (ofZ (byteLength exitProgram)) = false.
Proof.
  assert (H : 0 <= byteLength exitProgram < 3 * 2 ^ 20) by (cbn; lia).
  split; [exact H|]. split; [reflexivity|].
  apply (run_returns_with_counter_past_end enUS 1 exitProgram Gsx_new H).
  reflexivity.
Defined.

(** The program [push t] runs off its end: the run returns with PC = 1,
    which is not 2^32 - 1. *)
Lemma natural_end_counterexample :
  byteLength (DataView.ofBytes [10]) < 3 * 2 ^ 20
  /\ translateToBytes enUS "push t" = ([10], [])
  /\ exists g',
       runProgram enUS 1 (DataView.ofBytes [10]) Gsx_new = Some (Val tt g')
       /\ Registers.programCounter (registers g') = ofZ 1
       /\ Registers.programCounter (registers g') <> ofZ (2 ^ 32 - 1).
Proof.
  split; [cbn; lia|]. split; [vm_compute; reflexivity|].
  eexists. split; [reflexivity|]. split; [reflexivity|].
  vm_compute. discriminate.
Qed.

(** Claim C4, evaluated. In the program [new t = 5; run t] the call opcode
    is at offset 2. Running it on a fresh machine writes 4 into
    [jumpStack[0]], which is two past the call opcode and not one past
    it (3); JS becomes 1 and PC becomes the value of T, 5. *)
Theorem run_stores_two_past_call :
  translateToBytes enUS "new t = 5
run t" = ([0; 5; 7], [])
  /\ exists g',
       runProgram enUS 2 (DataView.ofBytes [0; 5; 7]) Gsx_new = Some (Val tt g')
       /\ jumpStack g' !! 0%nat = Some 4
       /\ Registers.jumpStackPointer (registers g') = ofZ 1
       /\ Registers.programCounter (registers g') = ofZ 5.
Proof.
  split; [vm_compute; reflexivity|].
  eexists. split; [vm_compute; reflexivity|].
  repeat split; vm_compute; reflexivity.
Qed.

(** Bytecodes of 3 * 2^20 and of 3 * 2^20 - 1 bytes. *)
Lemma runProgram_too_large_witness :
  runProgram enUS 0 (DataView.alloc (3 * 2 ^ 20)) Gsx_new
  = Some (Throw (programTooLarge enUS) Gsx_new)
  /\ runProgram enUS 0 (DataView.alloc (3 * 2 ^ 20 - 1)) Gsx_new
     = whileLoop 0 (DataView.alloc (3 * 2 ^ 20 - 1)) Gsx_new.
Proof.
  split.
  - apply (runProgram_too_large enUS 0 (DataView.alloc (3 * 2 ^ 20)) Gsx_new);
      cbn; lia.
  - apply (runProgram_too_large enUS 0 (DataView.alloc (3 * 2 ^ 20 - 1)) Gsx_new);
      cbn; lia.
Defined.

(** Push on a full stack and pop on an empty one. *)
Lemma push_pop_saturate_witness :
  (exists g', push reg_t exitProgram (withStackPointer 255 Gsx_new) = Val tt g'
              /\ Registers.argumentStackPointer (registers g') = ofZ 255)
  /\ (exists g', pop reg_t exitProgram Gsx_new = Val tt g'
                 /\ Registers.argumentStackPointer (registers g') = ofZ 0).
Proof.
  split.
  - destruct (push_pop_saturate (withStackPointer 255 Gsx_new) reg_t exitProgram 255)
      as [(g' & H1 & _ & _ & _ & H2 & _) _]; [reflexivity|lia|].
    exists g'. split; [exact H1|]. apply H2. reflexivity.
  - destruct (push_pop_saturate Gsx_new reg_t exitProgram 0)
      as [_ (g' & H1 & _ & H2 & _)]; [reflexivity|lia|].
    exists g'. split; [exact H1|]. apply H2. reflexivity.
Defined.

(** [run t] on a machine whose T is NaN. *)
Lemma saturation_passes_NaN_witness :
  Registers.t (registers (withT NaN Gsx_new)) = NaN
  /\ exists g', run reg_t exitProgram (withT NaN Gsx_new) = Val tt g'
                /\ Registers.programCounter (registers g') = NaN.
Proof.
  split; [reflexivity|].
  apply (saturation_passes_NaN (withT NaN Gsx_new) exitProgram). reflexivity.
Defined.

(** The same from program text: 0 / 0 is NaN, and the run returns with
    the counter NaN. *)
Lemma run_with_NaN_counter :
  translateToBytes enUS "new t = r / y
run t" = ([160; 7], [])
  /\ exists g',
       runProgram enUS 2 (DataView.ofBytes [160; 7]) Gsx_new = Some (Val tt g')
       /\ Registers.programCounter (registers g') = NaN.
Proof.
  split; [vm_compute; reflexivity|].
  eexists. split; vm_compute; reflexivity.
Qed.

(** * Further properties

    Properties of the code beyond the claims above: the conversions of
    [TypeCasting.ts], the registers, the RAM instructions, the
    normalization of mnemonics, the dictionary, the assembler, the
    interpreter and the hexadecimal rendering. *)

(** ** Conversions *)

(** Property X1. On an integer [n] (of magnitude below 2^53), [toUint8]
    is the clamp of [n] to [0, 255] and [toUint32] the clamp of [n] to
    [0, 2^32 - 1]: a negative integer becomes 0, an integer above the
    maximum becomes the maximum, any other is kept. *)
Theorem saturate_integer (n : Z) :
  - 2 ^ 53 < n < 2 ^ 53 ->
  toUint8 (ofZ n) = ofZ (Z.max 0 (Z.min 255 n))
  /\ toUint32 (ofZ n) = ofZ (Z.max 0 (Z.min (2 ^ 32 - 1) n)).
Proof.
  intros Hn. split.
  - apply toUint8_ofZ. assumption.
  - apply toUint32_ofZ. assumption.
Qed.

Lemma saturate_integer_witness :
  toUint8 (ofZ 300) = ofZ 255 /\ toUint32 (ofZ (-7)) = ofZ 0.
Proof.
  split.
  - apply (saturate_integer 300). lia.
  - apply (saturate_integer (-7)). lia.
Defined.

Lemma ofZ_finite_form (hi : Z) :
  0 < hi < 2 ^ 53 ->
  ofZ hi = S754_finite false (mant53 hi) (Zdigits2 hi - 53)
  /\ Z.pos (mant53 hi) = hi * 2 ^ (53 - Zdigits2 hi)
  /\ 1 <= Zdigits2 hi <= 53
  /\ 2 ^ (Zdigits2 hi - 1) <= hi.
Proof.
  intros Hhi. destruct (bounded53_int hi Hhi) as [Hp _].
  pose proof (Zdigits2_pos hi ltac:(lia)).
  pose proof (Zdigits2_le hi 53 ltac:(lia) ltac:(lia) ltac:(lia)).
  pose proof (Zdigits2_bounds hi ltac:(lia)).
  split; [apply ofZ_pos; assumption|].
  split; [unfold mant53; apply Z2Pos.id; assumption|].
  split; lia.
Qed.

Lemma bounded53_inv (m : positive) (e : Z) :
  bounded 53 1024 m e = true -> Z.pos m < 2 ^ 53.
Proof.
  unfold bounded, canonical_mantissa. intros H.
  apply andb_prop in H. destruct H as [Hc Hle].
  apply Z.eqb_eq in Hc. apply Z.leb_le in Hle.
  change (Z.pos (digits2_pos m)) with (Zdigits2 (Z.pos m)) in Hc.
  pose proof (Zdigits2_bounds (Z.pos m) ltac:(lia)) as [_ Hhi].
  unfold fexp, emin in Hc.
  assert (Zdigits2 (Z.pos m) <= 53) by lia.
  assert (2 ^ Zdigits2 (Z.pos m) <= 2 ^ 53) by (apply Z.pow_le_mono_r; lia).
  lia.
Qed.

Lemma finite_integer (m : positive) :
  bounded 53 1024 m 0 = true -> S754_finite false m 0 = ofZ (Z.pos m).
Proof.
  intros Hb. symmetry. unfold ofZ, binary_normalize.
  apply binary_round_exact; [assumption|].
  left. split; [lia|]. rewrite Z.sub_diag. lia.
Qed.

(** The saturation between 0 and an integer [hi] of a number that is not
    NaN: an integer of the range, or the negative zero it was given. *)
Lemma integerSaturate_cases (x : number) (hi : Z) :
  valid_binary 53 1024 x = true -> x <> NaN -> 0 <= hi < 2 ^ 53 ->
  (exists n, 0 <= n <= hi /\ integerSaturate x (ofZ 0) (ofZ hi) = ofZ n)
  \/ (x = S754_zero true
      /\ integerSaturate x (ofZ 0) (ofZ hi) = S754_zero true).
Proof.
  intros Hv Hnan Hhi. unfold integerSaturate.
  destruct x as [s|s| |s m e].
  - assert (Hgt : gt (S754_zero s) (ofZ hi) = false).
    { destruct (Z.eq_dec hi 0) as [->|]; [reflexivity|].
      destruct (ofZ_finite_form hi ltac:(lia)) as (-> & _). reflexivity. }
    change (lt (S754_zero s) (ofZ 0)) with false. rewrite Hgt. cbn [trunc].
    destruct s; [right; split; reflexivity|].
    left. exists 0. split; [lia|reflexivity].
  - left. destruct s.
    + exists 0. split; [lia|reflexivity].
    + exists hi. split; [lia|].
      change (lt (S754_infinity false) (ofZ 0)) with false.
      replace (gt (S754_infinity false) (ofZ hi)) with true; [reflexivity|].
      destruct (Z.eq_dec hi 0) as [->|]; [reflexivity|].
      destruct (ofZ_finite_form hi ltac:(lia)) as (-> & _). reflexivity.
  - contradiction Hnan. reflexivity.
  - left. destruct s; [exists 0; split; [lia|reflexivity]|].
    change (lt (S754_finite false m e) (ofZ 0)) with false. cbv iota.
    cbn [valid_binary] in Hv. pose proof (bounded53_inv m e Hv) as Hm.
    destruct (Z.eq_dec hi 0) as [->|Hne].
    { exists 0. split; [lia|reflexivity]. }
    destruct (ofZ_finite_form hi ltac:(lia)) as (Ehi & Hmant & Hd & Hlo).
    destruct (gt (S754_finite false m e) (ofZ hi)) eqn:Hgt.
    { exists hi. split; [lia|reflexivity]. }
    rewrite Ehi in Hgt. unfold gt, SFltb in Hgt. cbn [SFcompare] in Hgt.
    assert (Hval : e <= 0 /\ Z.shiftr (Z.pos m) (- e) <= hi
                   /\ (e = 0 -> Z.pos m <= hi)).
    { destruct (Z.compare_spec (Zdigits2 hi - 53) e) as [He|He|He];
        [|discriminate|].
      - subst e.
        assert (Hle : Z.pos m <= Z.pos (mant53 hi)).
        { change (Pos.compare_cont Eq (mant53 hi) m)
            with (Z.pos (mant53 hi) ?= Z.pos m) in Hgt.
          destruct (Z.compare_spec (Z.pos (mant53 hi)) (Z.pos m));
            [lia|discriminate|lia]. }
        split; [lia|]. split.
        + rewrite Z.shiftr_div_pow2 by lia.
          replace (- (Zdigits2 hi - 53)) with (53 - Zdigits2 hi) by lia.
          apply Z.div_le_upper_bound; [apply Z.pow_pos_nonneg; lia|].
          rewrite Hmant in Hle. lia.
        + intros He. rewrite Hmant in Hle.
          replace (53 - Zdigits2 hi) with 0 in Hle by lia.
          change (2 ^ 0) with 1 in Hle. lia.
      - split; [lia|]. split; [|lia].
        rewrite Z.shiftr_div_pow2 by lia.
        apply Z.div_le_upper_bound; [apply Z.pow_pos_nonneg; lia|].
        apply Z.le_trans with (2 ^ (Zdigits2 hi - 1) * 2 ^ (- e)); [|nia].
        rewrite <- Z.pow_add_r by lia.
        apply Z.le_trans with (2 ^ 53); [lia|].
        apply Z.pow_le_mono_r; lia. }
    destruct Hval as (He & Hq & He0).
    unfold trunc. destruct (Z.leb_spec 0 e) as [Hge|Hlt].
    + assert (e = 0) by lia. subst e.
      exists (Z.pos m). split; [lia|]. apply finite_integer. assumption.
    + pose proof (Z.shiftr_nonneg (Z.pos m) (- e)) as [_ Hnn].
      specialize (Hnn ltac:(lia)).
      destruct (Z.shiftr (Z.pos m) (- e)) as [|q|q] eqn:Eq; [| |lia].
      * exists 0. split; [lia|reflexivity].
      * exists (Z.pos q). split; [lia|reflexivity].
Qed.

Lemma integerSaturate_fixed (x : number) (hi : Z) :
  valid_binary 53 1024 x = true -> 0 <= hi < 2 ^ 53 ->
  integerSaturate (integerSaturate x (ofZ 0) (ofZ hi)) (ofZ 0) (ofZ hi)
  = integerSaturate x (ofZ 0) (ofZ hi).
Proof.
  intros Hv Hhi.
  assert (Hd : x = NaN \/ x <> NaN)
    by (destruct x; (left; reflexivity) || (right; discriminate)).
  destruct Hd as [->|Hnan].
  { assert (E : integerSaturate NaN (ofZ 0) (ofZ hi) = NaN)
      by (unfold integerSaturate, gt, SFltb; destruct (ofZ hi); reflexivity).
    rewrite !E. reflexivity. }
  destruct (integerSaturate_cases x hi Hv Hnan Hhi) as [(n & Hn & ->)|[-> Hs]].
  - rewrite integerSaturate_ofZ by lia. unfold clamp. f_equal. lia.
  - rewrite Hs. exact Hs.
Qed.

(** Property X2. For every number that is not NaN (fractions and the
    infinities included), [toUint8] is an integer of [0, 255] and
    [toUint32] an integer of [0, 2^32 - 1]; the one exception is the
    negative zero, which both return as it is. *)
Theorem saturate_in_range (x : number) :
  valid_binary 53 1024 x = true -> x <> NaN ->
  ((exists n, 0 <= n <= 255 /\ toUint8 x = ofZ n)
   /\ (exists n, 0 <= n <= 2 ^ 32 - 1 /\ toUint32 x = ofZ n))
  \/ (x = S754_zero true
      /\ toUint8 x = S754_zero true /\ toUint32 x = S754_zero true).
Proof.
  intros Hv Hnan.
  destruct (integerSaturate_cases x 255 Hv Hnan ltac:(lia)) as [H8|[Hx H8]];
    destruct (integerSaturate_cases x 4294967295 Hv Hnan ltac:(lia))
      as [H32|[Hx' H32]].
  - left. split; [exact H8|exact H32].
  - right. split; [exact Hx'|]. split; [|exact H32].
    subst x. reflexivity.
  - right. split; [exact Hx|]. split; [exact H8|].
    subst x. reflexivity.
  - right. split; [exact Hx|]. split; [exact H8|exact H32].
Qed.

(** The number 300.5 (the quotient of 601 by 2) and positive infinity. *)
Lemma saturate_in_range_witness :
  ((exists n, 0 <= n <= 255 /\ toUint8 (div (ofZ 601) (ofZ 2)) = ofZ n)
   /\ (exists n, 0 <= n <= 2 ^ 32 - 1
                 /\ toUint32 (div (ofZ 601) (ofZ 2)) = ofZ n))
  \/ (div (ofZ 601) (ofZ 2) = S754_zero true
      /\ toUint8 (div (ofZ 601) (ofZ 2)) = S754_zero true
      /\ toUint32 (div (ofZ 601) (ofZ 2)) = S754_zero true).
Proof.
  apply (saturate_in_range (div (ofZ 601) (ofZ 2))).
  - vm_compute. reflexivity.
  - vm_compute. discriminate.
Defined.

(** An integer of fewer than 25 bits is a single-precision value. *)
Lemma fround_ofZ (n : Z) : - 2 ^ 24 < n < 2 ^ 24 -> fround (ofZ n) = ofZ n.
Proof.
  intros Hn.
  assert (Hcase : forall k s, 0 < k < 2 ^ 24 ->
            fround (S754_finite s (mant53 k) (Zdigits2 k - 53))
            = S754_finite s (mant53 k) (Zdigits2 k - 53)).
  { intros k s Hk.
    pose proof (Zdigits2_pos k ltac:(lia)) as Hd.
    pose proof (Zdigits2_le k 24 ltac:(lia) ltac:(lia) ltac:(lia)) as Hd24.
    pose proof (Zdigits2_bounds k ltac:(lia)) as [Hlo Hhi].
    set (d := Zdigits2 k) in *.
    assert (Hpow : 0 < 2 ^ (24 - d)) by (apply Z.pow_pos_nonneg; lia).
    set (f := S754_finite s (Z.to_pos (k * 2 ^ (24 - d))) (d - 24)).
    assert (Hm : Z.pos (Z.to_pos (k * 2 ^ (24 - d))) = k * 2 ^ (24 - d))
      by (apply Z2Pos.id; nia).
    assert (Hdig : Zdigits2 (k * 2 ^ (24 - d)) = 24).
    { rewrite <- Z.shiftl_mul_pow2 by lia.
      rewrite Zdigits2_shiftl by lia. fold d. lia. }
    assert (Hb : bounded 24 128 (Z.to_pos (k * 2 ^ (24 - d))) (d - 24) = true).
    { unfold bounded, canonical_mantissa. apply andb_true_intro. split.
      - apply Z.eqb_eq.
        change (Z.pos (digits2_pos (Z.to_pos (k * 2 ^ (24 - d)))))
          with (Zdigits2 (Z.pos (Z.to_pos (k * 2 ^ (24 - d))))).
        rewrite Hm, Hdig. unfold fexp, emin. lia.
      - apply Z.leb_le. lia. }
    assert (Hw : widen f = S754_finite s (mant53 k) (d - 53)).
    { unfold f. rewrite widen_finite by assumption. cbv zeta.
      rewrite Hm, Hdig. unfold mant53. fold d.
      f_equal; [|lia]. f_equal.
      rewrite <- Z.mul_assoc, <- Z.pow_add_r by lia. f_equal. f_equal. lia. }
    rewrite <- Hw. unfold fround. rewrite round32_widen; [reflexivity|].
    exact Hb. }
  destruct (Z.lt_trichotomy n 0) as [Hneg|[->|Hpos]].
  - replace n with (- (- n)) by lia. rewrite ofZ_neg by lia.
    apply Hcase. lia.
  - reflexivity.
  - rewrite ofZ_pos by lia. apply Hcase. lia.
Qed.

(** Property X3. [toFloat32] is idempotent, keeps every integer of
    magnitude below 2^24 and keeps NaN; 2^24 + 1 is the least positive
    integer it changes. *)
Theorem toFloat32_fixed_points (x : number) (n : Z) :
  - 2 ^ 24 < n < 2 ^ 24 ->
  toFloat32 (toFloat32 x) = toFloat32 x
  /\ toFloat32 (ofZ n) = ofZ n
  /\ toFloat32 NaN = NaN
  /\ toFloat32 (ofZ (2 ^ 24)) = ofZ (2 ^ 24)
  /\ toFloat32 (ofZ (2 ^ 24 + 1)) = ofZ (2 ^ 24).
Proof.
  intros Hn. split; [apply fround_idempotent|].
  split; [apply fround_ofZ; assumption|].
  split; [reflexivity|]. split; vm_compute; reflexivity.
Qed.

Lemma toFloat32_fixed_points_witness :
  toFloat32 (toFloat32 (div (ofZ 1) (ofZ 3))) = toFloat32 (div (ofZ 1) (ofZ 3))
  /\ toFloat32 (ofZ (-100000)) = ofZ (-100000).
Proof.
  destruct (toFloat32_fixed_points (div (ofZ 1) (ofZ 3)) (-100000))
    as (H1 & H2 & _); [lia|].
  split; [exact H1|exact H2].
Defined.

(** The four bytes of a single-precision constant are signed bytes. *)
Lemma signed8_range (b : Z) : 0 <= b < 256 -> -128 <= DataView.signed8 b <= 127.
Proof. unfold DataView.signed8. destruct (Z.ltb_spec b 128); lia. Qed.

Lemma ToUint8_range (x : number) : 0 <= ToUint8 x < 256.
Proof. unfold ToUint8. apply Z.mod_pos_bound. reflexivity. Qed.

Lemma signed8_mod (k : Z) : -128 <= k <= 127 -> DataView.signed8 (k mod 256) = k.
Proof.
  intros Hk. unfold DataView.signed8.
  destruct (Z.lt_ge_cases k 0).
  - replace (k mod 256) with (k + 256)
      by (apply Z.mod_unique with (q := -1); lia).
    destruct (Z.ltb_spec (k + 256) 128); lia.
  - rewrite Z.mod_small by lia. destruct (Z.ltb_spec k 128); lia.
Qed.

(** Property X4. [getFloatBytes] returns four numbers, each an integer of
    [-128, 127], and a [DataView] over these bytes reads back, as a
    single-precision float at offset 0, the rounding of the value to
    single precision. *)
Theorem getFloatBytes_decodes (x : number) :
  length (getFloatBytes x) = 4%nat
  /\ Forall (fun byte => exists k, byte = ofZ k /\ -128 <= k <= 127)
       (getFloatBytes x)
  /\ DataView.getFloat32 (DataView.ofBytes (map ToUint8 (getFloatBytes x)))
       (ofZ 0)
     = inr (toFloat32 x).
Proof.
  pose proof (getFloatBytes_bytes x) as Hbytes.
  pose proof (round32_valid x) as Hvalid.
  pose proof (bits_of_b32_range _ Hvalid) as Hw.
  split; [|split].
  - rewrite <- (length_map ToUint8), Hbytes. reflexivity.
  - unfold getFloatBytes.
    destruct (setFloat32_getFloat32 (DataView.alloc 4) (ofZ 0) x 0)
      as (v' & -> & _ & Hstored & Hlen & _); [reflexivity|reflexivity|].
    change (byteLength (DataView.alloc 4)) with 4 in Hlen.
    cbn [map]. rewrite !getInt8_in_range by (rewrite Hlen; lia).
    assert (Hrange : forall i, In i [0; 1; 2; 3] -> 0 <= byteAt v' i < 256).
    { intros i Hi.
      assert (Hin : In (byteAt v' i) (map (byteAt v') [0; 0 + 1; 0 + 2; 0 + 3]))
        by (apply in_map; exact Hi).
      rewrite Hstored in Hin. unfold DataView.bytes32 in Hin.
      cbn [In] in Hin.
      destruct Hin as [<-|[<-|[<-|[<-|[]]]]]; apply Z.mod_pos_bound; lia. }
    repeat constructor;
      (eexists; split; [reflexivity|apply signed8_range, Hrange; cbn; tauto]).
  - rewrite Hbytes. unfold DataView.getFloat32.
    rewrite (viewIndex_in_range _ (ofZ 0) 0 4) by (reflexivity || (cbn; lia)).
    unfold toFloat32, fround. f_equal. f_equal.
    rewrite <- (b32_of_bits_of_b32 (round32 x)) at 2 by assumption. f_equal.
    unfold DataView.word32, DataView.bytes32.
    cbn [DataView.ofBytes byteAt nth Z.ltb Z.compare Z.add Z.to_nat
         Pos.to_nat Pos.iter_op Init.Nat.add Pos.add Pos.succ].
    apply bytes32_word. assumption.
Qed.

(** ** Registers *)

(** Property X5. Reading a register after a write to a register gives,
    for the register written, the value converted to its type ([toUint32]
    for PC, [toUint8] for AS and JS, [toFloat32] for T, R and Y), and for
    every other register what it held before. *)
Theorem registers_get_set (which other : RegisterName) (value : number)
    (rs : Registers) :
  Registers.get other (Registers.set which value rs)
  = if decide (other = which) then stored which value
    else Registers.get other rs.
Proof.
  destruct which as [[]| | |], other as [[]| | |]; reflexivity.
Qed.

(** Property X6. Writing back to a register the value read from it
    changes nothing, once the register has been written through its
    setter: the conversions are idempotent. *)
Theorem registers_write_back (which : RegisterName) (value : number)
    (rs : Registers) :
  valid_binary 53 1024 value = true ->
  let rs' := Registers.set which value rs in
  Registers.set which (Registers.get which rs') rs' = rs'.
Proof.
  intros Hv.
  assert (H8 : toUint8 (toUint8 value) = toUint8 value).
  { apply (integerSaturate_fixed value 255); [assumption|lia]. }
  assert (H32 : toUint32 (toUint32 value) = toUint32 value).
  { apply (integerSaturate_fixed value 4294967295); [assumption|lia]. }
  pose proof (fround_idempotent value) as Hf.
  destruct which as [[]| | |]; destruct rs as [pc sp js t0 r0 y0];
    cbv [Registers.set Registers.get Registers.set_t Registers.set_r
         Registers.set_y Registers.set_programCounter
         Registers.set_argumentStackPointer Registers.set_jumpStackPointer
         Registers.t Registers.r Registers.y Registers.programCounter
         Registers.argumentStackPointer Registers.jumpStackPointer
         _t _r _y _programCounter _argumentStackPointer _jumpStackPointer
         toFloat32];
    rewrite ?H8, ?H32, ?Hf; reflexivity.
Qed.

Lemma registers_write_back_witness :
  Registers.set reg_pc
    (Registers.get reg_pc (Registers.set reg_pc (ofZ (-3)) Registers.new))
    (Registers.set reg_pc (ofZ (-3)) Registers.new)
  = Registers.set reg_pc (ofZ (-3)) Registers.new.
Proof.
  apply (registers_write_back reg_pc (ofZ (-3)) Registers.new).
  vm_compute. reflexivity.
Defined.

(** ** The RAM instructions *)

(** Property X7. With the address register holding an integer [n] inside
    the RAM, writing a byte from a register and reading it back at the
    same address gives the two's complement byte of the value: an integer
    of [-128, 127], which is the value itself when the value is such an
    integer. The write changes the byte at [n] and nothing else. *)
Theorem ram_byte_roundtrip (g : Gsx) (program : DataView)
    (addressRegister valueRegister target : GeneralPurposeRegisterName) (n : Z) :
  Registers.get addressRegister (registers g) = ofZ n ->
  0 <= n < byteLength (ram g) -> byteLength (ram g) < 2 ^ 53 ->
  let value := Registers.get valueRegister (registers g) in
  let byte := DataView.signed8 (ToUint8 value) in
  exists g',
    writeByte addressRegister valueRegister program g = Val tt g'
    /\ g' = withRam (DataView.store (ram g) n (ToUint8 value)) g
    /\ readByte target addressRegister program g'
       = Val tt (withRegister target (ofZ byte) g')
    /\ Registers.get target (registers (withRegister target (ofZ byte) g'))
       = ofZ byte
    /\ -128 <= byte <= 127
    /\ (forall k, -128 <= k <= 127 -> value = ofZ k -> byte = k).
Proof.
  intros Ha Hn Hlen value byte.
  assert (Hidx : DataView.viewIndex (ram g) (ofZ n) 1 = inr n).
  { apply viewIndex_in_range; [apply ToIndex_ofZ; lia|lia]. }
  assert (Hb : -128 <= byte <= 127)
    by (apply signed8_range, ToUint8_range).
  eexists. split; [|split; [reflexivity|]].
  - unfold writeByte. run_monad. rewrite Ha.
    unfold DataView.setInt8. rewrite Hidx. reflexivity.
  - split; [|split; [|split]].
    + unfold readByte, withRam. run_monad. rewrite Ha.
      unfold DataView.getInt8, DataView.viewIndex in *.
      cbn [byteLength DataView.store byteAt].
      destruct (ToIndex (ofZ n)) as [i|]; [|discriminate].
      destruct (byteLength (ram g) <? i + 1); [discriminate|].
      injection Hidx as ->. rewrite Z.eqb_refl. reflexivity.
    + unfold withRegister. cbn [registers].
      assert (Hget : forall x rs,
                Registers.get target (Registers.set target x rs) = fround x)
        by (intros x rs; destruct target; reflexivity).
      rewrite Hget. apply fround_ofZ. lia.
    + assumption.
    + intros k Hk E. unfold byte. rewrite E. unfold ToUint8.
      rewrite truncZ_ofZ by lia. apply signed8_mod. assumption.
Qed.

(** The value 200 written from R at address 0 reads back as -56. *)
Lemma ram_byte_roundtrip_witness :
  exists g',
    writeByte reg_t reg_r exitProgram (withRegister reg_r (ofZ 200) Gsx_new)
    = Val tt g'
    /\ readByte reg_y reg_t exitProgram g'
       = Val tt (withRegister reg_y (ofZ (-56)) g').
Proof.
  destruct (ram_byte_roundtrip (withRegister reg_r (ofZ 200) Gsx_new)
              exitProgram reg_t reg_r reg_y 0)
    as (g' & Hw & _ & Hr & _);
    [reflexivity|vm_compute; split; [discriminate|reflexivity]|reflexivity|].
  exists g'. split; [exact Hw|exact Hr].
Defined.

Lemma viewIndex_out_of_range (v : DataView) (n size : Z) :
  - 2 ^ 53 < n < 2 ^ 53 -> n < 0 \/ byteLength v < n + size ->
  DataView.viewIndex v (ofZ n) size = inl RangeError.
Proof.
  intros Hn Hout. unfold DataView.viewIndex.
  destruct (Z.lt_ge_cases n 0) as [Hneg|Hpos].
  - assert (E : ToIndex (ofZ n) = None).
    { unfold ToIndex.
      replace n with (- (- n)) by lia. rewrite ofZ_neg by lia.
      rewrite <- ofZ_neg by lia. rewrite truncZ_ofZ by lia.
      destruct (Z.ltb_spec (- - n) 0); [reflexivity|lia]. }
    rewrite E. reflexivity.
  - rewrite ToIndex_ofZ by lia.
    destruct (Z.ltb_spec (byteLength v) (n + size)); [reflexivity|lia].
Qed.

(** Property X8. With the address register holding an integer [n] that
    is negative, or such that the byte (the four bytes of a float) would
    end beyond the RAM, the four RAM instructions raise RangeError and
    leave the machine as it was: no register and no byte changes. *)
Theorem ram_access_out_of_range (g : Gsx) (program : DataView)
    (addressRegister other : GeneralPurposeRegisterName) (n : Z) :
  Registers.get addressRegister (registers g) = ofZ n ->
  - 2 ^ 53 < n < 2 ^ 53 ->
  (n < 0 \/ byteLength (ram g) < n + 1 ->
     readByte other addressRegister program g = Throw RangeError g
     /\ writeByte addressRegister other program g = Throw RangeError g)
  /\ (n < 0 \/ byteLength (ram g) < n + 4 ->
     readFloat other addressRegister program g = Throw RangeError g
     /\ writeFloat addressRegister other program g = Throw RangeError g).
Proof.
  intros Ha Hn.
  split; intros Hout;
    pose proof (viewIndex_out_of_range (ram g) n _ Hn Hout) as Hidx; split.
  - unfold readByte. run_monad. rewrite Ha.
    unfold DataView.getInt8. rewrite Hidx. reflexivity.
  - unfold writeByte. run_monad. rewrite Ha.
    unfold DataView.setInt8. rewrite Hidx. reflexivity.
  - unfold readFloat. run_monad. rewrite Ha.
    unfold DataView.getFloat32. rewrite Hidx. reflexivity.
  - unfold writeFloat. run_monad. rewrite Ha.
    unfold DataView.setFloat32. rewrite Hidx. reflexivity.
Qed.

(** The address -1, and a float at the last three bytes of the RAM. *)
Lemma ram_access_out_of_range_witness :
  readByte reg_r reg_t exitProgram (withRegister reg_t (ofZ (-1)) Gsx_new)
  = Throw RangeError (withRegister reg_t (ofZ (-1)) Gsx_new)
  /\ writeFloat reg_t reg_r exitProgram (withRegister reg_t (ofZ 3145725) Gsx_new)
     = Throw RangeError (withRegister reg_t (ofZ 3145725) Gsx_new).
Proof.
  split.
  - apply (ram_access_out_of_range (withRegister reg_t (ofZ (-1)) Gsx_new)
             exitProgram reg_t reg_r (-1)); [reflexivity|lia|lia].
  - apply (ram_access_out_of_range (withRegister reg_t (ofZ 3145725) Gsx_new)
             exitProgram reg_t reg_r 3145725);
      [reflexivity|lia|right; vm_compute; reflexivity].
Defined.

(** ** The normalization of mnemonics *)

Ltac each_ascii c :=
  destruct c as [[] [] [] [] [] [] [] []].

Lemma lower_class (c : ascii) :
  isWhiteSpace (toLowerCaseChar c) = isWhiteSpace c
  /\ isLineTerminator (toLowerCaseChar c) = isLineTerminator c
  /\ Ascii.eqb (toLowerCaseChar c) "#" = Ascii.eqb c "#"
  /\ toLowerCaseChar (toLowerCaseChar c) = toLowerCaseChar c.
Proof. each_ascii c; vm_compute; repeat split. Qed.

Lemma strip_toLowerCase (b : bool) (s : string) :
  stripSpaceAndComments b (toLowerCase s)
  = toLowerCase (stripSpaceAndComments b s).
Proof.
  revert b. induction s as [|c s IH]; intros b; [reflexivity|].
  cbn [toLowerCase stripSpaceAndComments].
  destruct (lower_class c) as (Hw & Ht & Hh & _).
  rewrite Hw, Ht, Hh.
  destruct b; [apply IH|].
  destruct (isWhiteSpace c); [apply IH|].
  destruct (Ascii.eqb c "#"); [apply IH|].
  cbn [toLowerCase]. rewrite IH. reflexivity.
Qed.

Lemma toLowerCase_idempotent (s : string) :
  toLowerCase (toLowerCase s) = toLowerCase s.
Proof.
  induction s as [|c s IH]; [reflexivity|].
  cbn [toLowerCase]. destruct (lower_class c) as (_ & _ & _ & ->).
  rewrite IH. reflexivity.
Qed.

Lemma strip_idempotent (b : bool) (s : string) :
  stripSpaceAndComments false (stripSpaceAndComments b s)
  = stripSpaceAndComments b s.
Proof.
  revert b. induction s as [|c s IH]; intros b; [reflexivity|].
  cbn [stripSpaceAndComments].
  destruct b; [apply IH|].
  destruct (isWhiteSpace c) eqn:Hw; [apply IH|].
  destruct (Ascii.eqb c "#") eqn:Hh; [apply IH|].
  cbn [stripSpaceAndComments]. rewrite Hw, Hh, IH. reflexivity.
Qed.

(** Property X9. Normalizing a mnemonic twice is normalizing it once:
    the keys of the dictionary, which [define] normalizes, are found by
    the normalized lines of a program. *)
Theorem normalizeMnemonic_idempotent (mnemonic : string) :
  normalizeMnemonic (normalizeMnemonic mnemonic) = normalizeMnemonic mnemonic.
Proof.
  unfold normalizeMnemonic.
  rewrite strip_toLowerCase, strip_idempotent, toLowerCase_idempotent.
  reflexivity.
Qed.

Lemma strip_app (b : bool) (s1 s2 s2' : string) :
  (forall b', stripSpaceAndComments b' s2 = stripSpaceAndComments b' s2') ->
  stripSpaceAndComments b (s1 +:+ s2) = stripSpaceAndComments b (s1 +:+ s2').
Proof.
  intros H. revert b. induction s1 as [|c s1 IH]; intros b; [apply H|].
  change (String c s1 +:+ s2) with (String c (s1 +:+ s2)).
  change (String c s1 +:+ s2') with (String c (s1 +:+ s2')).
  cbn [stripSpaceAndComments].
  destruct b; [apply IH|].
  destruct (isWhiteSpace c); [apply IH|].
  destruct (Ascii.eqb c "#"); [apply IH|].
  rewrite IH. reflexivity.
Qed.

Lemma strip_comment (s : string) :
  noLineTerminator s = true -> stripSpaceAndComments true s = EmptyString.
Proof.
  induction s as [|c s IH]; [reflexivity|].
  cbn [noLineTerminator stripSpaceAndComments].
  intros H. apply andb_prop in H. destruct H as [-> H]. apply IH, H.
Qed.

(** Property X10. For lines of ASCII characters, the normalized form
    does not depend on the case of the letters, on white space (other
    than line terminators) inserted anywhere, or on a comment appended:
    two lines with the same lower-case form normalize alike; a
    white-space character that is not a line terminator can be inserted
    at any place; and [#] followed by any text without line terminators
    can be appended. *)
Theorem normalizeMnemonic_ignores (before after other : string) (c : ascii) :
  isAscii before = true -> isAscii after = true -> isAscii other = true ->
  code c < 128 ->
  (toLowerCase other = toLowerCase before ->
   normalizeMnemonic other = normalizeMnemonic before)
  /\ (isWhiteSpace c = true -> isLineTerminator c = false ->
      normalizeMnemonic (before +:+ String c after)
      = normalizeMnemonic (before +:+ after))
  /\ (noLineTerminator after = true ->
      normalizeMnemonic (before +:+ String "#" after)
      = normalizeMnemonic before).
Proof.
  intros _ _ _ _.
  unfold normalizeMnemonic. split; [|split].
  - intros E. rewrite <- !strip_toLowerCase, E. reflexivity.
  - intros Hw Ht. f_equal. apply strip_app. intros b'.
    cbn [stripSpaceAndComments]. rewrite Hw, Ht. destruct b'; reflexivity.
  - intros Hafter. f_equal.
    replace before with (before +:+ EmptyString)%string at 2
      by (induction before as [|a p IH]; [reflexivity|];
          change (String a p +:+ EmptyString)%string
            with (String a (p +:+ EmptyString)%string);
          rewrite IH; reflexivity).
    apply strip_app. intros b'.
    cbn [stripSpaceAndComments].
    change (isLineTerminator "#") with false.
    change (isWhiteSpace "#") with false.
    change (Ascii.eqb "#" "#") with true. cbn [negb].
    rewrite strip_comment by assumption.
    destruct b'; reflexivity.
Qed.

Lemma normalizeMnemonic_ignores_witness :
  normalizeMnemonic "NEW T = R + Y" = normalizeMnemonic "new t = r + y"
  /\ normalizeMnemonic ("new t = r +" +:+ String " " "y")
     = normalizeMnemonic ("new t = r +" +:+ "y")
  /\ normalizeMnemonic ("exit " +:+ String "#" " done")
     = normalizeMnemonic "exit ".
Proof.
  destruct (normalizeMnemonic_ignores "new t = r + y" "" "NEW T = R + Y" " ")
    as (Hcase & _ & _); [reflexivity|reflexivity|reflexivity|reflexivity|].
  destruct (normalizeMnemonic_ignores "new t = r +" "y" "" " ")
    as (_ & Hspace & _); [reflexivity|reflexivity|reflexivity|reflexivity|].
  destruct (normalizeMnemonic_ignores "exit " " done" "" " ")
    as (_ & _ & Hcomment); [reflexivity|reflexivity|reflexivity|reflexivity|].
  split; [|split].
  - apply Hcase. reflexivity.
  - apply Hspace; reflexivity.
  - apply Hcomment. reflexivity.
Defined.

(** ** The dictionary and the table *)

Lemma lookup_fold_insert (keys : list string) (value : Z) (dict : gmap string Z)
    (key : string) :
  fold_left (fun dict mnemonic => <[mnemonic := value]> dict) keys dict !! key
  = if bool_decide (key ∈ keys) then Some value else dict !! key.
Proof.
  revert dict. induction keys as [|k keys IH]; intros dict; [reflexivity|].
  cbn [fold_left]. rewrite IH.
  destruct (decide (key ∈ keys)) as [Hin|Hnot].
  - rewrite !bool_decide_eq_true_2;
      [reflexivity|apply list_elem_of_further; assumption|assumption].
  - rewrite (bool_decide_eq_false_2 (key ∈ keys)) by assumption.
    destruct (decide (key = k)) as [->|Hne].
    + rewrite lookup_insert_eq.
      rewrite bool_decide_eq_true_2 by apply list_elem_of_here.
      reflexivity.
    + rewrite lookup_insert_ne by congruence.
      rewrite bool_decide_eq_false_2; [reflexivity|].
      intros [?|?]%elem_of_cons; contradiction.
Qed.

(** Property X11. [define] appends the instruction to the table, at the
    opcode that is the table's length before the call, and leaves the
    earlier opcodes as they were; in the dictionary, the normalized form
    of each of the mnemonics maps to the new opcode (a key defined before
    is redefined, and its old opcode stays in the table), and every other
    key keeps its value. *)
Theorem define_spec (mnemonics : list string) (instruction : Instruction)
    (tb : Tables) :
  let tb' := define mnemonics instruction tb in
  let bytecode := length (instructionByBytecode tb) in
  instructionByBytecode tb' = instructionByBytecode tb ++ [instruction]
  /\ instructionByBytecode tb' !! bytecode = Some instruction
  /\ (forall earlier, (earlier < bytecode)%nat ->
        instructionByBytecode tb' !! earlier = instructionByBytecode tb !! earlier)
  /\ (forall key,
        bytecodeByKeyableMnemonic tb' !! key
        = if bool_decide (key ∈ map normalizeMnemonic mnemonics)
          then Some (Z.of_nat bytecode)
          else bytecodeByKeyableMnemonic tb !! key).
Proof.
  cbv zeta. unfold define, pushInstruction.
  cbn [instructionByBytecode bytecodeByKeyableMnemonic].
  split; [reflexivity|]. split; [|split].
  - rewrite lookup_app_r by lia. rewrite Nat.sub_diag. reflexivity.
  - intros earlier Hlt. apply lookup_app_l. assumption.
  - intros key. apply lookup_fold_insert.
Qed.

Lemma add_commutative (x y : number) : add x y = add y x.
Proof.
  unfold add. destruct x as [sx|sx| |sx mx ex], y as [sy|sy| |sy my ey];
    try reflexivity; cbn [SFadd].
  - destruct sx, sy; reflexivity.
  - destruct sx, sy; reflexivity.
  - rewrite (Z.min_comm ey ex), Z.add_comm. reflexivity.
Qed.

Lemma mul_commutative (x y : number) : mul x y = mul y x.
Proof.
  unfold mul. destruct x as [sx|sx| |sx mx ex], y as [sy|sy| |sy my ey];
    try reflexivity; cbn [SFmul]; rewrite ?(xorb_comm sy sx); try reflexivity.
  rewrite (Pos.mul_comm my mx), (Z.add_comm ey ex). reflexivity.
Qed.

Ltac find_opcode :=
  lazymatch goal with
  | |- assemblesTo ?line _ =>
      let found := eval vm_compute in
        (bytecodeByKeyableMnemonic tables !! normalizeMnemonic line) in
      lazymatch found with
      | Some ?opcode =>
          exists opcode; split;
          [vm_compute; reflexivity
          |lazy -[loadByte loadFloat exit run push pop readByte readFloat
                  writeByte writeFloat arith add sub mul div];
           reflexivity]
      end
  end.

(** Property X12. For every operator and registers X, A, B, the line
    [new X = A op B] is a key of the dictionary exactly when A and B
    differ, or when the three are the same register and the operator is
    [+] or [*]; the instruction its opcode selects then sets X to
    [A op B] of the register values (converted to single precision) and
    changes nothing else. The other forms ([new t = r + r],
    [new t = t - t], ...) are unknown instructions. *)
Theorem arithmetic_mnemonics (operator : Operator)
    (register a b : GeneralPurposeRegisterName) :
  let line := arithmeticLine operator register a b in
  if negb (bool_decide (a = b))
     || (bool_decide (register = a) && isCommutative operator)
  then
    exists instruction,
      assemblesTo line instruction
      /\ forall program g,
           instruction program g
           = Val tt (withRegister register
                       (operation operator
                          (Registers.get a (registers g))
                          (Registers.get b (registers g))) g)
  else isUnknown line = true.
Proof.
  destruct operator, register, a, b; cbv zeta;
    lazymatch goal with
    | |- if ?c then _ else _ =>
        let v := eval vm_compute in c in change c with v; cbv iota
    end;
    lazymatch goal with
    | |- isUnknown _ = true => vm_compute; reflexivity
    | |- _ =>
        eexists; (split; [find_opcode|]);
        intros program g; unfold arith, withRegister; run_monad;
        first [reflexivity
              | rewrite add_commutative; reflexivity
              | rewrite mul_commutative; reflexivity]
    end.
Qed.

(** Property X13. The lines [exit], [run X], [push X], [new X = pop],
    [new V = ram[A] byte] and [new V = ram[A] float] (for all registers,
    V = A included) are keys whose opcode selects the handler of that
    name and registers; [new ram[A] byte = V] and [new ram[A] float = V]
    are keys when V differs from A, and unknown instructions when V is
    A. *)
Theorem control_and_memory_mnemonics
    (valueRegister addressRegister : GeneralPurposeRegisterName) :
  assemblesTo "exit" exit
  /\ assemblesTo ("run " +:+ letter valueRegister) (run valueRegister)
  /\ assemblesTo ("push " +:+ letter valueRegister) (push valueRegister)
  /\ assemblesTo (assign (letter valueRegister) "pop") (pop valueRegister)
  /\ assemblesTo
       (assign (letter valueRegister)
          ("ram[" +:+ letter addressRegister +:+ "] byte"))
       (readByte valueRegister addressRegister)
  /\ assemblesTo
       (assign (letter valueRegister)
          ("ram[" +:+ letter addressRegister +:+ "] float"))
       (readFloat valueRegister addressRegister)
  /\ if bool_decide (valueRegister = addressRegister)
     then
       isUnknown (assign ("ram[" +:+ letter addressRegister +:+ "] byte")
                    (letter valueRegister)) = true
       /\ isUnknown (assign ("ram[" +:+ letter addressRegister +:+ "] float")
                       (letter valueRegister)) = true
     else
       assemblesTo
         (assign ("ram[" +:+ letter addressRegister +:+ "] byte")
            (letter valueRegister))
         (writeByte addressRegister valueRegister)
       /\ assemblesTo
            (assign ("ram[" +:+ letter addressRegister +:+ "] float")
               (letter valueRegister))
            (writeFloat addressRegister valueRegister).
Proof.
  destruct valueRegister, addressRegister;
    lazymatch goal with
    | |- context [bool_decide ?p] =>
        let v := eval vm_compute in (bool_decide p) in
        change (bool_decide p) with v; cbv iota
    end;
    repeat split;
    lazymatch goal with
    | |- isUnknown _ = true => vm_compute; reflexivity
    | |- assemblesTo _ _ => find_opcode
    end.
Qed.

(** ** The assembler on several lines *)

Lemma splitLines_not_nil (s : string) : splitLines s <> [].
Proof.
  destruct s as [|c s]; [discriminate|]. cbn [splitLines].
  destruct (Ascii.eqb c "010"); [discriminate|].
  destruct (splitLines s); discriminate.
Qed.

Lemma splitLines_app (p1 p2 : string) :
  splitLines (p1 +:+ String "010" p2) = splitLines p1 ++ splitLines p2.
Proof.
  induction p1 as [|c p1 IH]; [reflexivity|].
  change (String c p1 +:+ String "010" p2)
    with (String c (p1 +:+ String "010" p2)).
  cbn [splitLines]. rewrite IH.
  destruct (Ascii.eqb c "010"); [reflexivity|].
  pose proof (splitLines_not_nil p1) as Hne.
  destruct (splitLines p1) as [|line rest]; [contradiction|reflexivity].
Qed.

Section Composition.
Variable toLocaleString : Z -> string.

Lemma translateLines_app (l1 l2 : list string) (lineIndex : Z)
    (state : list number * list string) :
  translateLines toLocaleString (l1 ++ l2) lineIndex state
  = translateLines toLocaleString l2 (lineIndex + Z.of_nat (length l1))
      (translateLines toLocaleString l1 lineIndex state).
Proof.
  revert lineIndex state. induction l1 as [|line l1 IH]; intros lineIndex state.
  - cbn. rewrite Z.add_0_r. reflexivity.
  - cbn [app translateLines length]. rewrite IH. f_equal. lia.
Qed.

Lemma errorsOf_nil (programLines : list string) (i j : Z) :
  errorsOf toLocaleString i programLines = [] ->
  errorsOf toLocaleString j programLines = [].
Proof.
  revert i j. induction programLines as [|line rest IH]; intros i j;
    [reflexivity|].
  cbn [errorsOf]. destruct (isUnknown line); [discriminate|].
  cbn [app]. apply IH.
Qed.

Lemma translateLine_known (lineIndex : Z) (line : string)
    (programBytes : list number) :
  isUnknown line = false ->
  translateLine toLocaleString lineIndex line (programBytes, [])
  = (programBytes ++ fst (translateLine toLocaleString 0 line ([], [])), []).
Proof.
  unfold translateLine, isUnknown. cbv zeta.
  destruct (String.length (normalizeMnemonic line) =? 0)%nat; cbn [negb andb].
  { intros _. cbn [fst]. rewrite app_nil_r. reflexivity. }
  destruct (lookupKeyable (normalizeMnemonic line)) as [b|].
  { intros _. reflexivity. }
  destruct (tryToGetBytecodeForConstantAssignment (normalizeMnemonic line));
    [|discriminate].
  intros _. reflexivity.
Qed.

Lemma translateLines_clean (programLines : list string) (lineIndex : Z)
    (programBytes : list number) :
  errorsOf toLocaleString lineIndex programLines = [] ->
  translateLines toLocaleString programLines lineIndex (programBytes, [])
  = (programBytes
       ++ fst (translateLines toLocaleString programLines 0 ([], [])), []).
Proof.
  revert lineIndex programBytes.
  induction programLines as [|line rest IH]; intros lineIndex programBytes H.
  - cbn. rewrite app_nil_r. reflexivity.
  - cbn [errorsOf] in H. destruct (isUnknown line) eqn:Hknown; [discriminate|].
    cbn [app] in H. cbn [translateLines].
    rewrite (translateLine_known lineIndex line programBytes Hknown).
    rewrite (translateLine_known 0 line [] Hknown).
    rewrite (IH (lineIndex + 1) _ H).
    rewrite (IH (0 + 1) _ (errorsOf_nil rest _ _ H)).
    cbn [fst app]. rewrite <- app_assoc. reflexivity.
Qed.

(** Property X14. Translating two programs joined by a line feed: the
    errors are those of the first program followed by those of the
    second, the latter with their line numbers moved by the number of
    lines of the first; and when neither program has an error, the bytes
    are the bytes of the first followed by the bytes of the second. *)
Theorem translate_concatenation (first second : string) :
  let whole := (first +:+ String "010" second)%string in
  snd (translateToBytes toLocaleString whole)
  = snd (translateToBytes toLocaleString first)
    ++ errorsOf toLocaleString (Z.of_nat (length (splitLines first)))
         (splitLines second)
  /\ (snd (translateToBytes toLocaleString first) = [] ->
      snd (translateToBytes toLocaleString second) = [] ->
      translateToBytes toLocaleString whole
      = (fst (translateToBytes toLocaleString first)
           ++ fst (translateToBytes toLocaleString second), [])).
Proof.
  cbv zeta. unfold translateToBytes. rewrite splitLines_app, translateLines_app.
  rewrite Z.add_0_l.
  pose proof (translateLines_errors toLocaleString (splitLines first) 0 ([], []))
    as H1.
  pose proof (translateLines_errors toLocaleString (splitLines second) 0 ([], []))
    as H2.
  destruct (translateLines toLocaleString (splitLines first) 0 ([], []))
    as [bytes1 errors1] eqn:E1.
  destruct (translateLines toLocaleString (splitLines second) 0 ([], []))
    as [bytes2 errors2] eqn:E2.
  cbn [snd fst app] in *.
  split.
  - pose proof (translateLines_errors toLocaleString (splitLines second)
                  (Z.of_nat (length (splitLines first))) (bytes1, errors1)) as H.
    destruct (translateLines toLocaleString (splitLines second) _
                (bytes1, errors1)) as [bytes errors].
    cbn [snd] in *. exact H.
  - intros -> ->. symmetry in H2.
    rewrite (translateLines_clean (splitLines second) _ bytes1)
      by (apply (errorsOf_nil _ 0); exact H2).
    rewrite E2. cbn [fst length Nat.ltb Nat.leb]. rewrite map_app. reflexivity.
Qed.

End Composition.

(** A constant load followed by a push, and an unknown second program. *)
Lemma translate_concatenation_witness :
  translateToBytes enUS "new t = 5
push t" = ([0; 5; 10], [])
  /\ snd (translateToBytes enUS "exit
bad") = ["Unknown instruction (bad) on line 2."%string].
Proof.
  split.
  - apply (translate_concatenation enUS "new t = 5" "push t"); reflexivity.
  - apply (translate_concatenation enUS "exit" "bad").
Defined.

(** ** Constant loads *)

Lemma runInstruction_loadByte (register : GeneralPurposeRegisterName)
    (program : DataView) :
  runInstruction (ofZ (index register)) program = loadByte register program.
Proof. destruct register; reflexivity. Qed.

Lemma runInstruction_loadFloat (register : GeneralPurposeRegisterName)
    (program : DataView) :
  runInstruction (ofZ (3 + index register)) program = loadFloat register program.
Proof. destruct register; reflexivity. Qed.

Lemma index_range (register : GeneralPurposeRegisterName) :
  0 <= index register <= 2.
Proof. destruct register; cbn; lia. Qed.

Lemma set_general_programCounter (register : GeneralPurposeRegisterName)
    (value : number) (rs : Registers) :
  Registers.programCounter (Registers.set register value rs)
  = Registers.programCounter rs.
Proof. destruct register; reflexivity. Qed.

Lemma get_general_set_programCounter (register : GeneralPurposeRegisterName)
    (value : number) (rs : Registers) :
  Registers.get register (Registers.set_programCounter value rs)
  = Registers.get register rs.
Proof. destruct register; reflexivity. Qed.

(** One turn of the loop at a constant load: the immediate is read at
    the counter, which the loop has moved past the opcode. *)
Lemma fetchAndRun_load (program : DataView) (g : Gsx)
    (register : GeneralPurposeRegisterName) (a : Z) :
  Registers.programCounter (registers g) = ofZ a ->
  0 <= a < byteLength program -> byteLength program < 2 ^ 32 - 5 ->
  (byteAt program a = index register ->
     fetchAndRun program g
     = if a + 2 <=? byteLength program
       then Val tt (loaded register
                      (ofZ (DataView.signed8 (byteAt program (a + 1)))) a 1 g)
       else Throw RangeError (fetched a g))
  /\ (byteAt program a = 3 + index register ->
     fetchAndRun program g
     = if a + 5 <=? byteLength program
       then Val tt (loaded register
                      (widen (b32_of_bits (DataView.word32 program (a + 1))))
                      a 4 g)
       else Throw RangeError (fetched a g)).
Proof.
  intros Hpc Ha Hlen.
  assert (Hstep : forall k, 0 <= k <= 4 ->
            toUint32 (add (ofZ (a + 1)) (ofZ k)) = ofZ (a + 1 + k)).
  { intros k Hk. rewrite add_ofZ, toUint32_ofZ by lia.
    unfold clamp. f_equal. lia. }
  assert (Hfetch : toUint32 (ofZ (a + 1)) = ofZ (a + 1)).
  { rewrite toUint32_ofZ by lia. unfold clamp. f_equal. lia. }
  split; intros Hop; rewrite (fetchAndRun_at program g a Hpc Ha ltac:(lia)), Hop.
  - rewrite runInstruction_loadByte. unfold loadByte, fetched. run_monad.
    rewrite Hfetch. unfold DataView.getInt8.
    destruct (Z.leb_spec (a + 2) (byteLength program)) as [Hin|Hout].
    + rewrite (viewIndex_in_range program (ofZ (a + 1)) (a + 1) 1)
        by (try apply ToIndex_ofZ; lia).
      cbv beta iota. cbn [registers]. rewrite set_general_programCounter.
      cbn [Registers.programCounter _programCounter Registers.set_programCounter].
      rewrite Hfetch.
      unfold loaded, withRegister. cbn [registers ram argumentStack jumpStack].
      f_equal. f_equal.
      destruct register, (registers g) as [pc sp js t0 r0 y0];
        cbv [Registers.set Registers.set_programCounter Registers.set_t
             Registers.set_r Registers.set_y
             _programCounter _argumentStackPointer _jumpStackPointer
             _t _r _y];
        rewrite Hstep by lia; rewrite toUint32_ofZ by lia;
        unfold clamp; repeat f_equal; lia.
    + rewrite viewIndex_out_of_range by lia. reflexivity.
  - rewrite runInstruction_loadFloat. unfold loadFloat, fetched. run_monad.
    rewrite Hfetch. unfold DataView.getFloat32.
    destruct (Z.leb_spec (a + 5) (byteLength program)) as [Hin|Hout].
    + rewrite (viewIndex_in_range program (ofZ (a + 1)) (a + 1) 4)
        by (try apply ToIndex_ofZ; lia).
      cbv beta iota. cbn [registers]. rewrite set_general_programCounter.
      cbn [Registers.programCounter _programCounter Registers.set_programCounter].
      rewrite Hfetch.
      unfold loaded, withRegister. cbn [registers ram argumentStack jumpStack].
      f_equal. f_equal.
      destruct register, (registers g) as [pc sp js t0 r0 y0];
        cbv [Registers.set Registers.set_programCounter Registers.set_t
             Registers.set_r Registers.set_y
             _programCounter _argumentStackPointer _jumpStackPointer
             _t _r _y];
        rewrite Hstep by lia; rewrite toUint32_ofZ by lia;
        unfold clamp; repeat f_equal; lia.
    + rewrite viewIndex_out_of_range by lia. reflexivity.
Qed.

Lemma get_loaded (register : GeneralPurposeRegisterName) (value : number)
    (a size : Z) (g : Gsx) :
  0 <= a + 1 + size < 2 ^ 32 ->
  Registers.get register (registers (loaded register value a size g))
  = toFloat32 value
  /\ Registers.programCounter (registers (loaded register value a size g))
     = ofZ (a + 1 + size)
  /\ ram (loaded register value a size g) = ram g
  /\ argumentStack (loaded register value a size g) = argumentStack g
  /\ jumpStack (loaded register value a size g) = jumpStack g.
Proof.
  intros Hpc. unfold loaded, withRegister.
  cbn [registers ram argumentStack jumpStack].
  repeat split.
  - destruct register; reflexivity.
  - cbn. rewrite toUint32_ofZ by lia. unfold clamp. f_equal. lia.
Qed.

(** Property X15. A turn of the loop at a constant-load opcode at offset
    [a]. Opcode 0, 1 or 2: the register receives the byte at [a + 1] as
    a signed integer and the counter becomes [a + 2]. Opcode 3, 4 or 5:
    the register receives the single-precision float of the four bytes
    at [a + 1 .. a + 4], most significant first, and the counter becomes
    [a + 5]. When the program ends before the immediate does, the turn
    raises RangeError with the counter at [a + 1] and no register
    loaded. *)
Theorem load_constant_at (program : DataView) (g : Gsx)
    (register : GeneralPurposeRegisterName) (a : Z) :
  Registers.programCounter (registers g) = ofZ a ->
  0 <= a < byteLength program -> byteLength program < 2 ^ 32 - 5 ->
  (byteAt program a = index register -> a + 2 <= byteLength program ->
     exists g',
       fetchAndRun program g = Val tt g'
       /\ Registers.get register (registers g')
          = toFloat32 (ofZ (DataView.signed8 (byteAt program (a + 1))))
       /\ Registers.programCounter (registers g') = ofZ (a + 2)
       /\ ram g' = ram g /\ argumentStack g' = argumentStack g
       /\ jumpStack g' = jumpStack g)
  /\ (byteAt program a = 3 + index register -> a + 5 <= byteLength program ->
     exists g',
       fetchAndRun program g = Val tt g'
       /\ Registers.get register (registers g')
          = toFloat32 (widen (b32_of_bits (DataView.word32 program (a + 1))))
       /\ Registers.programCounter (registers g') = ofZ (a + 5)
       /\ ram g' = ram g /\ argumentStack g' = argumentStack g
       /\ jumpStack g' = jumpStack g)
  /\ (byteAt program a = index register /\ byteLength program < a + 2
      \/ byteAt program a = 3 + index register /\ byteLength program < a + 5 ->
      fetchAndRun program g = Throw RangeError (fetched a g)).
Proof.
  intros Hpc Ha Hlen.
  destruct (fetchAndRun_load program g register a Hpc Ha Hlen) as [Hbyte Hfloat].
  split; [|split].
  - intros Hop Hin. rewrite (Hbyte Hop).
    destruct (Z.leb_spec (a + 2) (byteLength program)); [|lia].
    eexists. split; [reflexivity|].
    destruct (get_loaded register
                (ofZ (DataView.signed8 (byteAt program (a + 1)))) a 1 g
                ltac:(lia)) as (H1 & H2 & H3 & H4 & H5).
    replace (a + 2) with (a + 1 + 1) by lia.
    repeat split; assumption.
  - intros Hop Hin. rewrite (Hfloat Hop).
    destruct (Z.leb_spec (a + 5) (byteLength program)); [|lia].
    eexists. split; [reflexivity|].
    destruct (get_loaded register
                (widen (b32_of_bits (DataView.word32 program (a + 1)))) a 4 g
                ltac:(lia)) as (H1 & H2 & H3 & H4 & H5).
    replace (a + 5) with (a + 1 + 4) by lia.
    repeat split; assumption.
  - intros [[Hop Hout]|[Hop Hout]].
    + rewrite (Hbyte Hop).
      destruct (Z.leb_spec (a + 2) (byteLength program)); [lia|reflexivity].
    + rewrite (Hfloat Hop).
      destruct (Z.leb_spec (a + 5) (byteLength program)); [lia|reflexivity].
Qed.

(** The bytecode [0] alone, which the assembler gives for the line
    [constructor]: a load of T without its immediate. *)
Lemma load_constant_at_witness :
  fetchAndRun (DataView.ofBytes [0]) Gsx_new
  = Throw RangeError (fetched 0 Gsx_new)
  /\ exists g',
       fetchAndRun (DataView.ofBytes [1; 251]) Gsx_new = Val tt g'
       /\ Registers.get reg_r (registers g') = toFloat32 (ofZ (-5)).
Proof.
  split.
  - apply (load_constant_at (DataView.ofBytes [0]) Gsx_new reg_t 0);
      [reflexivity|cbn; lia|cbn; lia|].
    left. split; [reflexivity|cbn; lia].
  - destruct (load_constant_at (DataView.ofBytes [1; 251]) Gsx_new reg_r 0)
      as ((g' & Hrun & Hget & _) & _);
      [reflexivity|cbn; lia|cbn; lia|reflexivity|cbn; lia|].
    exists g'. split; [exact Hrun|exact Hget].
Defined.

Section Constants.
Variable toLocaleString : Z -> string.

(** Property X16. A line that is a constant assignment, assembled and
    then run from offset 0: the register of the line ends with the
    signed byte of the constant (byte encoding) or with the constant
    rounded to single precision (float encoding), so with [k] itself
    when the constant is an integer [k] of magnitude below 2^24; the
    counter ends at the number of bytes emitted, and the RAM and the
    stacks are unchanged. *)
Theorem assembled_constant_loads (line constant : string)
    (register : GeneralPurposeRegisterName) (g : Gsx) :
  matchConstantAssignment (normalizeMnemonic line) = Some (register, constant) ->
  Registers.programCounter (registers g) = ofZ 0 ->
  let value := parseFloat constant in
  let isConstantAByte :=
    ge value INT8_MIN && le value INT8_MAX
    && strict_eq value (parseInt10 constant) in
  exists emitted g',
    translateLine toLocaleString 0 line ([], []) = (emitted, [])
    /\ fetchAndRun (DataView.ofBytes (map ToUint8 emitted)) g = Val tt g'
    /\ Registers.get register (registers g')
       = (if isConstantAByte then ofZ (DataView.signed8 (ToUint8 value))
          else toFloat32 value)
    /\ (forall k, value = ofZ k -> - 2 ^ 24 < k < 2 ^ 24 ->
        Registers.get register (registers g') = ofZ k)
    /\ Registers.programCounter (registers g') = ofZ (Z.of_nat (length emitted))
    /\ ram g' = ram g /\ argumentStack g' = argumentStack g
    /\ jumpStack g' = jumpStack g.
Proof.
  intros Hm Hpc value isConstantAByte.
  assert (Hline : exists emitted,
    translateLine toLocaleString 0 line ([], []) = (emitted, [])
    /\ map ToUint8 emitted
       = if isConstantAByte
         then [index register; ToUint8 value]
         else (3 + index register)
                :: DataView.bytes32 (bits_of_b32 (round32 value))).
  { unfold translateLine.
    rewrite (lookupKeyable_constant _ _ Hm).
    unfold tryToGetBytecodeForConstantAssignment. rewrite Hm.
    fold value. fold isConstantAByte.
    destruct (matchConstantAssignment_inv _ _ _ Hm) as (c & Hs & _).
    rewrite Hs. cbn [String.length append Nat.eqb].
    destruct isConstantAByte.
    - destruct register; eexists; (split; [reflexivity|reflexivity]).
    - destruct register; eexists; (split; [reflexivity|]);
        cbn [map app]; rewrite getFloatBytes_bytes; reflexivity. }
  destruct Hline as (emitted & Hline & Hbytes).
  exists emitted.
  pose proof (index_range register) as Hidx.
  assert (Hlen : length emitted = length (map ToUint8 emitted))
    by (rewrite length_map; reflexivity).
  set (program := DataView.ofBytes (map ToUint8 emitted)).
  pose proof (round32_valid value) as Hvalid.
  pose proof (bits_of_b32_range _ Hvalid) as Hw.
  destruct isConstantAByte eqn:Hbyte.
  - assert (Hrun : fetchAndRun program g
                   = Val tt (loaded register
                               (ofZ (DataView.signed8 (ToUint8 value))) 0 1 g)).
    { destruct (fetchAndRun_load program g register 0 Hpc) as [Hload _].
      - unfold program. rewrite Hbytes. cbn. lia.
      - unfold program. rewrite Hbytes. cbn. lia.
      - rewrite Hload.
        + unfold program. rewrite Hbytes. reflexivity.
        + unfold program. rewrite Hbytes. reflexivity. }
    eexists. split; [exact Hline|]. split; [exact Hrun|].
    destruct (get_loaded register (ofZ (DataView.signed8 (ToUint8 value)))
                0 1 g ltac:(lia)) as (Hget & Hcounter & Hram & Has & Hjs).
    pose proof (signed8_range (ToUint8 value) (ToUint8_range value)) as Hs.
    assert (Hfix : toFloat32 (ofZ (DataView.signed8 (ToUint8 value)))
                   = ofZ (DataView.signed8 (ToUint8 value)))
      by (apply fround_ofZ; lia).
    rewrite Hlen, Hbytes.
    repeat split; try assumption.
    + rewrite Hget. exact Hfix.
    + intros k Ek Hk. rewrite Hget, Hfix. f_equal.
      unfold isConstantAByte in Hbyte.
      apply andb_prop in Hbyte. destruct Hbyte as [Hrange _].
      apply andb_prop in Hrange. destruct Hrange as [Hge Hle].
      rewrite Ek in Hge, Hle. unfold INT8_MIN, INT8_MAX in *.
      rewrite ge_ofZ in Hge by lia. rewrite le_ofZ in Hle by lia.
      rewrite Ek. unfold ToUint8. rewrite truncZ_ofZ by lia.
      apply signed8_mod. lia.
  - assert (Hrun : fetchAndRun program g
                   = Val tt (loaded register (fround value) 0 4 g)).
    { destruct (fetchAndRun_load program g register 0 Hpc) as [_ Hload].
      - unfold program. rewrite Hbytes. cbn. lia.
      - unfold program. rewrite Hbytes. cbn. lia.
      - rewrite Hload.
        + replace (0 + 5 <=? byteLength program) with true
            by (unfold program; rewrite Hbytes; reflexivity).
          replace (DataView.word32 program (0 + 1))
            with (bits_of_b32 (round32 value)).
          * rewrite b32_of_bits_of_b32 by assumption. reflexivity.
          * unfold program. rewrite Hbytes. unfold DataView.word32.
            cbn [DataView.ofBytes byteAt DataView.bytes32 nth Z.ltb Z.compare
                 Z.add Z.to_nat Pos.to_nat Pos.iter_op Init.Nat.add Pos.add
                 Pos.succ].
            symmetry. apply bytes32_word. assumption.
        + unfold program. rewrite Hbytes. reflexivity. }
    eexists. split; [exact Hline|]. split; [exact Hrun|].
    destruct (get_loaded register (fround value) 0 4 g ltac:(lia))
      as (Hget & Hcounter & Hram & Has & Hjs).
    rewrite Hlen, Hbytes.
    repeat split; try assumption.
    + rewrite Hget. apply fround_idempotent.
    + intros k Ek Hk. rewrite Hget. unfold toFloat32.
      rewrite fround_idempotent, Ek. apply fround_ofZ. assumption.
Qed.

End Constants.

(** The lines [new y = 1000] (float encoding) and [new t = -0], whose
    byte encoding loads the positive zero. *)
Lemma assembled_constant_loads_witness :
  (exists emitted g',
     translateLine enUS 0 "new y = 1000" ([], []) = (emitted, [])
     /\ fetchAndRun (DataView.ofBytes (map ToUint8 emitted)) Gsx_new = Val tt g'
     /\ Registers.get reg_y (registers g') = ofZ 1000)
  /\ (exists emitted g',
     translateLine enUS 0 "new t = -0" ([], []) = (emitted, [])
     /\ fetchAndRun (DataView.ofBytes (map ToUint8 emitted)) Gsx_new = Val tt g'
     /\ Registers.get reg_t (registers g') = ofZ 0
     /\ parseFloat "-0" = S754_zero true).
Proof.
  split.
  - destruct (assembled_constant_loads enUS "new y = 1000" "1000" reg_y Gsx_new)
      as (emitted & g' & Hline & Hrun & _ & Hk & _);
      [reflexivity|reflexivity|].
    exists emitted, g'. split; [exact Hline|]. split; [exact Hrun|].
    apply Hk; [reflexivity|lia].
  - destruct (assembled_constant_loads enUS "new t = -0" "-0" reg_t Gsx_new)
      as (emitted & g' & Hline & Hrun & Hget & _);
      [reflexivity|reflexivity|].
    exists emitted, g'. split; [exact Hline|]. split; [exact Hrun|].
    split; [exact Hget|reflexivity].
Defined.

(** ** The stacks *)

(** Property X17. [push] of a register followed by [pop] into a
    register, with the stack pointer AS at [n]: below the top of the
    stack ([n] at most 254) the target receives the value pushed (the
    source's value in single precision) and AS is [n] again; with the
    stack full ([n] = 255) the push overwrites the last element without
    moving AS, and the pop then reads the element at 254: the value
    pushed is not the one popped. The RAM and the jump stack are
    unchanged. *)
Theorem push_then_pop (g : Gsx) (program : DataView)
    (source target : GeneralPurposeRegisterName) (n : Z) :
  Registers.argumentStackPointer (registers g) = ofZ n ->
  0 <= n <= 255 ->
  stacksWellFormed g ->
  let pushed := toFloat32 (Registers.get source (registers g)) in
  exists g1 g2,
    push source program g = Val tt g1
    /\ pop target program g1 = Val tt g2
    /\ argumentStack g2 = <[Z.to_nat n := pushed]> (argumentStack g)
    /\ ram g2 = ram g /\ jumpStack g2 = jumpStack g
    /\ (n <= 254 ->
        Registers.get target (registers g2) = pushed
        /\ Registers.argumentStackPointer (registers g2) = ofZ n)
    /\ (n = 255 ->
        Registers.get target (registers g2)
        = toFloat32 (default NaN (argumentStack g !! 254%nat))
        /\ Registers.argumentStackPointer (registers g2) = ofZ 254).
Proof.
  intros Hsp Hn (Hlen & _ & _) pushed.
  assert (Hup : toUint8 (add (ofZ n) (ofZ 1)) = ofZ (Z.min 255 (n + 1))).
  { rewrite add_ofZ, toUint8_ofZ, clamp_min by lia. reflexivity. }
  assert (Hdown : toUint8 (sub (ofZ (Z.min 255 (n + 1))) (ofZ 1))
                  = ofZ (Z.min 254 n)).
  { rewrite sub_ofZ, toUint8_ofZ by lia. unfold clamp. f_equal. lia. }
  eexists. eexists. split; [reflexivity|].
  unfold push, pop. run_monad. rewrite Hsp, typedIndex_ofZ by lia.
  rewrite Hup, Hdown, typedIndex_ofZ by lia.
  split; [reflexivity|].
  cbn [registers ram argumentStack jumpStack].
  split; [reflexivity|]. split; [reflexivity|]. split; [reflexivity|].
  assert (Hpointer : forall value,
            Registers.argumentStackPointer
              (Registers.set target value
                 (Registers.set_argumentStackPointer
                    (sub (ofZ (Z.min 255 (n + 1))) (ofZ 1))
                    (Registers.set_argumentStackPointer (add (ofZ n) (ofZ 1))
                       (registers g))))
            = ofZ (Z.min 254 n)).
  { intros value. rewrite <- Hdown. destruct target; reflexivity. }
  assert (Hvalue : forall value rs,
            Registers.get target (Registers.set target value rs)
            = toFloat32 value).
  { intros value rs. destruct target; reflexivity. }
  rewrite Hvalue.
  split.
  - intros Hle. rewrite Hpointer, Z.min_r by lia.
    rewrite list_lookup_insert_eq by lia.
    split; [|reflexivity].
    unfold pushed, toFloat32. apply fround_idempotent.
  - intros ->. rewrite Hpointer. change (Z.min 254 255) with 254.
    rewrite list_lookup_insert_ne by (cbn; lia).
    change (Z.to_nat 254) with 254%nat.
    split; [|reflexivity].
    destruct (argumentStack g !! 254%nat); reflexivity.
Qed.

Lemma Gsx_new_stacksWellFormed : stacksWellFormed Gsx_new.
Proof.
  unfold stacksWellFormed, Gsx_new. cbn [argumentStack jumpStack].
  rewrite !length_replicate. repeat split.
  apply Forall_replicate. lia.
Qed.

(** The value 7 pushed from T on a fresh machine and popped into Y. *)
Lemma push_then_pop_witness :
  exists g1 g2,
    push reg_t exitProgram (withT (ofZ 7) Gsx_new) = Val tt g1
    /\ pop reg_y exitProgram g1 = Val tt g2
    /\ Registers.get reg_y (registers g2) = ofZ 7
    /\ Registers.argumentStackPointer (registers g2) = ofZ 0.
Proof.
  destruct (push_then_pop (withT (ofZ 7) Gsx_new) exitProgram reg_t reg_y 0)
    as (g1 & g2 & Hpush & Hpop & _ & _ & _ & Hbelow & _);
    [reflexivity|lia
    |split; [reflexivity|split; [reflexivity|apply Forall_replicate; lia]]|].
  exists g1, g2. split; [exact Hpush|]. split; [exact Hpop|].
  apply Hbelow. lia.
Defined.

Lemma exit_inside_function (program : DataView) (g : Gsx) (j : Z) :
  Registers.jumpStackPointer (registers g) = ofZ j -> 1 <= j <= 255 ->
  exit program g
  = Val tt {| registers :=
                Registers.set_programCounter
                  (match jumpStack g !! Z.to_nat (j - 1) with
                   | Some address => ofZ address
                   | None => NaN
                   end)
                  (Registers.set_jumpStackPointer (ofZ (j - 1)) (registers g));
              ram := ram g; argumentStack := argumentStack g;
              jumpStack := jumpStack g |}.
Proof.
  intros Hjs Hj. unfold exit. run_monad.
  rewrite Hjs, strict_eq_ofZ by lia.
  destruct (Z.eqb_spec j 0) as [|_]; [lia|].
  rewrite Hjs, sub_ofZ by lia.
  rewrite toUint8_ofZ by lia.
  replace (clamp 0 255 (j - 1)) with (j - 1) by (unfold clamp; lia).
  rewrite typedIndex_ofZ by lia. reflexivity.
Qed.

(** Property X18. A call and the return from it: with the opcode of
    [run X] at offset [a], X holding the offset [target] of an [exit]
    opcode and the jump stack pointer JS at [j], the first turn of the
    loop jumps to [target] and the second returns. With [j] at most 254
    the counter is then [a + 2] and JS is [j] again; with the jump stack
    full ([j] = 255) the call overwrites the last element without moving
    JS, and the return goes to the address stored at 254, that of an
    earlier call. The RAM, the argument stack and the registers T, R and
    Y are unchanged. *)
Theorem call_then_exit (program : DataView) (g : Gsx)
    (register : GeneralPurposeRegisterName) (a target j : Z) :
  Registers.programCounter (registers g) = ofZ a ->
  0 <= a < byteLength program -> byteLength program < 2 ^ 32 - 2 ->
  byteAt program a = 7 + index register ->
  Registers.get register (registers g) = ofZ target ->
  0 <= target < byteLength program ->
  byteAt program target = 6 ->
  Registers.jumpStackPointer (registers g) = ofZ j -> 0 <= j <= 255 ->
  stacksWellFormed g ->
  exists g1 g2,
    fetchAndRun program g = Val tt g1
    /\ Registers.programCounter (registers g1) = ofZ target
    /\ fetchAndRun program g1 = Val tt g2
    /\ jumpStack g2 = <[Z.to_nat j := a + 2]> (jumpStack g)
    /\ ram g2 = ram g /\ argumentStack g2 = argumentStack g
    /\ (forall other : GeneralPurposeRegisterName,
          Registers.get other (registers g2) = Registers.get other (registers g))
    /\ (j <= 254 ->
        Registers.programCounter (registers g2) = ofZ (a + 2)
        /\ Registers.jumpStackPointer (registers g2) = ofZ j)
    /\ (j = 255 ->
        Registers.programCounter (registers g2)
        = ofZ (default 0 (jumpStack g !! 254%nat))
        /\ Registers.jumpStackPointer (registers g2) = ofZ 254).
Proof.
  intros Hpc Ha Hlen Hop Hreg Htarget Hexit Hjs Hj (_ & Hstack & Hrange).
  assert (Hup : toUint8 (add (ofZ j) (ofZ 1)) = ofZ (Z.min 255 (j + 1))).
  { rewrite add_ofZ, toUint8_ofZ, clamp_min by lia. reflexivity. }
  assert (Hfetch : forall k, 0 <= k < byteLength program ->
            toUint32 (ofZ (k + 1)) = ofZ (k + 1)).
  { intros k Hk. rewrite toUint32_ofZ by lia. unfold clamp. f_equal. lia. }
  assert (Hjump : toUint32 (ofZ target) = ofZ target).
  { rewrite toUint32_ofZ by lia. unfold clamp. f_equal. lia. }
  assert (Hreturn : ToUint32 (add (ofZ 1) (ofZ (a + 1))) = a + 2).
  { rewrite add_ofZ by lia. unfold ToUint32. rewrite truncZ_ofZ by lia.
    replace (1 + (a + 1)) with (a + 2) by lia.
    apply Z.mod_small. lia. }
  set (g1 := {| registers :=
                  Registers.set_programCounter (ofZ target)
                    (Registers.set_jumpStackPointer (ofZ (j + 1))
                       (registers (fetched a g)));
                ram := ram g; argumentStack := argumentStack g;
                jumpStack := <[Z.to_nat j := a + 2]> (jumpStack g) |}).
  assert (Hfirst : fetchAndRun program g = Val tt g1).
  { rewrite (fetchAndRun_at program g a Hpc Ha ltac:(lia)), Hop.
    rewrite runInstruction_run. unfold run, fetched. run_monad.
    change (_jumpStackPointer (registers g))
      with (Registers.jumpStackPointer (registers g)).
    rewrite Hjs, typedIndex_ofZ by lia.
    rewrite (Hfetch a Ha), Hreturn.
    assert (Hsame : forall value rs,
              Registers.get register (Registers.set_jumpStackPointer value rs)
              = Registers.get register rs)
      by (intros ? ?; destruct register; reflexivity).
    rewrite Hsame, get_general_set_programCounter, Hreg.
    unfold g1, fetched. cbn [registers].
    rewrite add_ofZ by lia. reflexivity. }
  assert (Hpc1 : Registers.programCounter (registers g1) = ofZ target).
  { unfold g1. cbn [registers Registers.programCounter
                    Registers.set_programCounter _programCounter].
    exact Hjump. }
  assert (Hjs1 : Registers.jumpStackPointer (registers g1)
                 = ofZ (Z.min 255 (j + 1))).
  { unfold g1, fetched. cbn. rewrite toUint8_ofZ, clamp_min by lia.
    reflexivity. }
  exists g1. eexists. split; [exact Hfirst|]. split; [exact Hpc1|].
  rewrite (fetchAndRun_at program g1 target Hpc1 Htarget ltac:(lia)), Hexit.
  rewrite runInstruction_exit.
  assert (Hjsf : Registers.jumpStackPointer (registers (fetched target g1))
                 = ofZ (Z.min 255 (j + 1))) by exact Hjs1.
  rewrite (exit_inside_function program _ _ Hjsf) by lia.
  split; [reflexivity|].
  cbn [registers ram argumentStack jumpStack].
  unfold fetched at 1 2 3 4. cbn [ram argumentStack jumpStack].
  unfold g1 at 1 2 3 4. cbn [ram argumentStack jumpStack].
  split; [reflexivity|]. split; [reflexivity|]. split; [reflexivity|].
  split; [intros other; unfold g1, fetched; destruct other; reflexivity|].
  assert (Hdec : toUint8 (ofZ (Z.min 255 (j + 1) - 1)) = ofZ (Z.min 254 j)).
  { rewrite toUint8_ofZ by lia. unfold clamp. f_equal. lia. }
  change (jumpStack (fetched target g1))
    with (<[Z.to_nat j := a + 2]> (jumpStack g)).
  cbn [Registers.programCounter Registers.set_programCounter _programCounter
       Registers.jumpStackPointer Registers.set_jumpStackPointer
       _jumpStackPointer].
  rewrite Hdec.
  split.
  - intros Hle.
    replace (Z.to_nat (Z.min 255 (j + 1) - 1)) with (Z.to_nat j) by lia.
    rewrite list_lookup_insert_eq by lia.
    split.
    + rewrite toUint32_ofZ by lia. unfold clamp. f_equal. lia.
    + f_equal. lia.
  - intros ->. change (Z.to_nat (Z.min 255 (255 + 1) - 1)) with 254%nat.
    rewrite list_lookup_insert_ne by (cbn; lia).
    split; [|reflexivity].
    destruct (jumpStack g !! 254%nat) as [address|] eqn:E; cbn [default].
    + rewrite Forall_lookup in Hrange. specialize (Hrange _ _ E).
      cbv beta in Hrange.
      rewrite toUint32_ofZ by lia. unfold clamp, id. f_equal. lia.
    + apply lookup_ge_None in E. lia.
Qed.

(** The bytecode [run t; exit] with T = 1 on a fresh machine: the return
    leaves the counter at 2. *)
Lemma call_then_exit_witness :
  exists g1 g2,
    fetchAndRun (DataView.ofBytes [7; 6]) (withT (ofZ 1) Gsx_new) = Val tt g1
    /\ fetchAndRun (DataView.ofBytes [7; 6]) g1 = Val tt g2
    /\ Registers.programCounter (registers g2) = ofZ 2
    /\ Registers.jumpStackPointer (registers g2) = ofZ 0.
Proof.
  destruct (call_then_exit (DataView.ofBytes [7; 6]) (withT (ofZ 1) Gsx_new)
              reg_t 0 1 0)
    as (g1 & g2 & Hfirst & _ & Hsecond & _ & _ & _ & _ & Hbelow & _);
    [reflexivity|cbn; lia|cbn; lia|reflexivity|reflexivity|cbn; lia
    |reflexivity|reflexivity|lia
    |split; [reflexivity|split; [reflexivity|apply Forall_replicate; lia]]|].
  exists g1, g2. split; [exact Hfirst|]. split; [exact Hsecond|].
  apply Hbelow. lia.
Defined.

(** ** Invariants of a run *)

Section Keeps.
Context {A B : Type} (I : Gsx -> Prop).

Lemma keeps_bind (m : M A) (k : A -> M B) :
  keeps I m -> (forall a, keeps I (k a)) -> keeps I (bind m k).
Proof.
  intros Hm Hk g Hg. unfold bind. specialize (Hm g Hg).
  destruct (m g) as [a g1|e g1]; [apply Hk, Hm|exact Hm].
Qed.

Lemma keeps_same (m : M A) :
  (forall g, machine (m g) = g) -> keeps I m.
Proof. intros H g Hg. rewrite H. exact Hg. Qed.

End Keeps.

Lemma keeps_modifyRegisters (f : Registers -> Registers) :
  keeps stacksWellFormed (modifyRegisters f).
Proof. intros g Hg. exact Hg. Qed.

Lemma keeps_jumpStack_set (index value : number) :
  keeps stacksWellFormed (jumpStack_set index value).
Proof.
  intros g (Ha & Hj & Hr). unfold jumpStack_set, stacksWellFormed.
  cbn [machine argumentStack jumpStack].
  destruct (typedIndex index) as [i|]; [|repeat split; assumption].
  split; [assumption|]. split; [rewrite length_insert; assumption|].
  apply Forall_insert; [assumption|].
  unfold ToUint32. apply Z.mod_pos_bound. reflexivity.
Qed.

Lemma keeps_argumentStack_set (index value : number) :
  keeps stacksWellFormed (argumentStack_set index value).
Proof.
  intros g (Ha & Hj & Hr). unfold argumentStack_set, stacksWellFormed.
  cbn [machine argumentStack jumpStack].
  destruct (typedIndex index) as [i|]; repeat split; try assumption.
  rewrite length_insert. assumption.
Qed.

Lemma keeps_ram_get read address : keeps stacksWellFormed (ram_get read address).
Proof.
  apply keeps_same. intros g. unfold ram_get.
  destruct (read (ram g) address); reflexivity.
Qed.

Lemma keeps_ram_set write address value :
  keeps stacksWellFormed (ram_set write address value).
Proof.
  intros g Hg. unfold ram_set.
  destruct (write (ram g) address value); exact Hg.
Qed.

Lemma keeps_liftE {A} (x : exn + A) : keeps stacksWellFormed (liftE x).
Proof. apply keeps_same. intros g. destruct x; reflexivity. Qed.

Ltac keeps_step :=
  first
    [ apply keeps_bind; [|intros ?]
    | apply keeps_modifyRegisters
    | apply keeps_jumpStack_set
    | apply keeps_argumentStack_set
    | apply keeps_ram_get
    | apply keeps_ram_set
    | apply keeps_liftE
    | apply keeps_same; intros ?; reflexivity ].

Ltac keeps_stacks :=
  cbv [programCounter set_programCounter argumentStackPointer
       set_argumentStackPointer jumpStackPointer set_jumpStackPointer
       registers_get registers_set advance];
  repeat keeps_step.

Lemma keepsStacks_loadByte r : keepsStacks (loadByte r).
Proof. intros program. unfold loadByte. keeps_stacks. Qed.

Lemma keepsStacks_loadFloat r : keepsStacks (loadFloat r).
Proof. intros program. unfold loadFloat. keeps_stacks. Qed.

Lemma keepsStacks_exit : keepsStacks exit.
Proof.
  intros program. unfold exit. apply keeps_bind; [keeps_stacks|intros js].
  destruct (strict_eq js (ofZ 0)); keeps_stacks.
Qed.

Lemma keepsStacks_run r : keepsStacks (run r).
Proof. intros program. unfold run. keeps_stacks. Qed.

Lemma keepsStacks_push r : keepsStacks (push r).
Proof. intros program. unfold push. keeps_stacks. Qed.

Lemma keepsStacks_pop r : keepsStacks (pop r).
Proof. intros program. unfold pop. keeps_stacks. Qed.

Lemma keepsStacks_readByte v a : keepsStacks (readByte v a).
Proof. intros program. unfold readByte. keeps_stacks. Qed.

Lemma keepsStacks_readFloat v a : keepsStacks (readFloat v a).
Proof. intros program. unfold readFloat. keeps_stacks. Qed.

Lemma keepsStacks_writeByte a v : keepsStacks (writeByte a v).
Proof. intros program. unfold writeByte. keeps_stacks. Qed.

Lemma keepsStacks_writeFloat a v : keepsStacks (writeFloat a v).
Proof. intros program. unfold writeFloat. keeps_stacks. Qed.

Lemma keepsStacks_arith op r a b : keepsStacks (arith op r a b).
Proof. intros program. unfold arith. keeps_stacks. Qed.

Lemma table_keepsStacks : Forall keepsStacks (instructionByBytecode tables).
Proof.
  unfold tables.
  assert (H : preserves keepsStacks moduleBody).
  { unfold moduleBody, threeOperand, targetInOperand.
    repeat preserves_step.
    all: auto using keepsStacks_loadByte, keepsStacks_loadFloat,
        keepsStacks_exit, keepsStacks_run, keepsStacks_push,
        keepsStacks_pop, keepsStacks_readByte, keepsStacks_readFloat,
        keepsStacks_writeByte, keepsStacks_writeFloat, keepsStacks_arith. }
  apply H. constructor.
Qed.

Lemma keeps_fetchAndRun (program : DataView) :
  keeps stacksWellFormed (fetchAndRun program).
Proof.
  unfold fetchAndRun.
  apply keeps_bind; [keeps_stacks|intros pc].
  apply keeps_bind; [keeps_stacks|intros b].
  apply keeps_bind; [keeps_stacks|intros pc'].
  apply keeps_bind; [keeps_stacks|intros _].
  unfold runInstruction.
  destruct (typedIndex b) as [i|]; [|keeps_stacks].
  destruct (instructionByBytecode tables !! i) as [instruction|] eqn:E;
    [|keeps_stacks].
  pose proof table_keepsStacks as H. rewrite Forall_lookup in H.
  apply (H i instruction E).
Qed.

Section Invariant.
Variable toLocaleString : Z -> string.

(** Property X19. The two stacks keep their 256 elements, and the jump
    stack keeps unsigned 32-bit elements, whatever is run: the stacks of
    a new machine are so, and [reset] and [runProgram] on any bytecode
    keep them so, whether the run returns or raises. An index outside a
    stack never extends it. *)
Theorem run_keeps_stacks (turns : nat) (program : DataView) (g : Gsx)
    (o : outcome unit) :
  stacksWellFormed Gsx_new
  /\ (stacksWellFormed g -> stacksWellFormed (machine (reset g)))
  /\ (stacksWellFormed g ->
      runProgram toLocaleString turns program g = Some o ->
      stacksWellFormed (machine o)).
Proof.
  split; [exact Gsx_new_stacksWellFormed|]. split; [intros Hg; exact Hg|].
  intros Hg. unfold runProgram.
  destruct (ge _ _); [intros [= <-]; exact Hg|].
  revert g Hg. induction turns as [|turns IH]; intros g Hg H;
    cbn [whileLoop] in H.
  - destruct (lt _ _); [discriminate|]. injection H as <-. exact Hg.
  - destruct (lt _ _); [|injection H as <-; exact Hg].
    pose proof (keeps_fetchAndRun program g Hg) as Hstep.
    destruct (fetchAndRun program g) as [[] g1|e g1].
    + apply (IH g1 Hstep H).
    + injection H as <-. exact Hstep.
Qed.

End Invariant.

(** The program [exit] on a fresh machine. *)
Lemma run_keeps_stacks_witness : stacksWellFormed afterExit.
Proof.
  destruct (run_keeps_stacks enUS 1 exitProgram Gsx_new (Val tt afterExit))
    as (_ & _ & Hrun).
  apply Hrun; [|reflexivity].
  split; [reflexivity|split; [reflexivity|apply Forall_replicate; lia]].
Defined.

(** ** The exceptions of a run *)

Lemma viewIndex_inv (v : DataView) (address : number) (size i : Z) :
  DataView.viewIndex v address size = inr i ->
  0 <= i /\ i + size <= byteLength v.
Proof.
  unfold DataView.viewIndex, ToIndex.
  destruct address as [s|s| |s m e]; try discriminate;
    cbv zeta;
    match goal with
    | |- context [truncZ ?x] => generalize (truncZ x); intros n
    end;
    destruct (Z.ltb_spec n 0); cbn [orb]; try discriminate;
    destruct (2 ^ 53 - 1 <? n); try discriminate;
    destruct (Z.ltb_spec (byteLength v) (n + size)); try discriminate;
    intros [= <-]; lia.
Qed.

Lemma table_length : length (instructionByBytecode tables) = 178%nat.
Proof. reflexivity. Qed.

Lemma raises_runInstruction_byte (byte : Z) (program : DataView) :
  0 <= byte < 178 ->
  raises (fun e => e = RangeError) (runInstruction (ofZ byte) program).
Proof.
  intros Hb. unfold runInstruction. rewrite typedIndex_ofZ by lia.
  destruct (instructionByBytecode tables !! Z.to_nat byte)
    as [instruction|] eqn:E.
  - pose proof table_rangeErrorOnly as H. rewrite Forall_lookup in H.
    apply (H _ instruction E).
  - apply lookup_ge_None_1 in E. pose proof table_length as Hl.
    unfold Instruction in *. lia.
Qed.

Lemma fetchAndRun_exceptions (program : DataView) :
  raises (fun e => e = RangeError
                   \/ (e = TypeError
                       /\ exists a, 0 <= a < byteLength program
                                    /\ ~ hasHandler program a))
    (fetchAndRun program).
Proof.
  intros g e g' H. unfold fetchAndRun in H. revert H. run_monad.
  unfold DataView.getUint8.
  destruct (DataView.viewIndex program _ 1) as [e1|a] eqn:Ea.
  - intros [= <- _]. left. eapply viewIndex_RangeError, Ea.
  - cbv beta iota. intros H.
    destruct (viewIndex_inv _ _ _ _ Ea) as [Hlo Hhi].
    destruct (Z.le_gt_cases 0 (byteAt program a)) as [Hnn|Hneg];
      [destruct (Z.lt_ge_cases (byteAt program a) 178) as [Hlt|Hge]|].
    + left. eapply (raises_runInstruction_byte (byteAt program a)), H. lia.
    + destruct (raises_runInstruction _ _ _ _ _ H) as [->| ->];
        [left; reflexivity|right].
      split; [reflexivity|]. exists a. unfold hasHandler. lia.
    + destruct (raises_runInstruction _ _ _ _ _ H) as [->| ->];
        [left; reflexivity|right].
      split; [reflexivity|]. exists a. unfold hasHandler. lia.
Qed.

Section Exceptions.
Variable toLocaleString : Z -> string.

(** Property X20. A run that raises, raises one of three exceptions: the
    error of a program that is too large, with the machine untouched; a
    RangeError (a read or write outside the program or the RAM); or a
    TypeError, and then some byte of the program is not an opcode of the
    table (it is 178 or more). A program whose bytes are all below 178
    raises nothing but RangeError. *)
Theorem run_exceptions (turns : nat) (program : DataView) (g g' : Gsx)
    (e : exn) :
  runProgram toLocaleString turns program g = Some (Throw e g') ->
  (e = programTooLarge toLocaleString /\ g' = g
   /\ ge (ofZ (byteLength program)) (ofZ MAX_PROGRAM_SIZE) = true)
  \/ e = RangeError
  \/ (e = TypeError
      /\ exists a, 0 <= a < byteLength program /\ ~ hasHandler program a).
Proof.
  unfold runProgram.
  destruct (ge _ _) eqn:Esize.
  - intros [= <- <-]. left. repeat split.
  - intros H. right.
    revert g H. induction turns as [|turns IH]; intros g H;
      cbn [whileLoop] in H.
    + destruct (lt _ _); discriminate.
    + destruct (lt _ _); [|discriminate].
      destruct (fetchAndRun program g) as [[] g1|e1 g1] eqn:E.
      * eapply IH, H.
      * injection H as -> ->. eapply fetchAndRun_exceptions, E.
Qed.

End Exceptions.

(** The bytecode [178], and the bytecode [0] (a load without its
    immediate). *)
Lemma run_exceptions_witness :
  runProgram enUS 1 (DataView.ofBytes [178]) Gsx_new
  = Some (Throw TypeError (fetched 0 Gsx_new))
  /\ runProgram enUS 1 (DataView.ofBytes [0]) Gsx_new
     = Some (Throw RangeError (fetched 0 Gsx_new))
  /\ ((TypeError = programTooLarge enUS /\ fetched 0 Gsx_new = Gsx_new
       /\ ge (ofZ (byteLength (DataView.ofBytes [178]))) (ofZ MAX_PROGRAM_SIZE)
          = true)
      \/ TypeError = RangeError
      \/ (TypeError = TypeError
          /\ exists a, 0 <= a < byteLength (DataView.ofBytes [178])
                       /\ ~ hasHandler (DataView.ofBytes [178]) a)).
Proof.
  split; [reflexivity|]. split; [reflexivity|].
  apply (run_exceptions enUS 1 (DataView.ofBytes [178]) Gsx_new
           (fetched 0 Gsx_new) TypeError).
  reflexivity.
Defined.

(** ** Programs without calls *)

Lemma advances_same (instruction : Instruction) :
  (forall program g,
     match instruction program g with
     | Val _ g' => Registers.programCounter (registers g')
                   = Registers.programCounter (registers g)
     | Throw _ _ => True
     end) ->
  advances instruction.
Proof.
  intros H program g p Hpc Hp. specialize (H program g).
  destruct (instruction program g); [|exact I].
  exists 0. split; [lia|]. rewrite H, Hpc. f_equal. lia.
Qed.

Lemma advances_load (k : Z) (register : GeneralPurposeRegisterName)
    (read : DataView -> number -> exn + number) :
  0 <= k <= 4 ->
  advances (fun programBytecode =>
              pc <- programCounter ;;
              value <- liftE (read programBytecode pc) ;;
              registers_set register value ;;;
              advance k).
Proof.
  intros Hk program g p Hpc Hp. run_monad.
  destruct (read program _); [exact I|].
  cbv beta iota. exists k. split; [assumption|].
  cbn [registers]. rewrite set_general_programCounter, Hpc.
  cbn [Registers.programCounter Registers.set_programCounter _programCounter].
  rewrite add_ofZ, toUint32_ofZ by lia. unfold clamp. f_equal. lia.
Qed.

Lemma advances_loadByte r : advances (loadByte r).
Proof. apply (advances_load 1); lia. Qed.

Lemma advances_loadFloat r : advances (loadFloat r).
Proof. apply (advances_load 4); lia. Qed.

Lemma advances_push r : advances (push r).
Proof. apply advances_same. intros program g. reflexivity. Qed.

Lemma advances_pop r : advances (pop r).
Proof. apply advances_same. intros program g. destruct r; reflexivity. Qed.

Lemma advances_readByte v a : advances (readByte v a).
Proof.
  apply advances_same. intros program g. unfold readByte, ram_get. run_monad.
  destruct (DataView.getInt8 _ _); [exact I|].
  destruct v; reflexivity.
Qed.

Lemma advances_readFloat v a : advances (readFloat v a).
Proof.
  apply advances_same. intros program g. unfold readFloat, ram_get. run_monad.
  destruct (DataView.getFloat32 _ _); [exact I|].
  destruct v; reflexivity.
Qed.

Lemma advances_writeByte a v : advances (writeByte a v).
Proof.
  apply advances_same. intros program g. unfold writeByte, ram_set. run_monad.
  destruct (DataView.setInt8 _ _ _); [exact I|reflexivity].
Qed.

Lemma advances_writeFloat a v : advances (writeFloat a v).
Proof.
  apply advances_same. intros program g. unfold writeFloat, ram_set. run_monad.
  destruct (DataView.setFloat32 _ _ _); [exact I|reflexivity].
Qed.

Lemma advances_arith op r a b : advances (arith op r a b).
Proof. apply advances_same. intros program g. destruct r; reflexivity. Qed.

(** Every instruction of the table but [exit] and [run] (opcodes 6 to 9)
    moves the counter forward. *)
Lemma table_advances :
  Forall advances (take 6 (instructionByBytecode tables))
  /\ Forall advances (drop 10 (instructionByBytecode tables)).
Proof.
  split;
    lazy -[loadByte loadFloat exit run push pop readByte readFloat
           writeByte writeFloat arith add sub mul div advances];
    each_statement;
    auto using advances_loadByte, advances_loadFloat, advances_push,
      advances_pop, advances_readByte, advances_readFloat,
      advances_writeByte, advances_writeFloat, advances_arith.
Qed.

Lemma runInstruction_advances (byte : Z) (program : DataView) :
  isStraightLine byte ->
  exists instruction,
    runInstruction (ofZ byte) program = instruction program
    /\ advances instruction.
Proof.
  intros Hb. unfold runInstruction. rewrite typedIndex_ofZ by (destruct Hb; lia).
  destruct table_advances as [Hlow Hhigh].
  rewrite Forall_lookup in Hlow. rewrite Forall_lookup in Hhigh.
  destruct (instructionByBytecode tables !! Z.to_nat byte)
    as [instruction|] eqn:E.
  - exists instruction. split; [reflexivity|].
    destruct Hb as [Hb|Hb].
    + apply (Hlow (Z.to_nat byte)). rewrite lookup_take_lt by lia. exact E.
    + apply (Hhigh (Z.to_nat byte - 10)%nat). rewrite lookup_drop.
      replace (10 + (Z.to_nat byte - 10))%nat with (Z.to_nat byte) by lia.
      exact E.
  - apply lookup_ge_None_1 in E. pose proof table_length as Hl.
    unfold Instruction in *. destruct Hb; lia.
Qed.

Section StraightLine.
Variable toLocaleString : Z -> string.

(** Property X21. A program without [exit] and [run] opcodes, whose
    bytes are all opcodes of the table, ends: started with the counter
    at [a], [runProgram] returns or raises within as many turns of its
    loop as there are bytes from [a] to the end of the program; when it
    returns, the counter is at or past the end of the program, by at
    most the four bytes of an immediate. *)
Theorem straight_line_terminates (turns : nat) (program : DataView) (g : Gsx)
    (a : Z) :
  (forall i, 0 <= i < byteLength program -> isStraightLine (byteAt program i)) ->
  0 <= byteLength program < 3 * 2 ^ 20 ->
  Registers.programCounter (registers g) = ofZ a -> 0 <= a < 2 ^ 32 ->
  (Z.to_nat (byteLength program - a) <= turns)%nat ->
  exists o,
    runProgram toLocaleString turns program g = Some o
    /\ forall g', o = Val tt g' ->
         exists p, Registers.programCounter (registers g') = ofZ p
                   /\ byteLength program <= p
                   /\ p <= Z.max a (byteLength program + 4).
Proof.
  intros Hbytes Hlen.
  rewrite runProgram_size by lia.
  destruct (Z.leb_spec MAX_PROGRAM_SIZE (byteLength program)) as [Hbig|_];
    [unfold MAX_PROGRAM_SIZE, BYTES_PER_MB in Hbig; lia|].
  revert g a. induction turns as [|turns IH]; intros g a Hpc Ha Hturns;
    cbn [whileLoop]; rewrite Hpc, lt_ofZ by lia.
  - destruct (Z.ltb_spec a (byteLength program)) as [Hin|Hout]; [lia|].
    eexists. split; [reflexivity|]. intros g' [= <-].
    exists a. repeat split; [assumption|lia|lia].
  - destruct (Z.ltb_spec a (byteLength program)) as [Hin|Hout].
    + rewrite (fetchAndRun_at program g a Hpc) by lia.
      destruct (runInstruction_advances (byteAt program a) program)
        as (instruction & -> & Hadv); [apply Hbytes; lia|].
      assert (Hpc1 : Registers.programCounter (registers (fetched a g))
                     = ofZ (a + 1)).
      { unfold fetched. cbn. rewrite toUint32_ofZ by lia.
        unfold clamp. f_equal. lia. }
      specialize (Hadv program (fetched a g) (a + 1) Hpc1 ltac:(lia)).
      destruct (instruction program (fetched a g)) as [[] g1|e g1].
      * destruct Hadv as (k & Hk & Hpc2).
        destruct (IH g1 (a + 1 + k) Hpc2 ltac:(lia) ltac:(lia))
          as (o & Ho & Hend).
        exists o. split; [exact Ho|].
        intros g' Eo. destruct (Hend g' Eo) as (p & Hp & Hge & Hle).
        exists p. repeat split; [assumption|assumption|lia].
      * eexists. split; [reflexivity|]. discriminate.
    + eexists. split; [reflexivity|]. intros g' [= <-].
      exists a. repeat split; [assumption|lia|lia].
Qed.

End StraightLine.

(** The program [push t; new t = pop] (opcodes 10 and 13) on a fresh
    machine returns within two turns. *)
Lemma straight_line_terminates_witness :
  exists o, runProgram enUS 2 (DataView.ofBytes [10; 13]) Gsx_new = Some o.
Proof.
  destruct (straight_line_terminates enUS 2 (DataView.ofBytes [10; 13])
              Gsx_new 0) as (o & Ho & _).
  - intros i Hi. cbn in Hi.
    assert (H : i = 0 \/ i = 1) by lia.
    destruct H as [-> | ->]; right; vm_compute;
      (split; [discriminate|reflexivity]).
  - cbn. lia.
  - reflexivity.
  - lia.
  - cbn. lia.
  - exists o. exact Ho.
Defined.

(** ** The rendering in hexadecimal *)

Lemma hexValue_hexDigit (d : Z) : 0 <= d < 16 -> hexValue (hexDigit d) = d.
Proof.
  intros Hd.
  assert (H : d = 0 \/ d = 1 \/ d = 2 \/ d = 3 \/ d = 4 \/ d = 5 \/ d = 6
              \/ d = 7 \/ d = 8 \/ d = 9 \/ d = 10 \/ d = 11 \/ d = 12
              \/ d = 13 \/ d = 14 \/ d = 15) by lia.
  repeat (destruct H as [->|H]; [reflexivity|]). subst. reflexivity.
Qed.

Lemma twoDigits (byte : Z) :
  0 <= byte < 256 ->
  padStart2 (toString16 byte)
  = String (hexDigit (byte / 16)) (String (hexDigit (byte mod 16)) EmptyString).
Proof.
  intros Hb. unfold toString16.
  destruct (Z.ltb_spec byte 16) as [Hlt|Hge]; [|reflexivity].
  rewrite Z.div_small, Z.mod_small by lia. reflexivity.
Qed.

Lemma parseHex_concat (bytes : list Z) :
  Forall (fun byte => 0 <= byte < 256) bytes ->
  parseHex (String.concat " " (map (fun byte => padStart2 (toString16 byte)) bytes))
  = bytes
  /\ Z.of_nat (String.length
       (String.concat " " (map (fun byte => padStart2 (toString16 byte)) bytes)))
     = Z.max 0 (3 * Z.of_nat (length bytes) - 1).
Proof.
  induction 1 as [|byte bytes Hb _ [IHp IHl]]; [split; reflexivity|].
  assert (Hq : 0 <= byte / 16 < 16).
  { split; [apply Z.div_pos; lia|apply Z.div_lt_upper_bound; lia]. }
  assert (Hr : 0 <= byte mod 16 < 16) by (apply Z.mod_pos_bound; lia).
  assert (Hvalue : 16 * hexValue (hexDigit (byte / 16))
                   + hexValue (hexDigit (byte mod 16)) = byte).
  { rewrite !hexValue_hexDigit by assumption.
    pose proof (Z.div_mod byte 16 ltac:(lia)). lia. }
  destruct bytes as [|next bytes].
  - cbn [map String.concat]. rewrite (twoDigits byte Hb).
    split; [cbn [parseHex]; rewrite Hvalue; reflexivity|reflexivity].
  - remember (next :: bytes) as others eqn:Hothers.
    assert (Hstep : String.concat " "
                      (map (fun byte => padStart2 (toString16 byte))
                         (byte :: others))
                    = String (hexDigit (byte / 16))
                        (String (hexDigit (byte mod 16))
                           (String " "
                              (String.concat " "
                                 (map (fun byte => padStart2 (toString16 byte))
                                    others))))).
    { rewrite Hothers. cbn [map String.concat].
      rewrite (twoDigits byte Hb). reflexivity. }
    rewrite Hstep. cbn [parseHex String.length]. rewrite Hvalue, IHp.
    split; [reflexivity|].
    assert (0 < length others)%nat by (rewrite Hothers; cbn; lia).
    cbn [length]. lia.
Qed.

Lemma sliceLength_range (len : Z) (final : number) :
  0 <= len -> 0 <= sliceLength len final <= len.
Proof.
  intros Hlen. unfold sliceLength.
  destruct final as [s|[]| |s m e]; cbv zeta;
    try match goal with
        | |- context [truncZ ?x] => generalize (truncZ x); intros r
        end;
    try destruct (Z.ltb_spec r 0); lia.
Qed.

Lemma sliceLength_ofZ (len m : Z) :
  - 2 ^ 53 < m < 2 ^ 53 ->
  sliceLength len (ofZ m)
  = if m <? 0 then Z.max (len + m) 0 else Z.min m len.
Proof.
  intros Hm. unfold sliceLength.
  pose proof (truncZ_ofZ m Hm) as Ht.
  destruct (Z.eq_dec m 0) as [->|Hne]; [reflexivity|].
  destruct (ofZ_nonzero m Hne Hm) as (mant & e & E & _).
  rewrite E in *. cbv zeta. rewrite Ht. reflexivity.
Qed.

(** Property X22. The rendering of a view lists its first [n] bytes,
    each as two lower-case hexadecimal digits, separated by one space:
    reading the text back gives these bytes, and the text has [3 n - 1]
    characters (none when [n] is 0). [n] is the lesser of the view's
    size and the limit, which is 1000 when omitted. *)
Theorem renderDataViewAsHex_decodes (dataView : DataView)
    (maxLengthToRender : option number) :
  0 <= byteLength dataView ->
  (forall i, 0 <= i < byteLength dataView -> 0 <= byteAt dataView i < 256) ->
  let rendered := renderDataViewAsHex dataView maxLengthToRender in
  let n := sliceLength (byteLength dataView)
             (default (ofZ 1000) maxLengthToRender) in
  parseHex rendered = map (byteAt dataView) (indices n)
  /\ Z.of_nat (String.length rendered) = Z.max 0 (3 * n - 1)
  /\ 0 <= n <= byteLength dataView
  /\ (maxLengthToRender = None -> n = Z.min 1000 (byteLength dataView))
  /\ (forall m, 0 <= m < 2 ^ 53 -> maxLengthToRender = Some (ofZ m) ->
        n = Z.min m (byteLength dataView)).
Proof.
  intros Hlen Hbytes rendered n.
  pose proof (sliceLength_range (byteLength dataView)
                (default (ofZ 1000) maxLengthToRender) Hlen) as Hn.
  fold n in Hn.
  assert (Hall : Forall (fun byte => 0 <= byte < 256)
                   (map (byteAt dataView) (indices n))).
  { apply Forall_map, Forall_map. apply Forall_forall. intros i Hi.
    apply elem_of_seq in Hi. cbn. apply Hbytes. lia. }
  destruct (parseHex_concat _ Hall) as [Hparse Hsize].
  split; [exact Hparse|]. split.
  - unfold rendered, renderDataViewAsHex. cbv zeta. fold n. rewrite Hsize.
    unfold indices. rewrite !length_map, length_seq. lia.
  - split; [exact Hn|]. split.
    + intros ->. unfold n. cbn [default].
      rewrite (sliceLength_ofZ _ 1000) by lia. reflexivity.
    + intros m Hm ->. unfold n. cbn [default].
      rewrite (sliceLength_ofZ _ m) by lia.
      destruct (Z.ltb_spec m 0); [lia|reflexivity].
Qed.

Lemma renderDataViewAsHex_decodes_witness :
  renderDataViewAsHex (DataView.ofBytes [0; 5; 171; 255]) (Some (ofZ 3))
  = "00 05 ab"%string
  /\ parseHex (renderDataViewAsHex (DataView.ofBytes [0; 5; 171; 255])
                (Some (ofZ 3)))
     = [0; 5; 171].
Proof.
  split; [reflexivity|].
  apply (renderDataViewAsHex_decodes (DataView.ofBytes [0; 5; 171; 255])
           (Some (ofZ 3))).
  - cbn. lia.
  - intros i Hi. cbn in Hi.
    assert (H : i = 0 \/ i = 1 \/ i = 2 \/ i = 3) by lia.
    destruct H as [-> | [-> | [-> | ->]]];
      vm_compute; (split; [discriminate|reflexivity]).
Defined.
